(** * HomeStore: checkpoint manager and device manager

    A shallow embedding of [src/lib/checkpoint/cp_mgr.cpp] (the checkpoint
    manager, its guard and its watchdog), of the device manager's
    [load_devices], [create_vdev] and [load_vdevs], and of the id lookups of
    [src/device/device.h], with the properties the design document states
    about them.

    Objects that the C++ code reaches through pointers live in an explicit
    store ([gmap] from addresses to records); every call on a consumer is
    appended to a trace, so that the order of effects can be stated. The
    checkpoint manager is given twice: call by call, and section by section
    for the runs in which threads interleave. *)

From Stdlib Require Import ZArith Bool Lia.
From stdpp Require Import base option list gmap strings.

Local Open Scope Z_scope.

(** ** Results of fallible code *)

(** What stops a call: a failed debug assertion ([HS_DBG_ASSERT*], compiled
    only without [NDEBUG]), a failed release assertion ([HS_REL_ASSERT*],
    [RELEASE_ASSERT*]), a thrown [std::out_of_range], a null dereference,
    a division by zero. *)
Inductive fatal : Type :=
  | DBG_ASSERT
  | REL_ASSERT
  | OUT_OF_RANGE
  | NULL_DEREF
  | DIV_BY_ZERO.

Inductive result (A : Type) : Type :=
  | Ok (a : A)
  | Fatal (f : fatal).
Arguments Ok {A} a.
Arguments Fatal {A} f.

#[global] Instance result_ret : MRet result := fun A a => Ok a.
#[global] Instance result_bind : MBind result := fun A B k r =>
  match r with
  | Ok a => k a
  | Fatal f => Fatal f
  end.

Definition is_Ok {A : Type} (r : result A) : Prop :=
  match r with Ok _ => True | Fatal _ => False end.

(** [uint32_t] and [uint64_t] arithmetic. *)
Definition wrap32 (x : Z) : Z := x mod 2 ^ 32.
Definition wrap64 (x : Z) : Z := x mod 2 ^ 64.

(** ** Checkpoint manager *)

Module Checkpoint.

(** [cp_status_t]; the order is the life of one checkpoint. *)
Inductive cp_status_t : Type :=
  | cp_unknown
  | cp_io_ready
  | cp_trigger
  | cp_flush_prepare
  | cp_flushing
  | cp_flush_done
  | cp_cleaning.

#[global] Instance cp_status_eq_dec : EqDecision cp_status_t.
Proof. solve_decision. Defined.

Definition status_eqb (a b : cp_status_t) : bool := bool_decide (a = b).

(** Addresses of [CP] objects and identities of [folly::SharedPromise]s. *)
Abbreviation cp_ptr := nat (only parsing).
Abbreviation promise_id := nat (only parsing).

(** What [trigger_cp_flush] hands back: a future that is already made
    ([folly::makeFuture<bool>(v)]) or one taken from a shared promise
    ([m_comp_promise.getFuture()]). *)
Inductive future : Type :=
  | Ready (v : bool)
  | FromPromise (p : promise_id).

(** Calls that leave the manager, in the order they are made. *)
Inductive event : Type :=
  | EvSwitchover (idx : nat) (old : option cp_ptr) (new : cp_ptr)
  | EvCpFlush (idx : nat) (cp : cp_ptr)
  | EvCpCleanup (idx : nat) (cp : cp_ptr)
  | EvSbWrite (last_flushed : Z)
  | EvSetValue (p : promise_id) (v : bool)
  | EvInFlushCleared.

#[global] Instance event_eq_dec : EqDecision event.
Proof. solve_decision. Defined.

(** The CP super block, [[magic][version][last_flushed_cp_id]]. *)
Record cp_mgr_super_block : Type := mk_sb {
  magic : Z;
  version : Z;
  m_last_flushed_cp : Z
}.

(** [CPWatchdog]'s fields. *)
Record CPWatchdog : Type := mk_wd {
  wd_cp : option cp_ptr;
  m_progress_pct : Z;
  m_last_state_ch_time : Z;
  m_timer_sec : Z
}.

Section Manager.

(** The per-consumer context is opaque to the manager. *)
Variable CPContext : Type.

(** [true] when the build defines [NDEBUG]: debug assertions are compiled out. *)
Variable NDEBUG : bool.

(** The constants the CP super block is checked against. *)
Variable cp_sb_magic : Z.
Variable cp_sb_version : Z.

(** [cp_consumer_t::SENTINEL], the size of the consumer table and of every
    [CP]'s context array. *)
Variable SENTINEL : nat.

(** A registered consumer, as far as the manager's bookkeeping sees it: what
    [on_switchover_cp(old, new)] returns. *)
Record CPCallbacks : Type := mk_cb {
  on_switchover_cp : option cp_ptr -> cp_ptr -> CPContext
}.

(** One checkpoint. A fresh [CP] has no entries, is not waiting, and owns a
    promise of its own. *)
Record CP : Type := mk_cp {
  m_cp_status : cp_status_t;
  m_enter_cnt : Z;
  m_comp_promise : promise_id;
  m_cp_waiting_to_trigger : bool;
  m_cp_id : Z;
  m_contexts : list (option CPContext)
}.

Definition set_status (x : cp_status_t) (c : CP) : CP :=
  let '(mk_cp _ n0 q0 w0 i0 l0) := c in mk_cp x n0 q0 w0 i0 l0.
Definition set_enter_cnt (x : Z) (c : CP) : CP :=
  let '(mk_cp st0 _ q0 w0 i0 l0) := c in mk_cp st0 x q0 w0 i0 l0.
Definition set_promise (x : promise_id) (c : CP) : CP :=
  let '(mk_cp st0 n0 _ w0 i0 l0) := c in mk_cp st0 n0 x w0 i0 l0.
Definition set_waiting (x : bool) (c : CP) : CP :=
  let '(mk_cp st0 n0 q0 _ i0 l0) := c in mk_cp st0 n0 q0 x i0 l0.
Definition set_cp_id (x : Z) (c : CP) : CP :=
  let '(mk_cp st0 n0 q0 w0 _ l0) := c in mk_cp st0 n0 q0 w0 x l0.
Definition set_contexts (x : list (option CPContext)) (c : CP) : CP :=
  let '(mk_cp st0 n0 q0 w0 i0 _) := c in mk_cp st0 n0 q0 w0 i0 x.

(** The manager, the store of the [CP] objects it allocated, the persisted
    copy of its super block, the guard stack of the calling thread and the
    trace of outgoing calls. *)
Record CPManager : Type := mk_mgr {
  m_heap : gmap nat CP;
  m_next_addr : nat;
  m_next_promise : nat;
  m_cur_cp : option cp_ptr;
  m_in_flush_phase : bool;
  m_cp_shutdown_initiated : bool;
  m_cp_cb_table : list (option CPCallbacks);
  m_sb : cp_mgr_super_block;
  disk_sb : option cp_mgr_super_block;
  t_cp_stack : list (option cp_ptr);
  m_wd_cp : CPWatchdog;
  m_trace : list event
}.

Definition set_heap (x : gmap nat CP) (m : CPManager) : CPManager :=
  let '(mk_mgr _ na0 np0 cur0 fl0 sd0 tbl0 sb0 d0 stk0 wd0 tr0) := m in
  mk_mgr x na0 np0 cur0 fl0 sd0 tbl0 sb0 d0 stk0 wd0 tr0.
Definition set_next_addr (x : nat) (m : CPManager) : CPManager :=
  let '(mk_mgr h0 _ np0 cur0 fl0 sd0 tbl0 sb0 d0 stk0 wd0 tr0) := m in
  mk_mgr h0 x np0 cur0 fl0 sd0 tbl0 sb0 d0 stk0 wd0 tr0.
Definition set_next_promise (x : nat) (m : CPManager) : CPManager :=
  let '(mk_mgr h0 na0 _ cur0 fl0 sd0 tbl0 sb0 d0 stk0 wd0 tr0) := m in
  mk_mgr h0 na0 x cur0 fl0 sd0 tbl0 sb0 d0 stk0 wd0 tr0.
Definition set_cur_cp (x : option cp_ptr) (m : CPManager) : CPManager :=
  let '(mk_mgr h0 na0 np0 _ fl0 sd0 tbl0 sb0 d0 stk0 wd0 tr0) := m in
  mk_mgr h0 na0 np0 x fl0 sd0 tbl0 sb0 d0 stk0 wd0 tr0.
Definition set_in_flush_phase (x : bool) (m : CPManager) : CPManager :=
  let '(mk_mgr h0 na0 np0 cur0 _ sd0 tbl0 sb0 d0 stk0 wd0 tr0) := m in
  mk_mgr h0 na0 np0 cur0 x sd0 tbl0 sb0 d0 stk0 wd0 tr0.
Definition set_shutdown_initiated (x : bool) (m : CPManager) : CPManager :=
  let '(mk_mgr h0 na0 np0 cur0 fl0 _ tbl0 sb0 d0 stk0 wd0 tr0) := m in
  mk_mgr h0 na0 np0 cur0 fl0 x tbl0 sb0 d0 stk0 wd0 tr0.
Definition set_cb_table (x : list (option CPCallbacks)) (m : CPManager) : CPManager :=
  let '(mk_mgr h0 na0 np0 cur0 fl0 sd0 _ sb0 d0 stk0 wd0 tr0) := m in
  mk_mgr h0 na0 np0 cur0 fl0 sd0 x sb0 d0 stk0 wd0 tr0.
Definition set_sb (x : cp_mgr_super_block) (m : CPManager) : CPManager :=
  let '(mk_mgr h0 na0 np0 cur0 fl0 sd0 tbl0 _ d0 stk0 wd0 tr0) := m in
  mk_mgr h0 na0 np0 cur0 fl0 sd0 tbl0 x d0 stk0 wd0 tr0.
Definition set_disk_sb (x : option cp_mgr_super_block) (m : CPManager) : CPManager :=
  let '(mk_mgr h0 na0 np0 cur0 fl0 sd0 tbl0 sb0 _ stk0 wd0 tr0) := m in
  mk_mgr h0 na0 np0 cur0 fl0 sd0 tbl0 sb0 x stk0 wd0 tr0.
Definition set_stack (x : list (option cp_ptr)) (m : CPManager) : CPManager :=
  let '(mk_mgr h0 na0 np0 cur0 fl0 sd0 tbl0 sb0 d0 _ wd0 tr0) := m in
  mk_mgr h0 na0 np0 cur0 fl0 sd0 tbl0 sb0 d0 x wd0 tr0.
Definition set_wd (x : CPWatchdog) (m : CPManager) : CPManager :=
  let '(mk_mgr h0 na0 np0 cur0 fl0 sd0 tbl0 sb0 d0 stk0 _ tr0) := m in
  mk_mgr h0 na0 np0 cur0 fl0 sd0 tbl0 sb0 d0 stk0 x tr0.
Definition emit (es : list event) (m : CPManager) : CPManager :=
  let '(mk_mgr h0 na0 np0 cur0 fl0 sd0 tbl0 sb0 d0 stk0 wd0 tr0) := m in
  mk_mgr h0 na0 np0 cur0 fl0 sd0 tbl0 sb0 d0 stk0 wd0 (tr0 ++ es).

(** *** Small helpers *)

(** [HS_DBG_ASSERT*]: checked only when [NDEBUG] is not defined. *)
Definition dbg_assert (b : bool) : result unit :=
  if NDEBUG then Ok tt else if b then Ok tt else Fatal DBG_ASSERT.

Arguments dbg_assert : simpl never.

(** Dereference of a [CP*]. *)
Definition get_cp (p : cp_ptr) (m : CPManager) : result CP :=
  match m_heap m !! p with
  | Some c => Ok c
  | None => Fatal NULL_DEREF
  end.

(** Assignment to fields of the object at [p]. *)
Definition upd_cp (p : cp_ptr) (f : CP -> CP) (m : CPManager) : CPManager :=
  set_heap (alter f p (m_heap m)) m.

(** [new CP(this)]: a fresh object with a promise of its own. *)
Definition new_CP (m : CPManager) : cp_ptr * CPManager :=
  let a := m_next_addr m in
  let c := mk_cp cp_unknown 0 (m_next_promise m) false 0 (replicate SENTINEL None) in
  (a, set_next_promise (S (m_next_promise m))
        (set_next_addr (S a) (set_heap (<[a := c]> (m_heap m)) m))).

(** [cp->m_comp_promise = std::move(folly::SharedPromise< bool >{})]. *)
Definition fresh_promise (p : cp_ptr) (m : CPManager) : CPManager :=
  set_next_promise (S (m_next_promise m))
    (upd_cp p (set_promise (m_next_promise m)) m).

(** *** Start-up *)

(** The manager as its constructor leaves it. The super block is allocated
    only by [create] or [load]; until then the field holds a blank one. *)
Definition CPManager_ctor (timer_sec : Z) : CPManager :=
  mk_mgr ∅ 0 0 None false false (replicate SENTINEL None)
         (mk_sb 0 0 0) None [] (mk_wd None 0 0 timer_sec) [].

Definition create_first_cp (m : CPManager) : CPManager :=
  let '(a, m1) := new_CP m in
  let m2 := set_cur_cp (Some a) m1 in
  let m3 := upd_cp a (set_status cp_io_ready) m2 in
  upd_cp a (set_cp_id (m_last_flushed_cp (m_sb m) + 1)) m3.

(** [m_sb.write()]. *)
Definition sb_write (m : CPManager) : CPManager :=
  emit [EvSbWrite (m_last_flushed_cp (m_sb m))] (set_disk_sb (Some (m_sb m)) m).

(** [start(first_time_boot)]. [m_sb.create] builds a super block with the
    current magic and version and no flushed checkpoint; the periodic timer
    is a caller of [trigger_cp_flush(false)] like any other. *)
Definition start (first_time_boot : bool) (m : CPManager) : CPManager :=
  if first_time_boot then
    let m1 := set_sb (mk_sb cp_sb_magic cp_sb_version 0) m in
    let m2 := create_first_cp m1 in
    sb_write m2
  else m.

Definition on_meta_blk_found (buf : cp_mgr_super_block) (m : CPManager)
  : result CPManager :=
  let m1 := set_disk_sb (Some buf) (set_sb buf m) in
  let m2 := create_first_cp m1 in
  if bool_decide (magic (m_sb m2) = cp_sb_magic) then
    if bool_decide (version (m_sb m2) = cp_sb_version) then Ok m2
    else Fatal REL_ASSERT
  else Fatal REL_ASSERT.

Definition register_consumer (idx : nat) (callbacks : option CPCallbacks)
    (m : CPManager) : result CPManager :=
  let m1 := set_cb_table (<[idx := callbacks]> (m_cp_cb_table m)) m in
  match callbacks with
  | Some cb =>
      match m_cur_cp m1 with
      | Some p =>
          cp ← get_cp p m1;
          Ok (upd_cp p (set_contexts
                          (<[idx := Some (on_switchover_cp cb None p)]> (m_contexts cp)))
                (emit [EvSwitchover idx None p] m1))
      | None => Fatal NULL_DEREF
      end
  | None => Ok m1
  end.

(** *** Entering and leaving a checkpoint *)

Definition cp_ref (p : cp_ptr) (m : CPManager) : result CPManager :=
  cp ← get_cp p m;
  let m1 := upd_cp p (set_enter_cnt (m_enter_cnt cp + 1)) m in
  let status := m_cp_status cp in
  _ ← dbg_assert (status_eqb status cp_io_ready || status_eqb status cp_trigger
                  || status_eqb status cp_flush_prepare);
  Ok m1.

Definition cp_io_enter (m : CPManager) : result (option cp_ptr * CPManager) :=
  let cp := m_cur_cp m in
  _ ← dbg_assert (bool_decide (cp ≠ None));
  match cp with
  | None => Ok (None, m)
  | Some p => m1 ← cp_ref p m; Ok (Some p, m1)
  end.

(** The calls [cp_flush(cp)] made on the registered consumers, in table order. *)
Fixpoint flush_calls (tbl : list (option CPCallbacks)) (idx : nat) (p : cp_ptr)
  : list event :=
  match tbl with
  | [] => []
  | Some _ :: tbl' => EvCpFlush idx p :: flush_calls tbl' (S idx) p
  | None :: tbl' => flush_calls tbl' (S idx) p
  end.

(** [cp_start_flush]: the continuation [on_cp_flush_done(cp)] runs later, once
    every consumer's future is complete. *)
Definition cp_start_flush (p : cp_ptr) (m : CPManager) : CPManager :=
  let m1 := upd_cp p (set_status cp_flushing) m in
  emit (flush_calls (m_cp_cb_table m1) 0 p) m1.

Definition cp_io_exit (p : cp_ptr) (m : CPManager) : result CPManager :=
  cp ← get_cp p m;
  _ ← dbg_assert (negb (status_eqb (m_cp_status cp) cp_flushing));
  let cnt := m_enter_cnt cp - 1 in
  let m1 := upd_cp p (set_enter_cnt cnt) m in
  if (cnt =? 0) && status_eqb (m_cp_status cp) cp_flush_prepare
  then Ok (cp_start_flush p m1)
  else Ok m1.

Definition get_cur_cp (m : CPManager) : option cp_ptr := m_cur_cp m.

(** *** The guard *)

Record CPGuard : Type := mk_guard {
  g_cp : option cp_ptr;
  m_pushed : bool
}.

Definition CPGuard_ctor (m : CPManager) : result (CPGuard * CPManager) :=
  match t_cp_stack m with
  | [] =>
      '(cp, m1) ← cp_io_enter m;
      Ok (mk_guard cp true, set_stack (cp :: t_cp_stack m1) m1)
  | top :: _ =>
      match top with
      | Some p =>
          m1 ← cp_ref p m;
          Ok (mk_guard top true, set_stack (top :: t_cp_stack m1) m1)
      | None => Fatal NULL_DEREF
      end
  end.

Definition CPGuard_dtor (g : CPGuard) (m : CPManager) : result CPManager :=
  let m1 := if m_pushed g && negb (bool_decide (t_cp_stack m = []))
            then set_stack (tail (t_cp_stack m)) m else m in
  match g_cp g with
  | Some p => cp_io_exit p m1
  | None => Ok m1
  end.

(** [operator->] on a guard that was pushed by its constructor. *)
Definition CPGuard_get (g : CPGuard) : result cp_ptr :=
  _ ← dbg_assert (bool_decide (g_cp g ≠ None));
  match g_cp g with
  | Some p => Ok p
  | None => Fatal NULL_DEREF
  end.

(** *** Triggering a flush *)

(** The loop over [m_cp_cb_table] in the critical section: the contexts of
    the new checkpoint and the calls made. *)
Fixpoint switchover_loop (tbl : list (option CPCallbacks)) (idx : nat)
    (old new : cp_ptr) (ctxs : list (option CPContext))
  : list (option CPContext) * list event :=
  match tbl with
  | [] => (ctxs, [])
  | Some cb :: tbl' =>
      let '(ctxs', evs) :=
        switchover_loop tbl' (S idx) old new
          (<[idx := Some (on_switchover_cp cb (Some old) new)]> ctxs) in
      (ctxs', EvSwitchover idx (Some old) new :: evs)
  | None :: tbl' => switchover_loop tbl' (S idx) old new ctxs
  end.

(** The block of [trigger_cp_flush] that holds [trigger_cp_mtx]. *)
Definition switchover_locked (cur new : cp_ptr) (m : CPManager)
  : result (future * CPManager) :=
  cur_cp ← get_cp cur m;
  new_cp ← get_cp new m;
  let m1 := upd_cp new (set_cp_id (m_cp_id cur_cp + 1)) m in
  let r := switchover_loop (m_cp_cb_table m1) 0 cur new (m_contexts new_cp) in
  let m2 := emit r.2 (upd_cp new (set_contexts r.1) m1) in
  let '(ret_fut, m3) :=
    if m_cp_waiting_to_trigger cur_cp then (Ready true, m2)
    else (FromPromise (m_next_promise m2), fresh_promise cur m2) in
  let m4 := upd_cp cur (set_status cp_flush_prepare) m3 in
  let m5 := upd_cp new (set_status cp_io_ready) m4 in
  let m6 := set_cur_cp (Some new) m5 in
  Ok (ret_fut, m6).

(** The part of [trigger_cp_flush] up to the end of the critical section,
    for a call that won the compare-and-exchange. *)
Definition trigger_critical (m : CPManager) : result (future * CPGuard * CPManager) :=
  let m0 := set_in_flush_phase true m in
  '(cur_cp, m1) ← CPGuard_ctor m0;
  cur ← CPGuard_get cur_cp;
  _ ← get_cp cur m1;
  let m2 := upd_cp cur (set_status cp_trigger) m1 in
  let '(new, m3) := new_CP m2 in
  '(ret_fut, m4) ← switchover_locked cur new m3;
  Ok (ret_fut, cur_cp, m4).

Definition trigger_cp_flush (force : bool) (m : CPManager)
  : result (future * CPManager) :=
  if m_in_flush_phase m then
    if force then
      '(cur_cp, m1) ← CPGuard_ctor m;
      cur ← CPGuard_get cur_cp;
      cp ← get_cp cur m1;
      _ ← dbg_assert (negb (status_eqb (m_cp_status cp) cp_flush_prepare));
      let m2 := if m_cp_waiting_to_trigger cp then m1
                else upd_cp cur (set_waiting true) (fresh_promise cur m1) in
      cp2 ← get_cp cur m2;
      m3 ← CPGuard_dtor cur_cp m2;
      Ok (FromPromise (m_comp_promise cp2), m3)
    else Ok (Ready false, m)
  else
    '(ret_fut, cur_cp, m4) ← trigger_critical m;
    m5 ← CPGuard_dtor cur_cp m4;
    Ok (ret_fut, m5).

(** *** Completion of a flush *)

Fixpoint cleanup_calls (tbl : list (option CPCallbacks)) (idx : nat) (p : cp_ptr)
  : list event :=
  match tbl with
  | [] => []
  | Some _ :: tbl' => EvCpCleanup idx p :: cleanup_calls tbl' (S idx) p
  | None :: tbl' => cleanup_calls tbl' (S idx) p
  end.

Definition cleanup_cp (p : cp_ptr) (m : CPManager) : CPManager :=
  let m1 := upd_cp p (set_status cp_cleaning) m in
  emit (cleanup_calls (m_cp_cb_table m1) 0 p) m1.

Definition reset_cp (w : CPWatchdog) : CPWatchdog :=
  mk_wd None 0 (m_last_state_ch_time w) (m_timer_sec w).

Definition set_cp (cp : cp_ptr) (now : Z) (w : CPWatchdog) : CPWatchdog :=
  mk_wd (Some cp) (m_progress_pct w) now (m_timer_sec w).

(** [on_cp_flush_done(cp)], with the work it hands to the blocking fiber run
    in place; [now] is what [Clock::now()] reads there. The call cut where
    the source hands over, and the work of the fiber cut where other threads
    can see the difference, are [flush_done_mark] to [flush_done_tail],
    further down. *)
Definition on_cp_flush_done (p : cp_ptr) (now : Z) (m : CPManager)
  : result CPManager :=
  cp ← get_cp p m;
  _ ← dbg_assert (status_eqb (m_cp_status cp) cp_flushing);
  let m1 := upd_cp p (set_status cp_flush_done) m in
  let sb := m_sb m1 in
  let m2 := set_sb (mk_sb (magic sb) (version sb) (m_last_flushed_cp sb + 1)) m1 in
  let m3 := sb_write m2 in
  let m4 := cleanup_cp p m3 in
  let shutdown_initiated := m_cp_shutdown_initiated m4 in
  let promise := m_comp_promise cp in
  let m5 := set_wd (reset_cp (m_wd_cp m4)) m4 in
  let m6 := set_heap (delete p (m_heap m5)) m5 in
  let m7 := emit [EvSetValue promise true] m6 in
  if shutdown_initiated then Ok m7
  else
    let m8 := emit [EvInFlushCleared] (set_in_flush_phase false m7) in
    '(cur_cp, m9) ← CPGuard_ctor m8;
    match g_cp cur_cp with
    | None => _ ← dbg_assert false; CPGuard_dtor cur_cp m9
    | Some cur =>
        let m10 := set_wd (set_cp cur now (m_wd_cp m9)) m9 in
        c ← get_cp cur m10;
        m11 ← (if m_cp_waiting_to_trigger c
               then '(_, m') ← trigger_cp_flush false m10; Ok m'
               else Ok m10);
        CPGuard_dtor cur_cp m11
    end.

(** The first half of [shutdown]: the flag is raised and a flush is forced;
    the caller then waits on the future. *)
Definition shutdown_trigger (m : CPManager) : result (future * CPManager) :=
  trigger_cp_flush true (set_shutdown_initiated true m).

(** *** The watchdog *)

(** What a tick of the watchdog does to the outside. *)
Inductive wd_action : Type :=
  | WdLogInfo
  | WdRepairSlowCp (idx : nat).


(** The first loop over [consumer_list()]: [cum_pct] and [count], both
    [uint32_t]. [pct idx] is what [cp_progress_percent()] of the consumer in
    slot [idx] returns. *)
Fixpoint cum_progress (tbl : list (option CPCallbacks)) (idx : nat) (pct : nat -> Z)
    (cum_pct count : Z) : Z * Z :=
  match tbl with
  | [] => (cum_pct, count)
  | Some _ :: tbl' =>
      cum_progress tbl' (S idx) pct (wrap32 (cum_pct + pct idx)) (wrap32 (count + 1))
  | None :: tbl' => cum_progress tbl' (S idx) pct cum_pct count
  end.

(** The second loop: it returns from the timer as soon as one repair was
    attempted ([Some]); [None] when the loop runs to its end. *)
Fixpoint repair_loop (tbl : list (option CPCallbacks)) (idx : nat) (pct : nat -> Z)
  : option (list wd_action) :=
  match tbl with
  | [] => None
  | Some _ :: tbl' =>
      if bool_decide (pct idx <> 100) then Some [WdRepairSlowCp idx]
      else repair_loop tbl' (S idx) pct
  | None :: tbl' => repair_loop tbl' (S idx) pct
  end.

(** The body of [cp_watchdog_timer] below its two early returns.
    [elapsed_ms] is [get_elapsed_time_ms(m_last_state_ch_time)]; the times
    are compared as mathematical integers. The fatal assertion is
    ["cp seems to be stuck"]. *)
Definition watchdog_check (pct : nat -> Z) (elapsed_ms : Z) (m : CPManager)
  : result (list wd_action * CPManager) :=
  let w := m_wd_cp m in
  let '(cum_pct, count) := cum_progress (m_cp_cb_table m) 0 pct 0 0 in
  if count =? 0 then Fatal DIV_BY_ZERO
  else if m_progress_pct w >? cum_pct / count then
    Ok ([], set_wd (mk_wd (wd_cp w) (cum_pct / count) (m_last_state_ch_time w)
                          (m_timer_sec w)) m)
  else
    let log := if elapsed_ms >=? m_timer_sec w * 1000 then [WdLogInfo] else [] in
    let max_time_multiplier := 12 in
    if elapsed_ms <? max_time_multiplier * m_timer_sec w * 1000 then
      match repair_loop (m_cp_cb_table m) 0 pct with
      | Some acts => Ok (log ++ acts, m)
      | None => Fatal REL_ASSERT
      end
    else Ok (log, m).

Definition cp_watchdog_timer (pct : nat -> Z) (elapsed_ms : Z) (m : CPManager)
  : result (list wd_action * CPManager) :=
  match wd_cp (m_wd_cp m) with
  | None => Ok ([], m)
  | Some cp =>
      c ← get_cp cp m;
      let status := m_cp_status c in
      if negb (status_eqb status cp_flush_prepare)
         || negb (status_eqb status cp_flushing)
      then Ok ([], m)
      else watchdog_check pct elapsed_ms m
  end.

(** *** Runs of the manager *)

(** How often the trace resolves promise [q]. *)
Fixpoint resolved_count (q : promise_id) (tr : list event) : nat :=
  match tr with
  | [] => 0
  | EvSetValue q' _ :: tr' =>
      ((if bool_decide (q' = q) then 1 else 0) + resolved_count q tr')%nat
  | _ :: tr' => resolved_count q tr'
  end.

(** The manager once the process is up: after [start(true)] on first boot,
    or after the meta service replayed the stored super block. *)
Inductive booted : CPManager -> Prop :=
  | boot_first (timer_sec : Z) :
      booted (start true (CPManager_ctor timer_sec))
  | boot_again (timer_sec : Z) (buf : cp_mgr_super_block) (m : CPManager) :
      on_meta_blk_found buf (CPManager_ctor timer_sec) = Ok m ->
      booted (start false m).

(** One call on the manager, by any thread that holds no guard of its own on
    the stack the call runs on, run from its first line to its last with
    nothing in between: the runs of [cp_step] are the runs in which calls do
    not overlap. Runs in which they do are those of [fine_step], further
    down. A checkpoint is left only by a thread that
    entered it, so [cp_io_exit] finds a positive entry count;
    [on_cp_flush_done] is the continuation of [cp_start_flush], so it runs
    only on a checkpoint that is flushing. *)
Inductive cp_step : CPManager -> CPManager -> Prop :=
  | step_register idx cb m m' :
      register_consumer idx cb m = Ok m' -> cp_step m m'
  | step_io_enter m o m' :
      cp_io_enter m = Ok (o, m') -> cp_step m m'
  | step_cp_ref p m m' :
      cp_ref p m = Ok m' -> cp_step m m'
  | step_io_exit p cp m m' :
      m_heap m !! p = Some cp -> 0 < m_enter_cnt cp ->
      cp_io_exit p m = Ok m' -> cp_step m m'
  | step_trigger force fut m m' :
      trigger_cp_flush force m = Ok (fut, m') -> cp_step m m'
  | step_flush_done p cp now m m' :
      m_heap m !! p = Some cp -> m_cp_status cp = cp_flushing ->
      on_cp_flush_done p now m = Ok m' -> cp_step m m'
  | step_shutdown fut m m' :
      shutdown_trigger m = Ok (fut, m') -> cp_step m m'.

Definition reachable (m : CPManager) : Prop :=
  exists m0, booted m0 /\ rtc cp_step m0 m.

(** What every live checkpoint satisfies: its address and its promise were
    handed out by the manager, the promise is still unresolved, and no more
    threads left the checkpoint than entered it. *)
Definition cp_ok (m : CPManager) (p : cp_ptr) (cp : CP) : Prop :=
  (p < m_next_addr m)%nat /\
  (m_comp_promise cp < m_next_promise m)%nat /\
  resolved_count (m_comp_promise cp) (m_trace m) = 0%nat /\
  0 <= m_enter_cnt cp.

(** The shape of the store between two calls: the current checkpoint alone,
    or the current checkpoint and the one being flushed. *)
Inductive heap_shape (m : CPManager) : Prop :=
  | shape_idle (c : cp_ptr) (cp : CP) :
      m_cur_cp m = Some c ->
      m_heap m = {[ c := cp ]} ->
      m_cp_status cp = cp_io_ready ->
      m_cp_id cp = m_last_flushed_cp (m_sb m) + 1 ->
      cp_ok m c cp ->
      heap_shape m
  | shape_busy (c f : cp_ptr) (cp fcp : CP) :
      m_cur_cp m = Some c ->
      f <> c ->
      m_heap m = <[ f := fcp ]> {[ c := cp ]} ->
      m_cp_status cp = cp_io_ready ->
      m_cp_id cp = m_last_flushed_cp (m_sb m) + 2 ->
      (m_cp_status fcp = cp_flush_prepare \/ m_cp_status fcp = cp_flushing) ->
      m_cp_id fcp = m_last_flushed_cp (m_sb m) + 1 ->
      m_in_flush_phase m = true ->
      m_comp_promise cp <> m_comp_promise fcp ->
      cp_ok m c cp ->
      cp_ok m f fcp ->
      heap_shape m.

Record cp_inv (m : CPManager) : Prop := mk_cp_inv {
  inv_stack : t_cp_stack m = [];
  inv_disk : disk_sb m = Some (m_sb m);
  inv_magic : magic (m_sb m) = cp_sb_magic;
  inv_version : version (m_sb m) = cp_sb_version;
  inv_shape : heap_shape m;
  inv_resolved : forall q, (resolved_count q (m_trace m) <= 1)%nat;
  inv_unborn : forall q, (m_next_promise m <= q)%nat ->
      resolved_count q (m_trace m) = 0%nat;
  inv_table : length (m_cp_cb_table m) = SENTINEL
}.

(** What one call guarantees besides the invariant: the trace only grows,
    the flushed frontier never moves back, addresses are not reused, and a
    checkpoint that is waiting to trigger keeps its promise until it is
    destroyed, at which point that promise has been resolved once. *)
Record step_post (m m' : CPManager) : Prop := mk_step_post {
  post_inv : cp_inv m';
  post_trace : exists es, m_trace m' = m_trace m ++ es;
  post_last : m_last_flushed_cp (m_sb m) <= m_last_flushed_cp (m_sb m');
  post_addr : (m_next_addr m <= m_next_addr m')%nat;
  post_keep : forall p cp,
      m_heap m !! p = Some cp -> m_cp_waiting_to_trigger cp = true ->
      (exists cp', m_heap m' !! p = Some cp' /\
                   m_comp_promise cp' = m_comp_promise cp /\
                   m_cp_waiting_to_trigger cp' = true) \/
      (m_heap m' !! p = None /\
       resolved_count (m_comp_promise cp) (m_trace m') = 1%nat);
  post_dead : forall p,
      (p < m_next_addr m)%nat -> m_heap m !! p = None -> m_heap m' !! p = None
}.


(** *** Facts about traces *)

Lemma resolved_count_app q tr1 tr2 :
  resolved_count q (tr1 ++ tr2) = (resolved_count q tr1 + resolved_count q tr2)%nat.
Proof.
  induction tr1 as [|e tr1 IH]; simpl; [done|].
  destruct e; rewrite ?IH; lia.
Qed.

Lemma resolved_count_flush_calls q tbl idx p :
  resolved_count q (flush_calls tbl idx p) = 0%nat.
Proof.
  revert idx; induction tbl as [|[cb|] tbl IH]; intros idx; simpl; auto.
Qed.

Lemma resolved_count_cleanup_calls q tbl idx p :
  resolved_count q (cleanup_calls tbl idx p) = 0%nat.
Proof.
  revert idx; induction tbl as [|[cb|] tbl IH]; intros idx; simpl; auto.
Qed.

Lemma resolved_count_switchover q tbl idx old new ctxs :
  resolved_count q (switchover_loop tbl idx old new ctxs).2 = 0%nat.
Proof.
  revert idx ctxs; induction tbl as [|[cb|] tbl IH]; intros idx ctxs; simpl; auto.
  specialize (IH (S idx) (<[idx:=Some (on_switchover_cp cb (Some old) new)]> ctxs)).
  destruct (switchover_loop _ _ _ _ _) as [c e]; simpl in *; auto.
Qed.

(** *** The invariant holds after boot *)

Lemma create_first_cp_inv (m0 : CPManager) :
  m_heap m0 = ∅ -> m_next_addr m0 = 0%nat -> m_next_promise m0 = 0%nat ->
  t_cp_stack m0 = [] -> m_trace m0 = [] ->
  disk_sb m0 = Some (m_sb m0) ->
  magic (m_sb m0) = cp_sb_magic -> version (m_sb m0) = cp_sb_version ->
  length (m_cp_cb_table m0) = SENTINEL ->
  cp_inv (create_first_cp m0).
Proof.
  destruct m0 as [h na np cur fl sd tbl sb d st wd tr]; simpl.
  intros -> -> -> -> -> -> Hmg Hv.
  unfold create_first_cp; simpl.
  intros Htbl.
  constructor; simpl; try done; [|intros; lia].
  apply (shape_idle _ 0%nat (mk_cp cp_io_ready 0 0%nat false
           (m_last_flushed_cp sb + 1) (replicate SENTINEL None))); simpl; try done.
  unfold cp_ok; simpl. repeat split; lia.
Qed.

Lemma booted_inv m : booted m -> cp_inv m.
Proof.
  destruct 1 as [t | t buf m Hm].
  - unfold start, CPManager_ctor, create_first_cp, sb_write; simpl.
    constructor; simpl; try done; [|intros; lia|apply length_replicate].
    apply (shape_idle _ 0%nat (mk_cp cp_io_ready 0 0%nat false
             (0 + 1) (replicate SENTINEL None))); simpl; try done.
    unfold cp_ok; simpl. repeat split; lia.
  - unfold on_meta_blk_found in Hm.
    repeat case_bool_decide; try done. injection Hm as <-.
    simpl. apply create_first_cp_inv; simpl; try done. apply length_replicate.
Qed.

(** *** Evaluating calls on a store of known shape *)

Ltac heap_simpl :=
  repeat first
    [ rewrite lookup_insert_eq | rewrite lookup_singleton_eq
    | rewrite lookup_insert_ne by (first [congruence | lia])
    | rewrite lookup_singleton_ne by (first [congruence | lia])
    | rewrite alter_insert_eq | rewrite alter_singleton_eq
    | rewrite alter_insert_ne by (first [congruence | lia])
    | rewrite alter_singleton_ne by (first [congruence | lia])
    | rewrite delete_insert_eq | rewrite delete_singleton_eq
    | rewrite delete_insert_ne by (first [congruence | lia])
    | rewrite delete_singleton_ne by (first [congruence | lia])
    | rewrite insert_insert_eq
    | rewrite lookup_empty
    | rewrite insert_empty ].

Ltac run := repeat (simpl; heap_simpl; rewrite ?andb_false_r, ?andb_true_r).

Ltac open_inv H m :=
  destruct m as [h na np cur fl sd tbl sb d st wd tr];
  destruct H as
    [Hstk Hdisk Hmg Hver
       [c [s n q w i ctx] Hcur Hh Hst Hid (Hca & Hcq & Hcr & Hcn)
       |c f [s n q w i ctx] [fs fn fq fw fi fctx]
          Hcur Hne Hh Hst Hid Hfst Hfid Hfl Hpq
          (Hca & Hcq & Hcr & Hcn) (Hfa & Hfq & Hfr & Hfn)]
       Hres Hunb Htbl];
  simpl in *; subst.

Ltac trace_simpl :=
  rewrite ?resolved_count_app, ?resolved_count_flush_calls,
    ?resolved_count_cleanup_calls, ?resolved_count_switchover; simpl.

(** Closes goals about [resolved_count] from the two trace facts of the
    invariant. *)
Ltac trace_facts Hres Hunb :=
  trace_simpl;
  repeat (case_bool_decide; try subst; try lia; try congruence);
  repeat match goal with
  | |- context [resolved_count ?x ?t] =>
      first [ rewrite (Hunb x) by lia
            | match goal with H : resolved_count x t = _ |- _ => rewrite H end ]
  end;
  try match goal with
  | |- context [resolved_count ?x ?t] =>
      generalize (Hres x); generalize (resolved_count x t); intros
  end;
  simpl; try lia.

Ltac solve_ok Hres Hunb :=
  unfold cp_ok; simpl; repeat split; auto; try lia; try (trace_facts Hres Hunb).

Ltac solve_trace Hres Hunb :=
  intros; simpl; trace_facts Hres Hunb.

Ltac solve_idle Hres Hunb :=
  eapply shape_idle; [reflexivity | reflexivity | simpl; auto; try lia ..];
  try solve_ok Hres Hunb.

Ltac solve_busy Hres Hunb :=
  eapply shape_busy;
    [reflexivity |
    |first [ reflexivity
           | rewrite <- !insert_empty;
             rewrite insert_insert_ne by (first [congruence | lia]);
             reflexivity ]
    | simpl; auto; try lia ..];
  try solve_ok Hres Hunb; try congruence; try lia.

Ltac solve_inv Hres Hunb :=
  constructor; simpl; try done;
  first [ solve_idle Hres Hunb | solve_busy Hres Hunb
        | by rewrite length_insert
        | solve_trace Hres Hunb ].

Ltac solve_grow :=
  simpl; rewrite <- ?app_assoc;
  first [ eexists; reflexivity | exists []; by rewrite app_nil_r ].

Ltac solve_keep Hres Hunb :=
  let Hl := fresh "Hl" in
  let Hw := fresh "Hw" in
  simpl; intros ? ? Hl Hw;
  first
    [ apply lookup_singleton_Some in Hl as [-> <-]
    | apply lookup_insert_Some in Hl
        as [[-> <-]|[? [-> <-]%lookup_singleton_Some]] ];
  simpl in Hw; try discriminate; subst;
  first
    [ left; eexists; split; [run; reflexivity | by simpl]
    | right; split; [by run | simpl; trace_facts Hres Hunb] ].

Ltac solve_dead :=
  let Hn := fresh "Hn" in
  simpl; intros ? ? Hn;
  first
    [ apply lookup_singleton_None in Hn
    | apply lookup_insert_None in Hn as [?%lookup_singleton_None ?] ];
  by run.

Ltac finish Hres Hunb :=
  first
    [ by intros [=]
    | first [ intros [= <- <-] | intros [= <-] ];
      constructor;
      [ solve_inv Hres Hunb | solve_grow | simpl; lia | simpl; lia
      | solve_keep Hres Hunb | solve_dead ] ].

Ltac unfold_calls :=
  unfold trigger_cp_flush, trigger_critical, switchover_locked, new_CP,
    CPGuard_ctor, CPGuard_dtor, CPGuard_get, cp_io_enter, cp_io_exit,
    cp_start_flush, cp_ref, fresh_promise, get_cp, upd_cp, dbg_assert.

Lemma dbg_assert_true : dbg_assert true = Ok ().
Proof. unfold dbg_assert. by destruct NDEBUG. Qed.

(** Evaluation of calls whose debug assertions hold. *)
Ltac unfold_calls' :=
  unfold trigger_cp_flush, trigger_critical, switchover_locked, new_CP,
    CPGuard_ctor, CPGuard_dtor, CPGuard_get, cp_io_enter, cp_io_exit,
    cp_start_flush, cp_ref, fresh_promise, get_cp, upd_cp.

Ltac eval_asserts :=
  repeat match goal with
  | |- context [dbg_assert ?b] =>
      let b' := eval cbv in b in progress change (dbg_assert b) with (dbg_assert b')
  end.

Ltac run' :=
  repeat (simpl; heap_simpl; eval_asserts;
          rewrite ?andb_false_r, ?andb_true_r, ?dbg_assert_true).

Ltac split_zero_tests :=
  repeat match goal with
  | |- context [(?a =? 0)] =>
      let E := fresh "E" in destruct (Z.eqb_spec a 0) as [E|E]; [try lia|]; run
  end.

(** *** Every call keeps the invariant *)

Lemma register_consumer_post idx cb m m' :
  cp_inv m -> register_consumer idx cb m = Ok m' -> step_post m m'.
Proof.
  intros Hinv. open_inv Hinv m;
    unfold register_consumer, get_cp, upd_cp; destruct cb as [cb|]; run;
    finish Hres Hunb.
Qed.

Lemma cp_ref_post p m m' :
  cp_inv m -> cp_ref p m = Ok m' -> step_post m m'.
Proof.
  intros Hinv. open_inv Hinv m; unfold cp_ref, get_cp, upd_cp, dbg_assert.
  - destruct (decide (p = c)) as [->|Hp]; destruct NDEBUG; run; finish Hres Hunb.
  - destruct Hfst as [->| ->];
      (destruct (decide (p = c)) as [->|Hp]; [|destruct (decide (p = f)) as [->|Hp']]);
      destruct NDEBUG; run; finish Hres Hunb.
Qed.

Lemma cp_io_enter_post o m m' :
  cp_inv m -> cp_io_enter m = Ok (o, m') -> step_post m m'.
Proof.
  unfold cp_io_enter. intros Hinv Hm.
  destruct (m_cur_cp m) as [p|] eqn:Hcur.
  - destruct (dbg_assert _); [|done]. simpl in Hm.
    destruct (cp_ref p m) as [m1|] eqn:Hr; [|done].
    injection Hm as _ <-. by eapply cp_ref_post.
  - destruct Hinv as [_ _ _ _ [c cp Hc|c f cp fcp Hc] _ _ _]; congruence.
Qed.

Lemma cp_io_exit_post p cp0 m m' :
  cp_inv m -> m_heap m !! p = Some cp0 -> 0 < m_enter_cnt cp0 ->
  cp_io_exit p m = Ok m' -> step_post m m'.
Proof.
  intros Hinv. open_inv Hinv m;
    unfold cp_io_exit, cp_start_flush, get_cp, upd_cp, dbg_assert.
  - intros [-> <-]%lookup_singleton_Some; simpl; intros Hpos.
    destruct NDEBUG; run; finish Hres Hunb.
  - destruct Hfst as [->| ->];
      (intros [[-> <-]|[Hp [-> <-]%lookup_singleton_Some]]%lookup_insert_Some;
       simpl; intros Hpos);
      destruct NDEBUG; run; split_zero_tests; finish Hres Hunb.
Qed.

Lemma trigger_cp_flush_post force fut m m' :
  cp_inv m -> trigger_cp_flush force m = Ok (fut, m') -> step_post m m'.
Proof.
  intros Hinv. open_inv Hinv m; unfold_calls.
  - destruct fl, force, NDEBUG, w; run; split_zero_tests; finish Hres Hunb.
  - destruct force, NDEBUG, w; run; split_zero_tests; finish Hres Hunb.
Qed.

Lemma shutdown_trigger_post fut m m' :
  cp_inv m -> shutdown_trigger m = Ok (fut, m') -> step_post m m'.
Proof.
  unfold shutdown_trigger. intros Hinv Hm.
  assert (Hinv0 : cp_inv (set_shutdown_initiated true m)).
  { destruct m; destruct Hinv as [? ? ? ? Hs ? ? ?]; constructor; simpl in *; try done.
    destruct Hs as [c cp ? ? ? ? ?|c f cp fcp ? ? ? ? ? ? ? ? ? ? ?];
      [eapply shape_idle|eapply shape_busy]; simpl in *; eauto. }
  destruct (trigger_cp_flush_post _ _ _ _ Hinv0 Hm) as [H1 H2 H3 H4 H5 H6].
  destruct m; simpl in *. by constructor.
Qed.

Lemma on_cp_flush_done_post p cp0 now m m' :
  cp_inv m -> m_heap m !! p = Some cp0 -> m_cp_status cp0 = cp_flushing ->
  on_cp_flush_done p now m = Ok m' -> step_post m m'.
Proof.
  intros Hinv. open_inv Hinv m.
  - intros [-> <-]%lookup_singleton_Some; simpl; done.
  - intros [[-> <-]|[Hp [-> <-]%lookup_singleton_Some]]%lookup_insert_Some;
      simpl; [intros ->|done].
    unfold on_cp_flush_done, cleanup_cp, sb_write, reset_cp, set_cp; unfold_calls.
    destruct NDEBUG, sd, w; run; split_zero_tests; finish Hres Hunb.
Qed.

Lemma cp_step_post m m' : cp_inv m -> cp_step m m' -> step_post m m'.
Proof.
  intros Hinv Hs. destruct Hs.
  - by eapply register_consumer_post.
  - by eapply cp_io_enter_post.
  - by eapply cp_ref_post.
  - by eapply cp_io_exit_post.
  - by eapply trigger_cp_flush_post.
  - by eapply on_cp_flush_done_post.
  - by eapply shutdown_trigger_post.
Qed.

Lemma steps_inv m m' : cp_inv m -> rtc cp_step m m' -> cp_inv m'.
Proof.
  intros Hinv Hs. induction Hs as [|m1 m2 m3 H12 _ IH]; [done|].
  apply IH. by apply (post_inv _ _ (cp_step_post _ _ Hinv H12)).
Qed.

Lemma reachable_inv m : reachable m -> cp_inv m.
Proof.
  intros (m0 & Hb & Hs). eapply steps_inv; [|done]. by apply booted_inv.
Qed.

(** *** Leaving a checkpoint that is prepared for flush *)




(** *** The switch-over *)

Lemma switchover_loop_spec tbl k old new ctxs :
  (k + length tbl <= length ctxs)%nat ->
  length (switchover_loop tbl k old new ctxs).1 = length ctxs /\
  (forall i, (i < k)%nat -> (switchover_loop tbl k old new ctxs).1 !! i = ctxs !! i) /\
  (forall i cb, tbl !! i = Some (Some cb) ->
     (switchover_loop tbl k old new ctxs).1 !! (k + i)%nat
     = Some (Some (on_switchover_cp cb (Some old) new))) /\
  (forall i, tbl !! i = Some None ->
     (switchover_loop tbl k old new ctxs).1 !! (k + i)%nat = ctxs !! (k + i)%nat) /\
  (forall e, e ∈ (switchover_loop tbl k old new ctxs).2 <->
     exists i cb, e = EvSwitchover (k + i) (Some old) new /\ tbl !! i = Some (Some cb)).
Proof.
  revert k ctxs; induction tbl as [|[cb|] tbl IH]; intros k ctxs Hlen; simpl in *.
  - split; [done|]. split; [done|]. split; [done|]. split; [done|].
    intros e. split; [by intros ?%elem_of_nil|]. by intros (i & cb & _ & ?).
  - specialize (IH (S k) (<[k:=Some (on_switchover_cp cb (Some old) new)]> ctxs)).
    rewrite length_insert in IH. specialize (IH ltac:(lia)).
    destruct (switchover_loop tbl (S k) old new _) as [c' e'] eqn:E; simpl in *.
    destruct IH as (IH1 & IH2 & IH3 & IH4 & IH5).
    split; [done|]. split.
    { intros i Hi. rewrite IH2 by lia. apply list_lookup_insert_ne. lia. }
    split.
    { intros [|i] cb' Hl; simpl in Hl.
      - injection Hl as <-. rewrite Nat.add_0_r, IH2 by lia.
        apply list_lookup_insert_eq. lia.
      - replace (k + S i)%nat with (S (k + i)) by lia. by apply IH3. }
    split.
    { intros [|i] Hl; simpl in Hl; [done|].
      replace (k + S i)%nat with (S (k + i)) by lia.
      rewrite IH4 by done. apply list_lookup_insert_ne. lia. }
    intros e. rewrite elem_of_cons, IH5. split.
    + intros [->|(i & cb' & -> & Hl)].
      * exists 0%nat, cb. by rewrite Nat.add_0_r.
      * exists (S i), cb'. split; [f_equal; lia|done].
    + intros ([|i] & cb' & -> & Hl); simpl in Hl.
      * left. by rewrite Nat.add_0_r.
      * right. exists i, cb'. split; [f_equal; lia|done].
  - specialize (IH (S k) ctxs ltac:(lia)).
    destruct IH as (IH1 & IH2 & IH3 & IH4 & IH5).
    split; [done|]. split; [intros i Hi; apply IH2; lia|]. split.
    { intros [|i] cb' Hl; simpl in Hl; [done|].
      replace (k + S i)%nat with (S (k + i)) by lia. by apply IH3. }
    split.
    { intros [|i] Hl; simpl in Hl.
      - rewrite Nat.add_0_r. apply IH2. lia.
      - replace (k + S i)%nat with (S (k + i)) by lia. by apply IH4. }
    intros e. rewrite IH5. split.
    + intros (i & cb' & -> & Hl). exists (S i), cb'. split; [f_equal; lia|done].
    + intros ([|i] & cb' & -> & Hl); simpl in Hl; [done|].
      exists i, cb'. split; [f_equal; lia|done].
Qed.

(** C4. A call of [trigger_cp_flush] that finds no flush in progress goes
    through the critical section, and at its end: a new checkpoint exists
    whose id is the current one's plus one; [on_switchover_cp(old, new)] was
    called on every registered consumer, and on nothing else, and what it
    returned is the new checkpoint's context for that consumer; the old
    checkpoint is in [cp_flush_prepare], the new one in [cp_io_ready], and
    the new one is current. The call then only drops its own reference. *)
Theorem trigger_cp_flush_switchover (force : bool) (m : CPManager) :
  reachable m ->
  m_in_flush_phase m = false ->
  exists cur cur_cp new fut g mc new_cp old_cp,
    m_cur_cp m = Some cur /\ m_heap m !! cur = Some cur_cp /\
    m_heap m !! new = None /\
    trigger_critical m = Ok (fut, g, mc) /\
    trigger_cp_flush force m = (m5 ← CPGuard_dtor g mc; Ok (fut, m5)) /\
    is_Ok (trigger_cp_flush force m) /\
    m_heap mc !! new = Some new_cp /\
    m_heap mc !! cur = Some old_cp /\
    m_cp_id new_cp = m_cp_id cur_cp + 1 /\
    m_cp_status old_cp = cp_flush_prepare /\
    m_cp_status new_cp = cp_io_ready /\
    m_cur_cp mc = Some new /\
    m_in_flush_phase mc = true /\
    (forall idx cb, m_cp_cb_table m !! idx = Some (Some cb) ->
       m_contexts new_cp !! idx = Some (Some (on_switchover_cp cb (Some cur) new)) /\
       EvSwitchover idx (Some cur) new ∈ drop (length (m_trace m)) (m_trace mc)) /\
    (forall idx, m_cp_cb_table m !! idx = Some None ->
       m_contexts new_cp !! idx = Some None) /\
    (forall e, e ∈ drop (length (m_trace m)) (m_trace mc) ->
       exists idx cb, e = EvSwitchover idx (Some cur) new /\
                      m_cp_cb_table m !! idx = Some (Some cb)) /\
    take (length (m_trace m)) (m_trace mc) = m_trace m.
Proof.
  intros Hinv%reachable_inv Hflag. revert Hflag.
  open_inv Hinv m; simpl; [intros ->|done].
  pose proof (switchover_loop_spec tbl 0 c na (replicate SENTINEL None)) as Hsw.
  rewrite length_replicate in Hsw. specialize (Hsw ltac:(lia)).
  destruct Hsw as (Hs1 & _ & Hs3 & Hs4 & Hs5).
  set (M := mk_mgr _ _ _ _ _ _ _ _ _ _ _ _).
  assert (exists fut mc new_cp old_cp,
    trigger_critical M = Ok (fut, mk_guard (Some c) true, mc) /\
    m_heap mc !! na = Some new_cp /\ m_heap mc !! c = Some old_cp /\
    m_cp_id new_cp = m_last_flushed_cp sb + 1 + 1 /\
    m_cp_status old_cp = cp_flush_prepare /\ m_cp_status new_cp = cp_io_ready /\
    m_cur_cp mc = Some na /\ m_in_flush_phase mc = true /\
    m_contexts new_cp = (switchover_loop tbl 0 c na (replicate SENTINEL None)).1 /\
    m_trace mc = tr ++ (switchover_loop tbl 0 c na (replicate SENTINEL None)).2)
    as (fut & mc & new_cp & old_cp & Hcrit & Hn & Ho & Hnid & Hos & Hns & Hcur & Hfl
        & Hctx & Htr).
  { subst M. unfold_calls. destruct NDEBUG, w; run;
      eexists _, _, _, _; (split; [reflexivity|]); run; done. }
  exists c, (mk_cp cp_io_ready n q w (m_last_flushed_cp sb + 1) ctx), na, fut,
    (mk_guard (Some c) true), mc, new_cp, old_cp.
  assert (Heq : trigger_cp_flush force M
                = (m5 ← CPGuard_dtor (mk_guard (Some c) true) mc; Ok (fut, m5))).
  { unfold trigger_cp_flush. change (m_in_flush_phase M) with false.
    cbv iota. by rewrite Hcrit. }
  split; [done|]. split; [subst M; by run|]. split; [subst M; by run|].
  split; [done|]. split; [done|]. split.
  { rewrite Heq. clear Heq Hcrit. destruct mc; simpl in *.
    unfold CPGuard_dtor, cp_io_exit, get_cp, dbg_assert; simpl.
    destruct (bool_decide _); simpl; rewrite Ho; simpl; rewrite Hos; simpl;
      destruct NDEBUG; simpl; by destruct (_ =? 0). }
  split; [done|]. split; [done|]. split; [simpl; lia|]. split; [done|].
  split; [done|]. split; [done|]. split; [done|].
  subst M; simpl. rewrite Htr, Hctx, drop_app_length, take_app_length.
  split.
  { intros idx cb Hl; split; [by apply (Hs3 idx cb)|]. apply Hs5; by exists idx, cb. }
  split.
  { intros idx Hl. pose proof (Hs4 idx Hl) as Hs; simpl in Hs. rewrite Hs.
    apply lookup_replicate_2; apply lookup_lt_Some in Hl; lia. }
  split; [|done].
  intros e (idx & cb & -> & Hl)%Hs5; by exists idx, cb.
Qed.

(** *** Interleaved runs *)

(** The calls above are written as they run when nothing else runs between
    their first line and their last. Threads interleave at a finer grain.
    [trigger_cp_flush] wins the compare-and-exchange on [m_in_flush_phase],
    takes its guard, stores [cp_trigger], allocates the new checkpoint and
    only then locks [trigger_cp_mtx]; under the lock it stores
    [cp_flush_prepare] before it swaps [m_cur_cp]. A forced call that lost
    the compare-and-exchange does its work under the same lock.
    [on_cp_flush_done] stores [cp_flush_done] and hands the rest to another
    fiber. The definitions below are these sections, one by one; each whole
    call is shown to be their composition. *)

(** The compare-and-exchange of [trigger_cp_flush]: whether it won, and the
    flag afterwards. *)
Definition trigger_cas (m : CPManager) : bool * CPManager :=
  if m_in_flush_phase m then (false, m) else (true, set_in_flush_phase true m).

(** [cur_cp->m_cp_status = cp_status_t::cp_trigger]. *)
Definition trigger_mark (cur : cp_ptr) (m : CPManager) : result CPManager :=
  _ ← get_cp cur m;
  Ok (upd_cp cur (set_status cp_trigger) m).

(** The block that holds [trigger_cp_mtx], up to the two status stores. *)
Definition switchover_prepare (cur new : cp_ptr) (m : CPManager)
  : result (future * CPManager) :=
  cur_cp ← get_cp cur m;
  new_cp ← get_cp new m;
  let m1 := upd_cp new (set_cp_id (m_cp_id cur_cp + 1)) m in
  let r := switchover_loop (m_cp_cb_table m1) 0 cur new (m_contexts new_cp) in
  let m2 := emit r.2 (upd_cp new (set_contexts r.1) m1) in
  let '(ret_fut, m3) :=
    if m_cp_waiting_to_trigger cur_cp then (Ready true, m2)
    else (FromPromise (m_next_promise m2), fresh_promise cur m2) in
  let m4 := upd_cp cur (set_status cp_flush_prepare) m3 in
  let m5 := upd_cp new (set_status cp_io_ready) m4 in
  Ok (ret_fut, m5).

(** [rcu_xchg_pointer(&m_cur_cp, new_cp)]. *)
Definition switchover_swap (new : cp_ptr) (m : CPManager) : CPManager :=
  set_cur_cp (Some new) m.

(** The forced branch of [trigger_cp_flush] between the constructor and the
    destructor of its guard; it runs under [trigger_cp_mtx]. *)
Definition force_attach (cur : cp_ptr) (m : CPManager) : result (future * CPManager) :=
  cp ← get_cp cur m;
  _ ← dbg_assert (negb (status_eqb (m_cp_status cp) cp_flush_prepare));
  let m2 := if m_cp_waiting_to_trigger cp then m
            else upd_cp cur (set_waiting true) (fresh_promise cur m) in
  cp2 ← get_cp cur m2;
  Ok (FromPromise (m_comp_promise cp2), m2).

(** [on_cp_flush_done] before it hands over to the blocking fiber. *)
Definition flush_done_mark (p : cp_ptr) (m : CPManager) : result CPManager :=
  cp ← get_cp p m;
  _ ← dbg_assert (status_eqb (m_cp_status cp) cp_flushing);
  Ok (upd_cp p (set_status cp_flush_done) m).

(** On the fiber: the super block is advanced and written, and the
    consumers clean up. *)
Definition flush_done_persist (p : cp_ptr) (m : CPManager) : CPManager :=
  let sb := m_sb m in
  cleanup_cp p
    (sb_write (set_sb (mk_sb (magic sb) (version sb) (m_last_flushed_cp sb + 1)) m)).

(** On the fiber: the promise is moved out of the checkpoint, the watchdog
    forgets the checkpoint, the checkpoint is deleted and the promise is
    fulfilled. Nothing else holds the checkpoint by then. *)
Definition flush_done_resolve (p : cp_ptr) (m : CPManager) : result CPManager :=
  cp ← get_cp p m;
  let m5 := set_wd (reset_cp (m_wd_cp m)) m in
  let m6 := set_heap (delete p (m_heap m5)) m5 in
  Ok (emit [EvSetValue (m_comp_promise cp) true] m6).

(** On the fiber, when no shutdown was seen: [m_in_flush_phase = false]. *)
Definition flush_done_clear (m : CPManager) : CPManager :=
  emit [EvInFlushCleared] (set_in_flush_phase false m).

(** On the fiber, after the flag is cleared: the block that triggers a
    back-to-back checkpoint. *)
Definition flush_done_tail (now : Z) (m : CPManager) : result CPManager :=
  '(cur_cp, m9) ← CPGuard_ctor m;
  match g_cp cur_cp with
  | None => _ ← dbg_assert false; CPGuard_dtor cur_cp m9
  | Some cur =>
      let m10 := set_wd (set_cp cur now (m_wd_cp m9)) m9 in
      c ← get_cp cur m10;
      m11 ← (if m_cp_waiting_to_trigger c
             then '(_, m') ← trigger_cp_flush false m10; Ok m'
             else Ok m10);
      CPGuard_dtor cur_cp m11
  end.

(** Each whole call is the composition of its sections. *)
Lemma switchover_locked_sections cur new m :
  switchover_locked cur new m =
  ('(fut, m5) ← switchover_prepare cur new m; Ok (fut, switchover_swap new m5)).
Proof.
  unfold switchover_locked, switchover_prepare, switchover_swap.
  destruct (get_cp cur m) as [cur_cp|]; simpl; [|done].
  destruct (get_cp new m) as [new_cp|]; simpl; [|done].
  by destruct (m_cp_waiting_to_trigger cur_cp).
Qed.

Lemma trigger_critical_sections m :
  trigger_critical m =
  ('(cur_cp, m1) ← CPGuard_ctor (set_in_flush_phase true m);
   cur ← CPGuard_get cur_cp;
   m2 ← trigger_mark cur m1;
   '(fut, m4) ← switchover_prepare cur (new_CP m2).1 (new_CP m2).2;
   Ok (fut, cur_cp, switchover_swap (new_CP m2).1 m4)).
Proof.
  unfold trigger_critical, trigger_mark.
  destruct (CPGuard_ctor _) as [[g m1]|]; simpl; [|done].
  destruct (CPGuard_get g) as [cur|]; simpl; [|done].
  destruct (get_cp cur m1) as [cp|]; simpl; [|done].
  rewrite switchover_locked_sections.
  by destruct (switchover_prepare cur _ _) as [[fut m4]|].
Qed.

Lemma trigger_cp_flush_sections force m :
  trigger_cp_flush force m =
  if (trigger_cas m).1 then
    '(ret_fut, cur_cp, m4) ← trigger_critical m;
    m5 ← CPGuard_dtor cur_cp m4;
    Ok (ret_fut, m5)
  else if force then
    '(cur_cp, m1) ← CPGuard_ctor m;
    cur ← CPGuard_get cur_cp;
    '(fut, m2) ← force_attach cur m1;
    m3 ← CPGuard_dtor cur_cp m2;
    Ok (fut, m3)
  else Ok (Ready false, m).
Proof.
  unfold trigger_cp_flush, trigger_cas, force_attach.
  destruct (m_in_flush_phase m); simpl; [|done].
  destruct force; [|done].
  destruct (CPGuard_ctor m) as [[g m1]|]; simpl; [|done].
  destruct (CPGuard_get g) as [cur|]; simpl; [|done].
  destruct (get_cp cur m1) as [cp|]; simpl; [|done].
  destruct (dbg_assert _); simpl; [|done].
  by destruct (get_cp cur _) as [cp2|].
Qed.

Lemma on_cp_flush_done_sections p now m :
  on_cp_flush_done p now m =
  (m1 ← flush_done_mark p m;
   m7 ← flush_done_resolve p (flush_done_persist p m1);
   if m_cp_shutdown_initiated m then Ok m7
   else flush_done_tail now (flush_done_clear m7)).
Proof.
  unfold on_cp_flush_done, flush_done_mark.
  destruct (get_cp p m) as [cp|] eqn:Hp; simpl; [|done].
  destruct (dbg_assert (status_eqb (m_cp_status cp) cp_flushing)); simpl; [|done].
  unfold flush_done_resolve, flush_done_persist, flush_done_clear, flush_done_tail,
    cleanup_cp, sb_write, get_cp, upd_cp in *.
  destruct m as [h na np cur fl sd tbl sb d st wd tr]; simpl in *.
  destruct (h !! p) as [cp0|] eqn:Hp0; [|done]. injection Hp as ->.
  rewrite !lookup_alter_eq, Hp0. simpl.
  destruct cp; simpl. by destruct sd.
Qed.

(** One step of an interleaved run: one of the sections, taken by any
    thread. The pointers a thread holds in its local variables are not
    tracked: a section may be taken on any checkpoint, and [t_cp_stack],
    which is thread-local, changes to any other stack when another thread
    runs; an entry that read [m_cur_cp] before the swap and counts after
    it is a [fine_ref]. So every interleaving of the source is a run of
    [fine_step], and what holds for all runs of [fine_step] holds for the
    source under every interleaving. The preconditions are those of
    [cp_step], and like the runs of [cp_step] these end where [shutdown]
    returns from its wait: what [shutdown] deletes after that is not part
    of them. *)
Inductive fine_step : CPManager -> CPManager -> Prop :=
  | fine_register idx cb m m' :
      register_consumer idx cb m = Ok m' -> fine_step m m'
  | fine_enter m o m' :
      cp_io_enter m = Ok (o, m') -> fine_step m m'
  | fine_ref p m m' :
      cp_ref p m = Ok m' -> fine_step m m'
  | fine_exit p cp m m' :
      m_heap m !! p = Some cp -> 0 < m_enter_cnt cp ->
      cp_io_exit p m = Ok m' -> fine_step m m'
  | fine_stack stk m :
      fine_step m (set_stack stk m)
  | fine_cas m m' :
      trigger_cas m = (true, m') -> fine_step m m'
  | fine_mark cur m m' :
      trigger_mark cur m = Ok m' -> fine_step m m'
  | fine_new m :
      fine_step m (new_CP m).2
  | fine_prepare cur new fut m m' :
      switchover_prepare cur new m = Ok (fut, m') -> fine_step m m'
  | fine_swap new m :
      fine_step m (switchover_swap new m)
  | fine_attach cur fut m m' :
      force_attach cur m = Ok (fut, m') -> fine_step m m'
  | fine_done_mark p cp m m' :
      m_heap m !! p = Some cp -> m_cp_status cp = cp_flushing ->
      flush_done_mark p m = Ok m' -> fine_step m m'
  | fine_done_persist p cp m :
      m_heap m !! p = Some cp -> m_cp_status cp = cp_flush_done ->
      fine_step m (flush_done_persist p m)
  | fine_done_resolve p cp m m' :
      m_heap m !! p = Some cp -> m_cp_status cp = cp_cleaning ->
      flush_done_resolve p m = Ok m' -> fine_step m m'
  | fine_done_clear m :
      fine_step m (flush_done_clear m)
  | fine_wd w m :
      fine_step m (set_wd w m)
  | fine_shutdown m :
      fine_step m (set_shutdown_initiated true m).

Definition fine_reachable (m : CPManager) : Prop :=
  exists m0, booted m0 /\ rtc fine_step m0 m.

(** What holds of the checkpoints and their promises under every
    interleaving: addresses and promises were handed out by the manager,
    live checkpoints own pairwise distinct promises that are not fulfilled
    yet, no promise is fulfilled twice, and no more threads left a
    checkpoint than entered it. *)
Record fine_inv (m : CPManager) : Prop := mk_fine_inv {
  fi_addr : forall p cp, m_heap m !! p = Some cp -> (p < m_next_addr m)%nat;
  fi_born : forall p cp,
      m_heap m !! p = Some cp -> (m_comp_promise cp < m_next_promise m)%nat;
  fi_pending : forall p cp,
      m_heap m !! p = Some cp ->
      resolved_count (m_comp_promise cp) (m_trace m) = 0%nat;
  fi_distinct : forall p1 p2 cp1 cp2,
      m_heap m !! p1 = Some cp1 -> m_heap m !! p2 = Some cp2 ->
      m_comp_promise cp1 = m_comp_promise cp2 -> p1 = p2;
  fi_unborn : forall q,
      (m_next_promise m <= q)%nat -> resolved_count q (m_trace m) = 0%nat;
  fi_once : forall q, (resolved_count q (m_trace m) <= 1)%nat;
  fi_count : forall p cp, m_heap m !! p = Some cp -> 0 <= m_enter_cnt cp
}.


(** A section that allocates nothing, fulfils nothing, destroys nothing and
    leaves every promise where it is. *)
Record keeps (m m' : CPManager) : Prop := mk_keeps {
  k_addr : m_next_addr m' = m_next_addr m;
  k_next : m_next_promise m' = m_next_promise m;
  k_trace : forall q,
      resolved_count q (m_trace m') = resolved_count q (m_trace m);
  k_none : forall p, m_heap m !! p = None -> m_heap m' !! p = None;
  k_some : forall p cp,
      m_heap m !! p = Some cp ->
      exists cp',
        m_heap m' !! p = Some cp' /\
        m_comp_promise cp' = m_comp_promise cp /\
        (m_cp_waiting_to_trigger cp = true -> m_cp_waiting_to_trigger cp' = true) /\
        (0 <= m_enter_cnt cp -> 0 <= m_enter_cnt cp')
}.

Lemma keeps_refl m : keeps m m.
Proof. constructor; try done. intros p cp Hp. by exists cp. Qed.

Lemma keeps_trans m1 m2 m3 : keeps m1 m2 -> keeps m2 m3 -> keeps m1 m3.
Proof.
  intros [A1 A2 A3 A4 A5] [B1 B2 B3 B4 B5]. constructor.
  - congruence.
  - congruence.
  - intros q. by rewrite B3.
  - intros p Hp. by apply B4, A4.
  - intros p cp Hp. destruct (A5 p cp Hp) as (cp2 & Hp2 & Hq2 & Hw2 & Hn2).
    destruct (B5 p cp2 Hp2) as (cp3 & Hp3 & Hq3 & Hw3 & Hn3).
    exists cp3. split; [done|]. split; [congruence|]. split; auto.
Qed.

Lemma keeps_fine_inv m m' : fine_inv m -> keeps m m' -> fine_inv m'.
Proof.
  intros [I1 I2 I3 I4 I5 I6 I7] [K1 K2 K3 K4 K5].
  assert (Hback : forall p cp', m_heap m' !! p = Some cp' ->
            exists cp, m_heap m !! p = Some cp /\
                       m_comp_promise cp' = m_comp_promise cp /\
                       (0 <= m_enter_cnt cp -> 0 <= m_enter_cnt cp')).
  { intros p cp' Hp'. destruct (m_heap m !! p) as [cp|] eqn:Hp.
    - destruct (K5 p cp Hp) as (cp2 & Hp2 & Hq2 & _ & Hn2).
      assert (cp2 = cp') as -> by congruence. by exists cp.
    - rewrite (K4 p Hp) in Hp'. done. }
  constructor.
  - intros p cp' (cp & Hp & _)%Hback. rewrite K1. by eapply I1.
  - intros p cp' (cp & Hp & -> & _)%Hback. rewrite K2. by eapply I2.
  - intros p cp' (cp & Hp & -> & _)%Hback. rewrite K3. by eapply I3.
  - intros p1 p2 cp1 cp2 (c1 & H1 & -> & _)%Hback (c2 & H2 & -> & _)%Hback.
    by eapply I4.
  - intros q Hq. rewrite K3. apply I5. lia.
  - intros q. rewrite K3. apply I6.
  - intros p cp' (cp & Hp & _ & Hn)%Hback. apply Hn. by eapply I7.
Qed.


(** The assignments that keep. *)
Lemma keeps_upd p f m :
  (forall c, m_heap m !! p = Some c ->
             m_comp_promise (f c) = m_comp_promise c /\
             (m_cp_waiting_to_trigger c = true -> m_cp_waiting_to_trigger (f c) = true) /\
             (0 <= m_enter_cnt c -> 0 <= m_enter_cnt (f c))) ->
  keeps m (upd_cp p f m).
Proof.
  intros Hf. destruct m as [h na np cur fl sd tbl sb d st wd tr].
  constructor; simpl in *; try done.
  - intros p0 Hp0. by apply lookup_alter_None.
  - intros p0 cp Hp0. destruct (decide (p0 = p)) as [->|Hne].
    + rewrite lookup_alter_eq, Hp0. simpl. eexists. split; [done|]. by apply Hf.
    + rewrite lookup_alter_ne by done. by exists cp.
Qed.

Lemma keeps_emit es m :
  (forall q, resolved_count q es = 0%nat) -> keeps m (emit es m).
Proof.
  intros He. destruct m as [h na np cur fl sd tbl sb d st wd tr].
  constructor; simpl; try done.
  - intros q. rewrite resolved_count_app, He. lia.
  - intros p cp Hp. by exists cp.
Qed.

Ltac keeps_field :=
  match goal with
  | |- keeps ?m _ =>
      destruct m; constructor; simpl; try done;
      let p := fresh "p" in let cp := fresh "cp" in let Hp := fresh "Hp" in
      intros p cp Hp; by exists cp
  end.

Lemma keeps_set_stack x m : keeps m (set_stack x m).
Proof. keeps_field. Qed.
Lemma keeps_set_in_flush_phase x m : keeps m (set_in_flush_phase x m).
Proof. keeps_field. Qed.
Lemma keeps_set_shutdown_initiated x m : keeps m (set_shutdown_initiated x m).
Proof. keeps_field. Qed.
Lemma keeps_set_cb_table x m : keeps m (set_cb_table x m).
Proof. keeps_field. Qed.
Lemma keeps_set_sb x m : keeps m (set_sb x m).
Proof. keeps_field. Qed.
Lemma keeps_set_disk_sb x m : keeps m (set_disk_sb x m).
Proof. keeps_field. Qed.
Lemma keeps_set_wd x m : keeps m (set_wd x m).
Proof. keeps_field. Qed.
Lemma keeps_set_cur_cp x m : keeps m (set_cur_cp x m).
Proof. keeps_field. Qed.

(** Closes [keeps m (f1 (f2 (... m)))] for a chain of such assignments. *)
Ltac keeps_chain :=
  repeat first
    [ apply keeps_refl
    | (eapply keeps_trans; [|first
         [ apply keeps_set_stack | apply keeps_set_in_flush_phase
         | apply keeps_set_shutdown_initiated | apply keeps_set_cb_table
         | apply keeps_set_sb | apply keeps_set_disk_sb | apply keeps_set_wd
         | apply keeps_set_cur_cp
         | apply keeps_emit; intros;
           first [ apply resolved_count_flush_calls
                 | apply resolved_count_cleanup_calls
                 | apply resolved_count_switchover
                 | reflexivity ]
         | apply keeps_upd; intros [? ? ? ? ? ?] _; simpl;
           repeat split; auto; lia ]]) ].

Lemma get_cp_Ok p m cp : get_cp p m = Ok cp -> m_heap m !! p = Some cp.
Proof. unfold get_cp. destruct (m_heap m !! p); [by intros [= ->]|done]. Qed.

(** The sections that keep. *)
Lemma register_consumer_keeps idx cb m m' :
  register_consumer idx cb m = Ok m' -> keeps m m'.
Proof.
  unfold register_consumer. destruct cb as [cb|].
  - destruct (m_cur_cp _) as [p|]; [|done].
    destruct (get_cp p _) as [cp|]; simpl; [|done].
    intros [= <-]. keeps_chain.
  - intros [= <-]. keeps_chain.
Qed.

Lemma cp_ref_keeps p m m' : cp_ref p m = Ok m' -> keeps m m'.
Proof.
  unfold cp_ref, get_cp. destruct (m_heap m !! p) as [cp|] eqn:Hp; simpl; [|done].
  destruct (dbg_assert _); simpl; [|done]. intros [= <-].
  apply keeps_upd. intros c Hc. assert (c = cp) as -> by congruence.
  destruct cp; simpl. repeat split; auto; lia.
Qed.

Lemma cp_io_enter_keeps o m m' : cp_io_enter m = Ok (o, m') -> keeps m m'.
Proof.
  unfold cp_io_enter. destruct (dbg_assert _); simpl; [|done].
  destruct (m_cur_cp m) as [p|].
  - destruct (cp_ref p m) as [m1|] eqn:Hr; simpl; [|done].
    intros [= _ <-]. by eapply cp_ref_keeps.
  - intros [= _ <-]. apply keeps_refl.
Qed.

Lemma cp_start_flush_keeps p m : keeps m (cp_start_flush p m).
Proof. unfold cp_start_flush. keeps_chain. Qed.

Lemma cp_io_exit_keeps p cp m m' :
  m_heap m !! p = Some cp -> 0 < m_enter_cnt cp ->
  cp_io_exit p m = Ok m' -> keeps m m'.
Proof.
  intros Hp Hpos. unfold cp_io_exit, get_cp. rewrite Hp. simpl.
  destruct (dbg_assert _); simpl; [|done].
  assert (Hk : keeps m (upd_cp p (set_enter_cnt (m_enter_cnt cp - 1)) m)).
  { apply keeps_upd. intros c Hc. assert (c = cp) as -> by congruence.
    destruct cp; simpl in *. repeat split; auto; lia. }
  destruct (_ && _); intros [= <-]; [|done].
  eapply keeps_trans; [exact Hk|apply cp_start_flush_keeps].
Qed.

Lemma trigger_cas_keeps b m m' : trigger_cas m = (b, m') -> keeps m m'.
Proof.
  unfold trigger_cas. destruct (m_in_flush_phase m); intros [= _ <-]; keeps_chain.
Qed.

Lemma trigger_mark_keeps cur m m' : trigger_mark cur m = Ok m' -> keeps m m'.
Proof.
  unfold trigger_mark. destruct (get_cp cur m); simpl; [|done].
  intros [= <-]. keeps_chain.
Qed.

Lemma switchover_swap_keeps new m : keeps m (switchover_swap new m).
Proof. unfold switchover_swap. keeps_chain. Qed.

Lemma flush_done_mark_keeps p m m' : flush_done_mark p m = Ok m' -> keeps m m'.
Proof.
  unfold flush_done_mark. destruct (get_cp p m); simpl; [|done].
  destruct (dbg_assert _); simpl; [|done]. intros [= <-]. keeps_chain.
Qed.

Lemma flush_done_persist_keeps p m : keeps m (flush_done_persist p m).
Proof. unfold flush_done_persist, cleanup_cp, sb_write. keeps_chain. Qed.

Lemma flush_done_clear_keeps m : keeps m (flush_done_clear m).
Proof. unfold flush_done_clear. keeps_chain. Qed.

(** The sections that allocate, replace a promise, or fulfil one. *)
Lemma new_CP_fine_inv m : fine_inv m -> fine_inv (new_CP m).2.
Proof.
  intros [I1 I2 I3 I4 I5 I6 I7].
  destruct m as [h na np cur fl sd tbl sb d st wd tr]. unfold new_CP; simpl in *.
  assert (Hna : h !! na = None).
  { destruct (h !! na) as [cp|] eqn:E; [|done]. apply I1 in E. lia. }
  constructor; simpl.
  - intros p cp [[<- <-]|[_ Hp]]%lookup_insert_Some; [lia|]. apply I1 in Hp. lia.
  - intros p cp [[<- <-]|[_ Hp]]%lookup_insert_Some; simpl; [lia|].
    apply I2 in Hp. lia.
  - intros p cp [[<- <-]|[_ Hp]]%lookup_insert_Some; simpl; [by apply I5|].
    by eapply I3.
  - intros p1 p2 cp1 cp2
      [[<- <-]|[_ H1]]%lookup_insert_Some [[<- <-]|[_ H2]]%lookup_insert_Some;
      simpl; try done.
    + intros E. apply I2 in H2. lia.
    + intros E. apply I2 in H1. lia.
    + by eapply I4.
  - intros q Hq. apply I5. lia.
  - done.
  - intros p cp [[<- <-]|[_ Hp]]%lookup_insert_Some; simpl; [lia|]. by eapply I7.
Qed.


Lemma fresh_promise_fine_inv cur m : fine_inv m -> fine_inv (fresh_promise cur m).
Proof.
  intros [I1 I2 I3 I4 I5 I6 I7].
  destruct m as [h na np c0 fl sd tbl sb d st wd tr].
  unfold fresh_promise, upd_cp; simpl in *.
  assert (Hlk : forall p cp', alter (set_promise np) cur h !! p = Some cp' ->
            exists cp, h !! p = Some cp /\ m_enter_cnt cp' = m_enter_cnt cp /\
              ((p = cur /\ m_comp_promise cp' = np) \/
               (p <> cur /\ m_comp_promise cp' = m_comp_promise cp))).
  { intros p cp'. destruct (decide (p = cur)) as [->|Hne].
    - rewrite lookup_alter_eq. destruct (h !! cur) as [cp|]; simpl; [|done].
      intros [= <-]. exists cp. destruct cp; simpl. split; [done|]. split; [done|].
      by left.
    - rewrite lookup_alter_ne by done. intros Hp. exists cp'. split; [done|].
      split; [done|]. by right. }
  constructor; simpl.
  - intros p cp' (cp & Hp & _)%Hlk. by eapply I1.
  - intros p cp' (cp & Hp & _ & [[_ ->]|[_ ->]])%Hlk; [lia|]. apply I2 in Hp. lia.
  - intros p cp' (cp & Hp & _ & [[_ ->]|[_ ->]])%Hlk; [by apply I5|by eapply I3].
  - intros p1 p2 cp1 cp2 (c1 & H1 & _ & [[-> E1]|[N1 E1]])%Hlk
      (c2 & H2 & _ & [[-> E2]|[N2 E2]])%Hlk; try done.
    + rewrite E1, E2. intros E. apply I2 in H2. lia.
    + rewrite E1, E2. intros E. apply I2 in H1. lia.
    + rewrite E1, E2. by eapply I4.
  - intros q Hq. apply I5. lia.
  - done.
  - intros p cp' (cp & Hp & -> & _)%Hlk. by eapply I7.
Qed.


Lemma switchover_prepare_fine_inv cur new fut m m' :
  fine_inv m -> switchover_prepare cur new m = Ok (fut, m') -> fine_inv m'.
Proof.
  intros Hinv. unfold switchover_prepare.
  destruct (get_cp cur m) as [cur_cp|]; simpl; [|done].
  destruct (get_cp new m) as [new_cp|]; simpl; [|done].
  set (m2 := emit _ _).
  assert (H2 : fine_inv m2).
  { eapply keeps_fine_inv; [exact Hinv|]. subst m2. keeps_chain. }
  destruct (m_cp_waiting_to_trigger cur_cp); intros [= _ <-].
  - eapply keeps_fine_inv; [exact H2|]. keeps_chain.
  - eapply keeps_fine_inv; [apply fresh_promise_fine_inv, H2|]. keeps_chain.
Qed.


Lemma force_attach_fine_inv cur fut m m' :
  fine_inv m -> force_attach cur m = Ok (fut, m') -> fine_inv m'.
Proof.
  intros Hinv. unfold force_attach.
  destruct (get_cp cur m) as [cp|]; simpl; [|done].
  destruct (dbg_assert _); simpl; [|done].
  destruct (m_cp_waiting_to_trigger cp).
  - destruct (get_cp cur m); simpl; [|done]. by intros [= _ <-].
  - destruct (get_cp cur _); simpl; [|done]. intros [= _ <-].
    eapply keeps_fine_inv; [apply fresh_promise_fine_inv, Hinv|]. keeps_chain.
Qed.


Lemma flush_done_resolve_fine_inv p m m' :
  fine_inv m -> flush_done_resolve p m = Ok m' -> fine_inv m'.
Proof.
  intros [I1 I2 I3 I4 I5 I6 I7]. unfold flush_done_resolve, get_cp.
  destruct (m_heap m !! p) as [cp|] eqn:Hp; simpl; [|done]. intros [= <-].
  destruct m as [h na np c0 fl sd tbl sb d st wd tr]; simpl in *.
  assert (Hcount : forall q', resolved_count q' (tr ++ [EvSetValue (m_comp_promise cp) true])
            = (resolved_count q' tr
               + if bool_decide (m_comp_promise cp = q') then 1 else 0)%nat).
  { intros q'. rewrite resolved_count_app. simpl. lia. }
  constructor; simpl.
  - intros p0 cp0 [_ H0]%lookup_delete_Some. by eapply I1.
  - intros p0 cp0 [_ H0]%lookup_delete_Some. by eapply I2.
  - intros p0 cp0 [Hne H0]%lookup_delete_Some. rewrite Hcount.
    rewrite (I3 _ _ H0). case_bool_decide as E; [|done].
    exfalso. apply Hne. symmetry. by eapply I4.
  - intros p1 p2 cp1 cp2 [_ H1]%lookup_delete_Some [_ H2]%lookup_delete_Some.
    by eapply I4.
  - intros q' Hq. rewrite Hcount, (I5 q' Hq). case_bool_decide as E; [|done].
    apply I2 in Hp. lia.
  - intros q'. rewrite Hcount. case_bool_decide as E; [|by rewrite Nat.add_0_r].
    subst q'. rewrite (I3 _ _ Hp). lia.
  - intros p0 cp0 [_ H0]%lookup_delete_Some. by eapply I7.
Qed.


(** Every step keeps the invariant, and keeps [p] and [q] together. *)
Lemma fine_step_inv m m' : fine_inv m -> fine_step m m' -> fine_inv m'.
Proof.
  intros Hinv Hs. destruct Hs.
  - eapply keeps_fine_inv; [done|]. by eapply register_consumer_keeps.
  - eapply keeps_fine_inv; [done|]. by eapply cp_io_enter_keeps.
  - eapply keeps_fine_inv; [done|]. by eapply cp_ref_keeps.
  - eapply keeps_fine_inv; [done|]. by eapply cp_io_exit_keeps.
  - eapply keeps_fine_inv; [done|]. apply keeps_set_stack.
  - eapply keeps_fine_inv; [done|]. by eapply trigger_cas_keeps.
  - eapply keeps_fine_inv; [done|]. by eapply trigger_mark_keeps.
  - by apply new_CP_fine_inv.
  - by eapply switchover_prepare_fine_inv.
  - eapply keeps_fine_inv; [done|]. apply switchover_swap_keeps.
  - by eapply force_attach_fine_inv.
  - eapply keeps_fine_inv; [done|]. by eapply flush_done_mark_keeps.
  - eapply keeps_fine_inv; [done|]. apply flush_done_persist_keeps.
  - by eapply flush_done_resolve_fine_inv.
  - eapply keeps_fine_inv; [done|]. apply flush_done_clear_keeps.
  - eapply keeps_fine_inv; [done|]. apply keeps_set_wd.
  - eapply keeps_fine_inv; [done|]. apply keeps_set_shutdown_initiated.
Qed.

Lemma fine_steps_inv m m' : fine_inv m -> rtc fine_step m m' -> fine_inv m'.
Proof.
  intros Hinv Hs. induction Hs as [|m1 m2 m3 H12 _ IH]; [done|].
  apply IH. by eapply fine_step_inv.
Qed.



(** The invariant of the runs of whole calls gives the one of the
    interleaved runs, so it holds at boot. *)
Lemma cp_inv_fine_inv m : cp_inv m -> fine_inv m.
Proof.
  intros Hinv. pose proof (inv_resolved _ Hinv) as Hres.
  pose proof (inv_unborn _ Hinv) as Hunb.
  assert (Hok : forall p cp, m_heap m !! p = Some cp -> cp_ok m p cp).
  { destruct Hinv as [_ _ _ _ [c cp Hc Hh|c f cp fcp Hc Hne Hh] _ _ _];
      rewrite Hh; intros p cp0.
    - by intros [<- <-]%lookup_singleton_Some.
    - by intros [[<- <-]|[_ [<- <-]%lookup_singleton_Some]]%lookup_insert_Some. }
  constructor; try done.
  - intros p cp Hp. by destruct (Hok p cp Hp).
  - intros p cp Hp. by destruct (Hok p cp Hp) as (_ & ? & _).
  - intros p cp Hp. by destruct (Hok p cp Hp) as (_ & _ & ? & _).
  - destruct Hinv as [_ _ _ _ [c cp Hc Hh|c f cp fcp Hc Hne Hh ? ? ? ? ? Hpq] _ _ _];
      rewrite Hh; intros p1 p2 cp1 cp2.
    + by intros [<- <-]%lookup_singleton_Some [<- <-]%lookup_singleton_Some.
    + intros [[<- <-]|[_ [<- <-]%lookup_singleton_Some]]%lookup_insert_Some
        [[<- <-]|[_ [<- <-]%lookup_singleton_Some]]%lookup_insert_Some; congruence.
  - intros p cp Hp. by destruct (Hok p cp Hp) as (_ & _ & _ & ?).
Qed.

Lemma fine_reachable_inv m : fine_reachable m -> fine_inv m.
Proof.
  intros (m0 & Hb & Hs). eapply fine_steps_inv; [|done].
  by apply cp_inv_fine_inv, booted_inv.
Qed.

(** *** Whole calls are interleaved runs *)

(** Entry counts across a run of sections: the count of [p] moved by [k],
    every other count is what it was, and no checkpoint was destroyed. *)
Definition counts_shift (p : cp_ptr) (k : Z) (m m' : CPManager) : Prop :=
  forall p0 cp, m_heap m !! p0 = Some cp ->
    exists cp', m_heap m' !! p0 = Some cp' /\
      m_enter_cnt cp' = m_enter_cnt cp + (if decide (p0 = p) then k else 0).

Lemma counts_shift_refl p m : counts_shift p 0 m m.
Proof. intros p0 cp Hp. exists cp. split; [done|]. destruct (decide _); lia. Qed.

Lemma counts_shift_trans p k1 k2 m1 m2 m3 :
  counts_shift p k1 m1 m2 -> counts_shift p k2 m2 m3 ->
  counts_shift p (k1 + k2) m1 m3.
Proof.
  intros H1 H2 p0 cp Hp. destruct (H1 p0 cp Hp) as (cp2 & Hp2 & E2).
  destruct (H2 p0 cp2 Hp2) as (cp3 & Hp3 & E3). exists cp3. split; [done|].
  destruct (decide _); lia.
Qed.

Lemma counts_shift_zero p p' m m' : counts_shift p 0 m m' -> counts_shift p' 0 m m'.
Proof.
  intros H p0 cp Hp. destruct (H p0 cp Hp) as (cp' & Hp' & E). exists cp'.
  split; [done|]. destruct (decide _), (decide _); lia.
Qed.

Lemma counts_shift_upd p f k m :
  (forall c, m_heap m !! p = Some c -> m_enter_cnt (f c) = m_enter_cnt c + k) ->
  counts_shift p k m (upd_cp p f m).
Proof.
  intros Hf. destruct m as [h na np cur fl sd tbl sb d st wd tr]. simpl in *.
  intros p1 cp Hp1. simpl in *. destruct (decide (p1 = p)) as [->|Hne].
  - rewrite lookup_alter_eq, Hp1. simpl. eexists. split; [done|]. by apply Hf.
  - rewrite lookup_alter_ne by done. exists cp. split; [done|]. lia.
Qed.

Lemma counts_kept_upd p0 p f m :
  (forall c, m_enter_cnt (f c) = m_enter_cnt c) -> counts_shift p0 0 m (upd_cp p f m).
Proof.
  intros Hf. destruct m as [h na np cur fl sd tbl sb d st wd tr].
  intros p1 cp Hp1. simpl in *. destruct (decide (p1 = p)) as [->|Hne].
  - rewrite lookup_alter_eq, Hp1. simpl. eexists. split; [done|]. rewrite Hf.
    destruct (decide _); lia.
  - rewrite lookup_alter_ne by done. exists cp. split; [done|].
    destruct (decide _); lia.
Qed.

Ltac counts_field :=
  match goal with
  | |- counts_shift _ 0 ?m _ =>
      let p := fresh "p" in let cp := fresh "cp" in let Hp := fresh "Hp" in
      destruct m; intros p cp Hp; simpl in *; exists cp; split; [done|];
      destruct (decide _); lia
  end.

Lemma counts_kept_emit p es m : counts_shift p 0 m (emit es m).
Proof. counts_field. Qed.
Lemma counts_kept_set_stack p x m : counts_shift p 0 m (set_stack x m).
Proof. counts_field. Qed.
Lemma counts_kept_set_in_flush_phase p x m : counts_shift p 0 m (set_in_flush_phase x m).
Proof. counts_field. Qed.
Lemma counts_kept_set_wd p x m : counts_shift p 0 m (set_wd x m).
Proof. counts_field. Qed.
Lemma counts_kept_set_cur_cp p x m : counts_shift p 0 m (set_cur_cp x m).
Proof. counts_field. Qed.
Lemma counts_kept_set_next_promise p x m : counts_shift p 0 m (set_next_promise x m).
Proof. counts_field. Qed.

(** Closes [counts_shift p 0 m (f1 (f2 (... m)))] for assignments that leave
    the counts alone. *)
Ltac counts_chain :=
  repeat first
    [ apply counts_shift_refl
    | (eapply (counts_shift_trans _ 0 0); [|first
         [ apply counts_kept_emit | apply counts_kept_set_stack
         | apply counts_kept_set_in_flush_phase | apply counts_kept_set_wd
         | apply counts_kept_set_cur_cp | apply counts_kept_set_next_promise
         | apply counts_kept_upd; by intros [? ? ? ? ? ?] ]]) ].

Lemma cp_ref_counts p m m' : cp_ref p m = Ok m' -> counts_shift p 1 m m'.
Proof.
  unfold cp_ref. destruct (get_cp p m) as [cp|] eqn:Hc; simpl; [|done].
  apply get_cp_Ok in Hc. destruct (dbg_assert _); simpl; [|done]. intros [= <-].
  apply counts_shift_upd. intros c Hc'. assert (c = cp) as -> by congruence.
  by destruct cp.
Qed.

Lemma cp_start_flush_counts p0 p m : counts_shift p0 0 m (cp_start_flush p m).
Proof. unfold cp_start_flush. counts_chain. Qed.

Lemma cp_io_exit_counts p m m' : cp_io_exit p m = Ok m' -> counts_shift p (-1) m m'.
Proof.
  unfold cp_io_exit. destruct (get_cp p m) as [cp|] eqn:Hc; simpl; [|done].
  apply get_cp_Ok in Hc. destruct (dbg_assert _); simpl; [|done].
  assert (Hk : counts_shift p (-1) m (upd_cp p (set_enter_cnt (m_enter_cnt cp - 1)) m)).
  { apply counts_shift_upd. intros c Hc'. assert (c = cp) as -> by congruence.
    destruct cp; simpl. lia. }
  destruct (_ && _); intros [= <-]; [|done].
  apply (counts_shift_trans p (-1) 0 _ _ _ Hk), cp_start_flush_counts.
Qed.

Lemma trigger_mark_counts p cur m m' : trigger_mark cur m = Ok m' -> counts_shift p 0 m m'.
Proof.
  unfold trigger_mark. destruct (get_cp cur m); simpl; [|done].
  intros [= <-]. counts_chain.
Qed.

Lemma new_CP_counts p m : fine_inv m -> counts_shift p 0 m (new_CP m).2.
Proof.
  intros Hinv. pose proof (fi_addr _ Hinv) as Haddr.
  destruct m as [h na np cur fl sd tbl sb d st wd tr]. unfold new_CP; simpl in *.
  intros p0 cp Hp0. simpl. exists cp. apply Haddr in Hp0 as Hlt.
  rewrite lookup_insert_ne by lia. split; [done|]. destruct (decide _); lia.
Qed.

Lemma fresh_promise_counts p cur m : counts_shift p 0 m (fresh_promise cur m).
Proof. unfold fresh_promise. counts_chain. Qed.

Lemma switchover_prepare_counts p cur new fut m m' :
  switchover_prepare cur new m = Ok (fut, m') -> counts_shift p 0 m m'.
Proof.
  unfold switchover_prepare.
  destruct (get_cp cur m) as [cur_cp|]; simpl; [|done].
  destruct (get_cp new m) as [new_cp|]; simpl; [|done].
  destruct (m_cp_waiting_to_trigger cur_cp); intros [= _ <-].
  - counts_chain.
  - unfold fresh_promise. counts_chain.
Qed.

Lemma force_attach_counts p cur fut m m' :
  force_attach cur m = Ok (fut, m') -> counts_shift p 0 m m'.
Proof.
  unfold force_attach. destruct (get_cp cur m) as [cp|] eqn:Hc; simpl; [|done].
  destruct (dbg_assert _); simpl; [|done].
  destruct (m_cp_waiting_to_trigger cp).
  - rewrite Hc. simpl. intros [= _ <-]. apply counts_shift_refl.
  - destruct (get_cp cur (upd_cp _ _ _)); simpl; [|done]. intros [= _ <-].
    unfold fresh_promise. counts_chain.
Qed.

(** The constructor of a guard is an entry followed by a push on the stack
    of the thread; the destructor is a pop followed by an exit. *)
Lemma CPGuard_ctor_fine_run m g m1 :
  CPGuard_ctor m = Ok (g, m1) ->
  rtc fine_step m m1 /\
  match g_cp g with
  | Some p => counts_shift p 1 m m1 /\ is_Some (m_heap m !! p)
  | None => counts_shift 0%nat 0 m m1
  end.
Proof.
  unfold CPGuard_ctor. destruct (t_cp_stack m) as [|top stk].
  - destruct (cp_io_enter m) as [[cp m1']|] eqn:He; simpl; [|done].
    intros [= <- <-]. split.
    + eapply rtc_l; [by eapply fine_enter|]. apply rtc_once, fine_stack.
    + simpl. unfold cp_io_enter in He. destruct (dbg_assert _); simpl in He; [|done].
      destruct (m_cur_cp m) as [p|].
      * destruct (cp_ref p m) as [m2|] eqn:Hr; simpl in He; [|done].
        injection He as <- <-. split.
        -- replace 1 with (1 + 0) by lia.
           eapply counts_shift_trans; [by apply cp_ref_counts|].
           apply counts_kept_set_stack.
        -- unfold cp_ref in Hr. destruct (get_cp p m) as [c|] eqn:Hc; [|done].
           apply get_cp_Ok in Hc. by eexists.
      * injection He as <- <-. apply counts_kept_set_stack.
  - destruct top as [p|]; [|done].
    destruct (cp_ref p m) as [m2|] eqn:Hr; simpl; [|done].
    intros [= <- <-]. split.
    + eapply rtc_l; [by eapply fine_ref|]. apply rtc_once, fine_stack.
    + simpl. split.
      * replace 1 with (1 + 0) by lia.
        eapply counts_shift_trans; [by apply cp_ref_counts|].
        apply counts_kept_set_stack.
      * unfold cp_ref in Hr. destruct (get_cp p m) as [c|] eqn:Hc; [|done].
        apply get_cp_Ok in Hc. by eexists.
Qed.

Lemma CPGuard_dtor_fine_run g m m' :
  (forall p, g_cp g = Some p ->
     exists cp, m_heap m !! p = Some cp /\ 0 < m_enter_cnt cp) ->
  CPGuard_dtor g m = Ok m' ->
  rtc fine_step m m' /\
  match g_cp g with
  | Some p => counts_shift p (-1) m m'
  | None => counts_shift 0%nat 0 m m'
  end.
Proof.
  intros Hheld. unfold CPGuard_dtor.
  set (m1 := if m_pushed g && negb (bool_decide (t_cp_stack m = []))
             then set_stack (tail (t_cp_stack m)) m else m).
  assert (H1 : rtc fine_step m m1 /\ forall p, counts_shift p 0 m m1 /\
                                     m_heap m1 = m_heap m).
  { subst m1. destruct (_ && _).
    - split; [apply rtc_once, fine_stack|]. intros p.
      split; [apply counts_kept_set_stack|by destruct m].
    - split; [done|]. intros p. split; [apply counts_shift_refl|done]. }
  destruct H1 as [Hrun Hsame].
  destruct (g_cp g) as [p|].
  - intros He. destruct (Hheld p eq_refl) as (cp & Hp & Hpos).
    destruct (Hsame p) as [Hc Hh]. split.
    + eapply rtc_trans; [exact Hrun|]. apply rtc_once.
      eapply fine_exit; [by rewrite Hh|done|done].
    + replace (-1) with (0 + -1) by lia.
      eapply counts_shift_trans; [exact Hc|]. by apply cp_io_exit_counts.
  - intros [= <-]. split; [done|]. apply Hsame.
Qed.

Lemma CPGuard_get_Ok g cur : CPGuard_get g = Ok cur -> g_cp g = Some cur.
Proof.
  unfold CPGuard_get. destruct (dbg_assert _); simpl; [|done].
  destruct (g_cp g); [by intros [= ->]|done].
Qed.

(** A thread that entered [p] and has not left it yet finds a positive
    count when it leaves. *)
Lemma counts_shift_held p m m' :
  fine_inv m -> is_Some (m_heap m !! p) -> counts_shift p 1 m m' ->
  exists cp, m_heap m' !! p = Some cp /\ 0 < m_enter_cnt cp.
Proof.
  intros Hinv [cp Hp] Hs. destruct (Hs p cp Hp) as (cp' & Hp' & E).
  exists cp'. split; [done|]. pose proof (fi_count _ Hinv p cp Hp).
  destruct (decide (p = p)); [lia|done].
Qed.

Lemma trigger_cp_flush_fine_run force fut m m' :
  fine_inv m -> trigger_cp_flush force m = Ok (fut, m') ->
  rtc fine_step m m' /\ counts_shift 0%nat 0 m m'.
Proof.
  intros Hinv. rewrite trigger_cp_flush_sections.
  destruct (trigger_cas m) as [b m0] eqn:Ecas. simpl. destruct b.
  - assert (m0 = set_in_flush_phase true m) as ->.
    { unfold trigger_cas in Ecas. by destruct (m_in_flush_phase m); injection Ecas. }
    set (m0 := set_in_flush_phase true m) in *.
    assert (Hinv0 : fine_inv m0) by (eapply fine_step_inv; [exact Hinv|by apply fine_cas]).
    rewrite trigger_critical_sections. fold m0.
    destruct (CPGuard_ctor m0) as [[g m1]|] eqn:Hctor; simpl; [|done].
    destruct (CPGuard_get g) as [cur|] eqn:Hget; simpl; [|done].
    apply CPGuard_get_Ok in Hget.
    destruct (CPGuard_ctor_fine_run _ _ _ Hctor) as [R1 C1]. rewrite Hget in C1.
    destruct C1 as [C1 Hlive].
    destruct (trigger_mark cur m1) as [m2|] eqn:Hmark; simpl; [|done].
    destruct (switchover_prepare cur _ _) as [[fut0 m4]|] eqn:Hprep; simpl; [|done].
    destruct (CPGuard_dtor g _) as [m5|] eqn:Hdtor; simpl; [|done].
    intros [= <- <-].
    assert (R2 : rtc fine_step m0 (switchover_swap (new_CP m2).1 m4)).
    { eapply rtc_trans; [exact R1|].
      eapply rtc_l; [by eapply fine_mark|].
      eapply rtc_l; [apply fine_new|].
      eapply rtc_l; [by eapply fine_prepare|]. apply rtc_once, fine_swap. }
    assert (Hinv2 : fine_inv m2).
    { eapply fine_step_inv; [|by eapply fine_mark]. by eapply fine_steps_inv. }
    assert (C2 : counts_shift cur 1 m0 (switchover_swap (new_CP m2).1 m4)).
    { replace 1 with (1 + (0 + (0 + (0 + 0)))) by lia.
      eapply counts_shift_trans; [exact C1|].
      eapply counts_shift_trans; [by eapply trigger_mark_counts|].
      eapply counts_shift_trans; [by apply new_CP_counts|].
      eapply counts_shift_trans; [by eapply switchover_prepare_counts|].
      unfold switchover_swap. apply counts_kept_set_cur_cp. }
    assert (Hheld : forall p, g_cp g = Some p ->
              exists cp, m_heap (switchover_swap (new_CP m2).1 m4) !! p = Some cp /\
                         0 < m_enter_cnt cp).
    { intros p Hp. rewrite Hget in Hp. injection Hp as <-.
      exact (counts_shift_held _ _ _ Hinv0 Hlive C2). }
    destruct (CPGuard_dtor_fine_run _ _ _ Hheld Hdtor) as [R3 C3].
    rewrite Hget in C3. split.
    + eapply rtc_l; [by apply fine_cas|]. by eapply rtc_trans.
    + apply (counts_shift_zero cur). replace 0 with (0 + (1 + -1)) by lia.
      eapply counts_shift_trans; [apply counts_kept_set_in_flush_phase|].
      by eapply counts_shift_trans.
  - destruct force; [|intros [= <- <-]; split; [done|apply counts_shift_refl]].
    destruct (CPGuard_ctor m) as [[g m1]|] eqn:Hctor; simpl; [|done].
    destruct (CPGuard_get g) as [cur|] eqn:Hget; simpl; [|done].
    apply CPGuard_get_Ok in Hget.
    destruct (CPGuard_ctor_fine_run _ _ _ Hctor) as [R1 C1]. rewrite Hget in C1.
    destruct C1 as [C1 Hlive].
    destruct (force_attach cur m1) as [[fut0 m2]|] eqn:Hatt; simpl; [|done].
    destruct (CPGuard_dtor g m2) as [m3|] eqn:Hdtor; simpl; [|done].
    intros [= <- <-].
    assert (C2 : counts_shift cur 1 m m2).
    { replace 1 with (1 + 0) by lia.
      eapply counts_shift_trans; [exact C1|]. by eapply force_attach_counts. }
    assert (Hheld : forall p, g_cp g = Some p ->
              exists cp, m_heap m2 !! p = Some cp /\ 0 < m_enter_cnt cp).
    { intros p Hp. rewrite Hget in Hp. injection Hp as <-.
      exact (counts_shift_held _ _ _ Hinv Hlive C2). }
    destruct (CPGuard_dtor_fine_run _ _ _ Hheld Hdtor) as [R3 C3].
    rewrite Hget in C3. split.
    + eapply rtc_trans; [exact R1|]. eapply rtc_l; [by eapply fine_attach|]. done.
    + apply (counts_shift_zero cur). replace 0 with (1 + -1) by lia.
      by eapply counts_shift_trans.
Qed.

Lemma flush_done_tail_fine_run now m m' :
  fine_inv m -> flush_done_tail now m = Ok m' -> rtc fine_step m m'.
Proof.
  intros Hinv. unfold flush_done_tail.
  destruct (CPGuard_ctor m) as [[g m9]|] eqn:Hctor; simpl; [|done].
  destruct (CPGuard_ctor_fine_run _ _ _ Hctor) as [R1 C1].
  assert (Hinv9 : fine_inv m9) by by eapply fine_steps_inv.
  destruct (g_cp g) as [cur|] eqn:Hg.
  - destruct C1 as [C1 Hlive].
    set (m10 := set_wd _ m9).
    destruct (get_cp cur m10) as [c|]; simpl; [|done].
    assert (Hinv10 : fine_inv m10) by (eapply fine_step_inv; [exact Hinv9|apply fine_wd]).
    assert (H11 : forall m11,
              (if m_cp_waiting_to_trigger c
               then '(_, m') ← trigger_cp_flush false m10; Ok m'
               else Ok m10) = Ok m11 ->
              rtc fine_step m10 m11 /\ counts_shift cur 0 m10 m11).
    { intros m11. destruct (m_cp_waiting_to_trigger c).
      - destruct (trigger_cp_flush false m10) as [[f0 mt]|] eqn:Ht; simpl; [|done].
        intros [= <-]. destruct (trigger_cp_flush_fine_run _ _ _ _ Hinv10 Ht) as [R C].
        split; [done|]. by apply (counts_shift_zero 0%nat).
      - intros [= <-]. split; [done|]. apply counts_shift_refl. }
    destruct (if m_cp_waiting_to_trigger c then _ else _) as [m11|] eqn:E11;
      simpl; [|done].
    destruct (H11 m11 eq_refl) as [R2 C2]. intros Hdtor.
    assert (C3 : counts_shift cur 1 m m11).
    { replace 1 with (1 + (0 + 0)) by lia.
      eapply counts_shift_trans; [exact C1|].
      eapply counts_shift_trans; [apply counts_kept_set_wd|exact C2]. }
    assert (Hheld : forall p, g_cp g = Some p ->
              exists cp, m_heap m11 !! p = Some cp /\ 0 < m_enter_cnt cp).
    { intros p Hp. rewrite Hg in Hp. injection Hp as <-.
      exact (counts_shift_held _ _ _ Hinv Hlive C3). }
    destruct (CPGuard_dtor_fine_run _ _ _ Hheld Hdtor) as [R3 _].
    eapply rtc_trans; [exact R1|]. eapply rtc_l; [apply fine_wd|].
    by eapply rtc_trans.
  - destruct (dbg_assert false); simpl; [|done]. intros Hdtor.
    assert (Hheld : forall p, g_cp g = Some p ->
              exists cp, m_heap m9 !! p = Some cp /\ 0 < m_enter_cnt cp).
    { intros p Hp. by rewrite Hg in Hp. }
    destruct (CPGuard_dtor_fine_run _ _ _ Hheld Hdtor) as [R3 _].
    by eapply rtc_trans.
Qed.

Lemma on_cp_flush_done_fine_run p cp now m m' :
  fine_inv m ->
  m_heap m !! p = Some cp -> m_cp_status cp = cp_flushing ->
  on_cp_flush_done p now m = Ok m' -> rtc fine_step m m'.
Proof.
  intros Hinv Hp Hst. rewrite on_cp_flush_done_sections.
  destruct (flush_done_mark p m) as [m1|] eqn:Hmark; simpl; [|done].
  assert (Hp1 : exists cp1, m_heap m1 !! p = Some cp1 /\ m_cp_status cp1 = cp_flush_done).
  { unfold flush_done_mark, get_cp in Hmark. rewrite Hp in Hmark. simpl in Hmark.
    destruct (dbg_assert _); simpl in Hmark; [|done]. injection Hmark as <-.
    destruct m; simpl in *. rewrite lookup_alter_eq, Hp. simpl. eexists.
    split; [done|]. by destruct cp. }
  destruct Hp1 as (cp1 & Hp1 & Hst1).
  set (m4 := flush_done_persist p m1).
  assert (Hp4 : exists cp4, m_heap m4 !! p = Some cp4 /\ m_cp_status cp4 = cp_cleaning).
  { subst m4. unfold flush_done_persist, cleanup_cp, sb_write, upd_cp.
    destruct m1; simpl in *. rewrite lookup_alter_eq, Hp1. simpl. eexists.
    split; [done|]. by destruct cp1. }
  destruct Hp4 as (cp4 & Hp4 & Hst4).
  destruct (flush_done_resolve p m4) as [m7|] eqn:Hres; simpl; [|done].
  assert (R : rtc fine_step m m7).
  { eapply rtc_l; [by eapply fine_done_mark|].
    eapply rtc_l; [by eapply fine_done_persist|].
    apply rtc_once. by eapply fine_done_resolve. }
  destruct (m_cp_shutdown_initiated m); [by intros [= <-]|].
  intros Htail. eapply rtc_trans; [exact R|].
  eapply rtc_l; [apply fine_done_clear|].
  eapply flush_done_tail_fine_run; [|exact Htail].
  eapply fine_step_inv; [|apply fine_done_clear]. by eapply fine_steps_inv.
Qed.

(** Every run of whole calls is an interleaved run. *)
Lemma cp_step_fine_run m m' : fine_inv m -> cp_step m m' -> rtc fine_step m m'.
Proof.
  intros Hinv Hs. destruct Hs.
  - apply rtc_once. by eapply fine_register.
  - apply rtc_once. by eapply fine_enter.
  - apply rtc_once. by eapply fine_ref.
  - apply rtc_once. by eapply fine_exit.
  - by eapply trigger_cp_flush_fine_run.
  - by eapply on_cp_flush_done_fine_run.
  - unfold shutdown_trigger in *. eapply rtc_l; [apply fine_shutdown|].
    eapply trigger_cp_flush_fine_run; [|done].
    eapply fine_step_inv; [exact Hinv|apply fine_shutdown].
Qed.

Lemma cp_steps_fine_run m m' : fine_inv m -> rtc cp_step m m' -> rtc fine_step m m'.
Proof.
  intros Hinv Hs. revert Hinv.
  induction Hs as [|m1 m2 m3 H12 _ IH]; intros Hinv; [done|].
  pose proof (cp_step_fine_run _ _ Hinv H12) as R.
  eapply rtc_trans; [exact R|]. apply IH. by eapply fine_steps_inv.
Qed.

Lemma reachable_fine_reachable m : reachable m -> fine_reachable m.
Proof.
  intros (m0 & Hb & Hs). exists m0. split; [done|].
  apply cp_steps_fine_run; [|done]. by apply cp_inv_fine_inv, booted_inv.
Qed.






(** *** Forced triggers during a flush *)

Lemma inv_lookup_ok m p cp : cp_inv m -> m_heap m !! p = Some cp -> cp_ok m p cp.
Proof.
  intros Hinv. open_inv Hinv m.
  - intros [<- <-]%lookup_singleton_Some. by repeat split.
  - intros [[<- <-]|[_ [<- <-]%lookup_singleton_Some]]%lookup_insert_Some;
      by repeat split.
Qed.


(** *** What the completion of a flush does, in order *)

Ltac run_flush_done :=
  unfold on_cp_flush_done, cleanup_cp, sb_write, reset_cp, set_cp;
  unfold_calls'; run';
  repeat match goal with
  | |- context [(?a =? 0)] =>
      let E' := fresh "E" in
      destruct (Z.eqb_spec a 0) as [E'|E']; [try lia|]; run'
  end; try lia.

Lemma on_cp_flush_done_effects old old_cp now m :
  cp_inv m ->
  m_heap m !! old = Some old_cp -> m_cp_status old_cp = cp_flushing ->
  exists m' post,
    on_cp_flush_done old now m = Ok m' /\
    m_heap m' !! old = None /\
    m_trace m' = m_trace m ++ EvSbWrite (m_cp_id old_cp)
                   :: cleanup_calls (m_cp_cb_table m) 0 old
                   ++ EvSetValue (m_comp_promise old_cp) true :: post /\
    (if m_cp_shutdown_initiated m
     then post = [] /\ m_in_flush_phase m' = m_in_flush_phase m
     else exists rest, post = EvInFlushCleared :: rest /\
                       resolved_count (m_comp_promise old_cp) rest = 0%nat) /\
    m_cp_id old_cp = m_last_flushed_cp (m_sb m) + 1 /\
    m_last_flushed_cp (m_sb m') = m_cp_id old_cp /\
    disk_sb m' = Some (m_sb m').
Proof.
  intros Hinv. open_inv Hinv m.
  - intros [-> <-]%lookup_singleton_Some; simpl; done.
  - intros [[-> <-]|[Hp [-> <-]%lookup_singleton_Some]]%lookup_insert_Some;
      simpl; [intros ->|done].
    destruct sd, w, (Z.eqb_spec n 0) as [E|E].
    all: eexists _, _.
    all: (split; [run_flush_done; reflexivity|]).
    all: run.
    all: (split; [done|]).
    all: (split; [rewrite <- ?app_assoc; simpl; reflexivity|]).
    all: (split; [|done]).
    all: try done.
    all: eexists; (split; [reflexivity|]); simpl; trace_simpl; done.
Qed.


(** *** The flushed frontier *)

Lemma steps_last_mono m m' :
  cp_inv m -> rtc cp_step m m' ->
  m_last_flushed_cp (m_sb m) <= m_last_flushed_cp (m_sb m').
Proof.
  intros Hinv Hs. revert Hinv.
  induction Hs as [|a b c0 Hab _ IH]; intros Hinv; [lia|].
  destruct (cp_step_post _ _ Hinv Hab) as [Hi _ Hl _ _ _].
  specialize (IH Hi). lia.
Qed.

(** What a restart finds: the meta service hands the stored super block to
    [on_meta_blk_found], then [start(false)] runs. *)
Definition restart (timer_sec : Z) (stored : cp_mgr_super_block) : result CPManager :=
  m ← on_meta_blk_found stored (CPManager_ctor timer_sec);
  Ok (start false m).

Lemma restart_first_cp timer_sec stored :
  magic stored = cp_sb_magic -> version stored = cp_sb_version ->
  exists m c cp,
    restart timer_sec stored = Ok m /\
    m_cur_cp m = Some c /\ m_heap m !! c = Some cp /\
    m_cp_status cp = cp_io_ready /\
    m_cp_id cp = m_last_flushed_cp stored + 1 /\
    m_last_flushed_cp (m_sb m) = m_last_flushed_cp stored.
Proof.
  intros Hm Hv. unfold restart, on_meta_blk_found, create_first_cp. simpl.
  rewrite !bool_decide_eq_true_2 by done. simpl.
  eexists _, 0%nat, _. split; [reflexivity|]. simpl.
  split; [done|]. rewrite !alter_insert_eq, lookup_insert_eq.
  split; [reflexivity|]. done.
Qed.

Lemma not_elem_of_cleanup_calls tbl k p e :
  e ∈ cleanup_calls tbl k p -> exists idx, e = EvCpCleanup idx p.
Proof.
  revert k; induction tbl as [|[cb|] tbl IH]; intros k; simpl.
  - by intros ?%elem_of_nil.
  - intros [->|H]%elem_of_cons; [by eexists|by eapply IH].
  - apply IH.
Qed.

(** C5. When the flush of a checkpoint with id [N] is complete,
    [on_cp_flush_done] returns, and what it does comes in this order: the
    super block is written with last-flushed id [N] (one more than before),
    [cp_cleanup] is called on the consumers, the checkpoint's promise is
    resolved with [true], and only then, unless a shutdown was initiated, is
    the in-flush flag cleared. From then on, whatever the manager does, the
    stored super block carries a last-flushed id of at least [N], and a
    restart from it comes up with a first checkpoint in [cp_io_ready] whose
    id is that last-flushed id plus one. *)
Theorem on_cp_flush_done_persists_frontier (m : CPManager) (p : cp_ptr) (cp : CP)
    (now : Z) :
  reachable m ->
  m_heap m !! p = Some cp ->
  m_cp_status cp = cp_flushing ->
  exists m' post,
    on_cp_flush_done p now m = Ok m' /\
    m_trace m' = m_trace m ++ EvSbWrite (m_cp_id cp)
                   :: cleanup_calls (m_cp_cb_table m) 0 p
                   ++ EvSetValue (m_comp_promise cp) true :: post /\
    (forall e, e ∈ cleanup_calls (m_cp_cb_table m) 0 p ->
       exists idx, e = EvCpCleanup idx p) /\
    (if m_cp_shutdown_initiated m
     then post = [] /\ m_in_flush_phase m' = m_in_flush_phase m
     else exists rest, post = EvInFlushCleared :: rest) /\
    m_cp_id cp = m_last_flushed_cp (m_sb m) + 1 /\
    (forall m2, rtc cp_step m' m2 ->
       exists stored,
         disk_sb m2 = Some stored /\
         m_cp_id cp <= m_last_flushed_cp stored /\
         forall timer_sec, exists mr c0 cp0,
           restart timer_sec stored = Ok mr /\
           m_last_flushed_cp (m_sb mr) = m_last_flushed_cp stored /\
           m_cur_cp mr = Some c0 /\ m_heap mr !! c0 = Some cp0 /\
           m_cp_status cp0 = cp_io_ready /\
           m_cp_id cp0 = m_last_flushed_cp stored + 1).
Proof.
  intros Hinv%reachable_inv Hp Hst.
  destruct (on_cp_flush_done_effects _ _ now _ Hinv Hp Hst)
    as (m' & post & Hd & _ & Htr & Hpost & Hid & Hlast & Hdisk).
  exists m', post. split; [done|]. split; [done|].
  split; [intros e; apply not_elem_of_cleanup_calls|]. split.
  { destruct (m_cp_shutdown_initiated m); [done|].
    destruct Hpost as (rest & -> & _). by exists rest. }
  split; [done|].
  intros m2 Hs.
  assert (Hstep : cp_step m m') by by eapply step_flush_done.
  pose proof (post_inv _ _ (cp_step_post _ _ Hinv Hstep)) as Hinv'.
  pose proof (steps_inv _ _ Hinv' Hs) as Hinv2.
  pose proof (steps_last_mono _ _ Hinv' Hs) as Hmono.
  exists (m_sb m2). split; [by apply inv_disk|]. split; [lia|].
  intros t.
  destruct (restart_first_cp t (m_sb m2) (inv_magic _ Hinv2) (inv_version _ Hinv2))
    as (mr & c0 & cp0 & Hr & Hc & Hh & Hs0 & Hi & Hl).
  by exists mr, c0, cp0.
Qed.

(** *** Who may enter a checkpoint *)

(** C3 (amended). [cp_io_enter] enters the checkpoint [m_cur_cp] points to,
    and [cp_ref] the checkpoint it is given: the entry count goes up by
    one, and only then a debug build asserts that the state is
    [cp_io_ready], [cp_trigger] or [cp_flush_prepare]. So an entry is
    accepted in these three states, [cp_flush_prepare] included; a debug
    build refuses it in the others, a release build in none. Which
    checkpoint [cp_io_enter] enters is decided by [m_cur_cp], not by the
    state: the locked block of [trigger_cp_flush] stores [cp_flush_prepare]
    first, and until the swap [cp_io_enter] enters the checkpoint in that
    state. *)
Theorem cp_io_enter_enters_current_only (m : CPManager) (p : cp_ptr) (cp : CP) :
  m_cur_cp m = Some p ->
  m_heap m !! p = Some cp ->
  (m_cp_status cp = cp_io_ready \/ m_cp_status cp = cp_trigger \/
   m_cp_status cp = cp_flush_prepare ->
   cp_io_enter m = Ok (Some p, upd_cp p (set_enter_cnt (m_enter_cnt cp + 1)) m)) /\
  (forall o m',
     cp_io_enter m = Ok (o, m') ->
     o = Some p /\ m' = upd_cp p (set_enter_cnt (m_enter_cnt cp + 1)) m /\
     (NDEBUG = false ->
      m_cp_status cp = cp_io_ready \/ m_cp_status cp = cp_trigger \/
      m_cp_status cp = cp_flush_prepare)) /\
  (forall p' cp',
     m_heap m !! p' = Some cp' ->
     m_cp_status cp' = cp_io_ready \/ m_cp_status cp' = cp_trigger \/
     m_cp_status cp' = cp_flush_prepare ->
     cp_ref p' m = Ok (upd_cp p' (set_enter_cnt (m_enter_cnt cp' + 1)) m)) /\
  (forall p' cp' m',
     m_heap m !! p' = Some cp' -> cp_ref p' m = Ok m' ->
     m' = upd_cp p' (set_enter_cnt (m_enter_cnt cp' + 1)) m /\
     (NDEBUG = false ->
      m_cp_status cp' = cp_io_ready \/ m_cp_status cp' = cp_trigger \/
      m_cp_status cp' = cp_flush_prepare)) /\
  (NDEBUG = true ->
   forall p' cp',
     m_heap m !! p' = Some cp' ->
     cp_ref p' m = Ok (upd_cp p' (set_enter_cnt (m_enter_cnt cp' + 1)) m)) /\
  (forall new fut m',
     p <> new ->
     switchover_prepare p new m = Ok (fut, m') ->
     exists cp',
       m_cur_cp m' = Some p /\
       m_heap m' !! p = Some cp' /\
       m_cp_status cp' = cp_flush_prepare /\
       m_enter_cnt cp' = m_enter_cnt cp /\
       cp_io_enter m' = Ok (Some p, upd_cp p (set_enter_cnt (m_enter_cnt cp + 1)) m') /\
       m_cur_cp (switchover_swap new m') = Some new).
Proof.
  intros Hcur Hp.
  assert (Href : forall (m0 : CPManager) p' cp',
     m_heap m0 !! p' = Some cp' ->
     m_cp_status cp' = cp_io_ready \/ m_cp_status cp' = cp_trigger \/
     m_cp_status cp' = cp_flush_prepare ->
     cp_ref p' m0 = Ok (upd_cp p' (set_enter_cnt (m_enter_cnt cp' + 1)) m0)).
  { intros m0 p' cp' Hp' Hst. unfold cp_ref, get_cp. rewrite Hp'. simpl.
    destruct Hst as [-> | [-> | ->]]; simpl; eval_asserts;
      by rewrite dbg_assert_true. }
  assert (Hback : forall p' cp' m',
     m_heap m !! p' = Some cp' -> cp_ref p' m = Ok m' ->
     m' = upd_cp p' (set_enter_cnt (m_enter_cnt cp' + 1)) m /\
     (NDEBUG = false ->
      m_cp_status cp' = cp_io_ready \/ m_cp_status cp' = cp_trigger \/
      m_cp_status cp' = cp_flush_prepare)).
  { intros p' cp' m' Hp'. unfold cp_ref, get_cp, dbg_assert. rewrite Hp'. simpl.
    destruct NDEBUG.
    - intros [= <-]. split; [done|]. done.
    - destruct (m_cp_status cp'); simpl; intros [= <-]; split; auto. }
  assert (Henter : forall (m0 : CPManager) cp0,
     m_cur_cp m0 = Some p -> m_heap m0 !! p = Some cp0 ->
     m_cp_status cp0 = cp_io_ready \/ m_cp_status cp0 = cp_trigger \/
     m_cp_status cp0 = cp_flush_prepare ->
     cp_io_enter m0 = Ok (Some p, upd_cp p (set_enter_cnt (m_enter_cnt cp0 + 1)) m0)).
  { intros m0 cp0 Hc0 Hp0 Hst. unfold cp_io_enter. rewrite Hc0. simpl.
    eval_asserts. rewrite dbg_assert_true. simpl. by rewrite (Href m0 p cp0). }
  split; [by apply Henter|]. split.
  { intros o m'. unfold cp_io_enter. rewrite Hcur.
    destruct (dbg_assert _); simpl; [|done].
    destruct (cp_ref p m) as [m1|] eqn:Hr; simpl; [|done]. intros [= <- <-].
    destruct (Hback p cp m1 Hp Hr) as [-> Hst]. done. }
  split; [by apply Href|]. split; [exact Hback|]. split.
  { intros Hnd p' cp' Hp'. unfold cp_ref, get_cp, dbg_assert. rewrite Hp', Hnd.
    done. }
  intros new fut m' Hne. unfold switchover_prepare, get_cp. rewrite Hp. simpl.
  destruct (m_heap m !! new) as [new_cp|] eqn:Hnew; simpl; [|done].
  intros Hm'.
  assert (Hshape : exists cp',
            m_cur_cp m' = Some p /\ m_heap m' !! p = Some cp' /\
            m_cp_status cp' = cp_flush_prepare /\ m_enter_cnt cp' = m_enter_cnt cp).
  { destruct m as [h na np c0 fl sd tbl sb d st wd tr]. destruct cp as [s n q w i ctx].
    simpl in *. subst c0.
    destruct w; injection Hm' as _ <-; unfold fresh_promise, upd_cp; simpl;
      rewrite ?lookup_alter_eq, ?(lookup_alter_ne _ _ new p) by done;
      rewrite ?lookup_alter_eq, ?(lookup_alter_ne _ _ new p) by done;
      rewrite ?lookup_alter_eq, ?(lookup_alter_ne _ _ new p) by done;
      rewrite ?Hp; simpl; eexists; done. }
  destruct Hshape as (cp' & Hcur' & Hp' & Hst' & Hn').
  exists cp'. split; [done|]. split; [done|]. split; [done|]. split; [done|].
  split; [|by destruct m'].
  rewrite <- Hn'. apply Henter; auto.
Qed.

(** *** The watchdog's status test *)

(** C6. The test [(status != cp_flush_prepare) || (status != cp_flushing)]
    holds for every status, so the timer returns before it samples any
    consumer: whatever the checkpoint under observation and however long it
    has been stuck, a tick asks no consumer to repair and raises nothing. *)
Theorem cp_watchdog_timer_never_acts (pct : nat -> Z) (elapsed_ms : Z)
    (m : CPManager) :
  cp_watchdog_timer pct elapsed_ms m
  = match wd_cp (m_wd_cp m) with
    | None => Ok ([], m)
    | Some cp => _ ← get_cp cp m; Ok ([], m)
    end.
Proof.
  unfold cp_watchdog_timer.
  destruct (wd_cp (m_wd_cp m)) as [cp|]; [|done].
  destruct (get_cp cp m) as [c|]; simpl; [|done].
  by destruct (m_cp_status c).
Qed.

(** Below the status test the assertion stands in the branch taken while the
    elapsed time is still under twelve timer intervals: there the timer
    asserts as soon as no consumer reports a progress other than 100, and
    past twelve intervals it does nothing. *)
Lemma watchdog_check_asserts_before_ceiling pct elapsed_ms m :
  (cum_progress (m_cp_cb_table m) 0 pct 0 0).2 <> 0 ->
  m_progress_pct (m_wd_cp m)
    <= (cum_progress (m_cp_cb_table m) 0 pct 0 0).1
       / (cum_progress (m_cp_cb_table m) 0 pct 0 0).2 ->
  repair_loop (m_cp_cb_table m) 0 pct = None ->
  (elapsed_ms < 12 * m_timer_sec (m_wd_cp m) * 1000 ->
   watchdog_check pct elapsed_ms m = Fatal REL_ASSERT) /\
  (12 * m_timer_sec (m_wd_cp m) * 1000 <= elapsed_ms ->
   exists log, watchdog_check pct elapsed_ms m = Ok (log, m) /\
               forall idx, WdRepairSlowCp idx ∉ log).
Proof.
  intros Hc Hp Hr. unfold watchdog_check.
  destruct (cum_progress _ _ _ _ _) as [cum count]; simpl in *.
  destruct (Z.eqb_spec count 0); [done|].
  destruct (Z.gtb_spec (m_progress_pct (m_wd_cp m)) (cum / count)); [lia|].
  rewrite Hr. split; intros He.
  - destruct (Z.ltb_spec elapsed_ms (12 * m_timer_sec (m_wd_cp m) * 1000)); [done|lia].
  - destruct (Z.ltb_spec elapsed_ms (12 * m_timer_sec (m_wd_cp m) * 1000)); [lia|].
    eexists; split; [reflexivity|]. intros idx.
    destruct (_ >=? _); [|by intros ?%elem_of_nil].
    intros [?|?%elem_of_nil]%elem_of_cons; done.
Qed.

(** *** What holds between any two calls *)

(** No promise is fulfilled twice: over every run of the manager,
    [setValue] is called at most once on each promise. *)
Theorem promise_fulfilled_at_most_once (m : CPManager) (q : promise_id) :
  reachable m -> (resolved_count q (m_trace m) <= 1)%nat.
Proof. intros Hinv%reachable_inv. apply (inv_resolved _ Hinv). Qed.

(** Under every interleaving of the sections, whatever the threads and
    their number: the live checkpoints own pairwise distinct promises, none
    of them fulfilled yet; no promise is fulfilled twice; and a promise the
    manager has not handed out yet is not fulfilled. *)
Theorem checkpoints_under_interleaving (m : CPManager) :
  fine_reachable m ->
  (forall p cp,
     m_heap m !! p = Some cp ->
     (p < m_next_addr m)%nat /\
     (m_comp_promise cp < m_next_promise m)%nat /\
     resolved_count (m_comp_promise cp) (m_trace m) = 0%nat) /\
  (forall p1 p2 cp1 cp2,
     m_heap m !! p1 = Some cp1 -> m_heap m !! p2 = Some cp2 ->
     p1 <> p2 -> m_comp_promise cp1 <> m_comp_promise cp2) /\
  (forall q, (resolved_count q (m_trace m) <= 1)%nat) /\
  (forall q, (m_next_promise m <= q)%nat -> resolved_count q (m_trace m) = 0%nat).
Proof.
  intros [I1 I2 I3 I4 I5 I6 I7]%fine_reachable_inv.
  split; [intros p cp Hp; split; [by eapply I1|split; [by eapply I2|by eapply I3]]|].
  split; [|done].
  intros p1 p2 cp1 cp2 H1 H2 Hne E. apply Hne. by eapply I4.
Qed.


(** Taking a guard and dropping it leaves the manager as it was: the guard
    holds the current checkpoint, whose entry count is one higher while the
    guard lives. *)
Theorem cp_guard_enter_exit (m : CPManager) :
  reachable m ->
  exists g m1 c cp cp1,
    CPGuard_ctor m = Ok (g, m1) /\
    g_cp g = Some c /\ m_cur_cp m = Some c /\
    m_heap m !! c = Some cp /\ m_heap m1 !! c = Some cp1 /\
    m_enter_cnt cp1 = m_enter_cnt cp + 1 /\
    CPGuard_dtor g m1 = Ok m.
Proof.
  intros Hinv%reachable_inv. open_inv Hinv m.
  - eexists _, _, c, _, _.
    split; [unfold_calls'; run'; reflexivity|].
    split; [reflexivity|]. split; [reflexivity|].
    split; [by run|]. split; [by run|]. split; [reflexivity|].
    unfold_calls'; run'. by replace (n + 1 - 1) with n by lia.
  - eexists _, _, c, _, _.
    split; [unfold_calls'; run'; reflexivity|].
    split; [reflexivity|]. split; [reflexivity|].
    split; [by run|]. split; [by run|]. split; [reflexivity|].
    unfold_calls'; run'. by replace (n + 1 - 1) with n by lia.
Qed.

(** A trigger that finds no flush in progress returns with the old
    checkpoint already flushing when no thread is inside it, and prepared
    for flush otherwise; [cp_flush] is called on the consumers in the first
    case only, after the switch-over calls. The future is the old
    checkpoint's promise, or a completed one when the checkpoint had been
    waiting to trigger. *)
Theorem trigger_cp_flush_when_idle (force : bool) (m : CPManager)
    (p0 : cp_ptr) (cp0 : CP) :
  reachable m ->
  m_in_flush_phase m = false ->
  m_cur_cp m = Some p0 ->
  m_heap m !! p0 = Some cp0 ->
  exists fut m' old,
    trigger_cp_flush force m = Ok (fut, m') /\
    m_heap m' !! p0 = Some old /\
    m_enter_cnt old = m_enter_cnt cp0 /\
    m_cp_status old =
      (if m_enter_cnt cp0 =? 0 then cp_flushing else cp_flush_prepare) /\
    fut = (if m_cp_waiting_to_trigger cp0 then Ready true
           else FromPromise (m_comp_promise old)) /\
    m_in_flush_phase m' = true /\
    m_trace m' =
      m_trace m
      ++ (switchover_loop (m_cp_cb_table m) 0 p0 (m_next_addr m)
            (replicate SENTINEL None)).2
      ++ (if m_enter_cnt cp0 =? 0 then flush_calls (m_cp_cb_table m) 0 p0 else []).
Proof.
  intros Hinv%reachable_inv. revert p0 cp0. open_inv Hinv m; [|done].
  intros p0 cp0 -> [= <-]. rewrite lookup_singleton_eq. intros [= <-]. simpl.
  destruct w, (Z.eqb_spec n 0) as [E|E].
  all: eexists _, _, _.
  all: (split;
    [unfold_calls'; run';
     repeat match goal with
     | |- context [(?a =? 0)] =>
         let E' := fresh "E" in
         destruct (Z.eqb_spec a 0) as [E'|E']; [try lia|]; run'
     end; try lia; reflexivity|]).
  all: run.
  all: (split; [reflexivity|]); simpl.
  all: (split; [lia|]); (split; [done|]); (split; [done|]); (split; [done|]).
  all: rewrite <- ?app_assoc, ?app_nil_r; reflexivity.
Qed.

(** *** Shutdown while a flush is in progress *)









(** *** The promise of a checkpoint in flush *)

(** What one call does to a checkpoint that is prepared for flush or
    flushing: it keeps it in one of these two states with the promise it
    has, or destroys it, and then that promise has been fulfilled once. *)
Definition flush_kept (m m' : CPManager) : Prop :=
  forall p cp,
    m_heap m !! p = Some cp ->
    (m_cp_status cp = cp_flush_prepare \/ m_cp_status cp = cp_flushing) ->
    (exists cp', m_heap m' !! p = Some cp' /\
                 m_comp_promise cp' = m_comp_promise cp /\
                 (m_cp_status cp' = cp_flush_prepare \/ m_cp_status cp' = cp_flushing)) \/
    (m_heap m' !! p = None /\
     resolved_count (m_comp_promise cp) (m_trace m') = 1%nat).

Ltac solve_flush_kept Hres Hunb :=
  let Hl := fresh "Hl" in
  let Hs := fresh "Hs" in
  unfold flush_kept; simpl; intros ? ? Hl Hs;
  first
    [ apply lookup_singleton_Some in Hl as [-> <-]
    | apply lookup_insert_Some in Hl
        as [[-> <-]|[? [-> <-]%lookup_singleton_Some]] ];
  simpl in Hs; destruct Hs as [Hs|Hs]; try discriminate; subst;
  first
    [ left; eexists; split; [run; reflexivity | simpl; split; [done|by auto]]
    | right; split; [by run | simpl; trace_facts Hres Hunb] ].

Ltac finish_flush Hres Hunb :=
  first
    [ by intros [=]
    | first [ intros [= <- <-] | intros [= <-] ]; solve_flush_kept Hres Hunb ].

Lemma cp_step_flush_kept m m' : cp_inv m -> cp_step m m' -> flush_kept m m'.
Proof.
  intros Hinv Hs.
  assert (Hidle : forall c0 x, m_heap m = {[ c0 := x ]} ->
            m_cp_status x = cp_io_ready -> flush_kept m m').
  { intros c0 x Hh Hx p y Hl Hy. rewrite Hh in Hl.
    apply lookup_singleton_Some in Hl as [-> <-]. destruct Hy; congruence. }
  destruct Hs as [idx cb m m' Hm|m o m' Hm|p m m' Hm
    |p cp0 m m' Hp Hpos Hm|force fut m m' Hm|p cp0 now m m' Hp Hst0 Hm|fut m m' Hm];
    revert Hm.
  - open_inv Hinv m; [intros _; by eapply Hidle|].
    unfold register_consumer, get_cp, upd_cp; destruct cb as [cb|]; run;
      finish_flush Hres Hunb.
  - open_inv Hinv m; [intros _; by eapply Hidle|].
    unfold cp_io_enter, cp_ref, get_cp, upd_cp, dbg_assert;
      destruct NDEBUG; run; finish_flush Hres Hunb.
  - open_inv Hinv m; [intros _; by eapply Hidle|].
    unfold cp_ref, get_cp, upd_cp, dbg_assert.
    destruct Hfst as [->| ->];
      (destruct (decide (p = c)) as [->|Hp];
       [|destruct (decide (p = f)) as [->|Hp']]);
      destruct NDEBUG; run; finish_flush Hres Hunb.
  - revert Hp Hpos. open_inv Hinv m; [intros _ _ _; by eapply Hidle|].
    unfold cp_io_exit, cp_start_flush, get_cp, upd_cp, dbg_assert.
    destruct Hfst as [->| ->];
      (intros [[-> <-]|[Hp [-> <-]%lookup_singleton_Some]]%lookup_insert_Some;
       simpl; intros Hpos);
      destruct NDEBUG; run; split_zero_tests; finish_flush Hres Hunb.
  - open_inv Hinv m; [intros _; by eapply Hidle|]. unfold_calls.
    destruct Hfst as [->| ->];
      destruct force, NDEBUG, w; run; split_zero_tests; finish_flush Hres Hunb.
  - revert Hp Hst0. open_inv Hinv m; [intros _ _ _; by eapply Hidle|].
    intros [[-> <-]|[Hp [-> <-]%lookup_singleton_Some]]%lookup_insert_Some;
      simpl; [intros ->|done].
    unfold on_cp_flush_done, cleanup_cp, sb_write, reset_cp, set_cp; unfold_calls.
    destruct NDEBUG, sd, w; run; split_zero_tests; finish_flush Hres Hunb.
  - unfold shutdown_trigger. open_inv Hinv m; [intros _; by eapply Hidle|].
    unfold_calls.
    destruct Hfst as [->| ->];
      destruct NDEBUG, w; run; split_zero_tests; finish_flush Hres Hunb.
Qed.

(** The promise [q] of a checkpoint [p] that was seen in flush. *)
Definition flush_promise (p : cp_ptr) (q : promise_id) (m : CPManager) : Prop :=
  match m_heap m !! p with
  | Some cp =>
      m_comp_promise cp = q /\
      (m_cp_status cp = cp_flush_prepare \/ m_cp_status cp = cp_flushing) /\
      resolved_count q (m_trace m) = 0%nat
  | None => resolved_count q (m_trace m) = 1%nat
  end.

Lemma flush_promise_step p q m m' :
  cp_inv m -> (p < m_next_addr m)%nat -> flush_promise p q m ->
  cp_step m m' ->
  flush_promise p q m' /\ (p < m_next_addr m')%nat.
Proof.
  intros Hinv Hlt Hf Hs.
  destruct (cp_step_post _ _ Hinv Hs) as [Hinv' [es Htr] _ Haddr _ Hdead].
  pose proof (cp_step_flush_kept _ _ Hinv Hs) as Hkeep.
  split; [|lia]. unfold flush_promise in *.
  destruct (m_heap m !! p) as [cp|] eqn:Hp.
  - destruct Hf as (Hq & Hst & Hr).
    destruct (Hkeep p cp Hp Hst) as [(cp' & Hp' & Hq' & Hst')|[Hp' Hr']].
    + rewrite Hp'. split; [congruence|]. split; [done|].
      destruct (inv_lookup_ok _ _ _ Hinv' Hp') as (_ & _ & Hr' & _). congruence.
    + rewrite Hp'. congruence.
  - rewrite (Hdead p Hlt Hp).
    pose proof (inv_resolved _ Hinv' q) as Hle.
    rewrite Htr, resolved_count_app in *. lia.
Qed.

(** A checkpoint that is prepared for flush or flushing keeps its promise,
    unfulfilled, through every call until it is destroyed; from then on the
    promise has been fulfilled exactly once. Completing its flush is a call
    that destroys it. *)
Theorem flush_promise_fulfilled_on_completion
    (m : CPManager) (p0 : cp_ptr) (cp0 : CP) :
  reachable m ->
  m_heap m !! p0 = Some cp0 ->
  (m_cp_status cp0 = cp_flush_prepare \/ m_cp_status cp0 = cp_flushing) ->
  forall m2, rtc cp_step m m2 ->
    match m_heap m2 !! p0 with
    | Some cp2 =>
        m_comp_promise cp2 = m_comp_promise cp0 /\
        (m_cp_status cp2 = cp_flush_prepare \/ m_cp_status cp2 = cp_flushing) /\
        resolved_count (m_comp_promise cp0) (m_trace m2) = 0%nat /\
        (m_cp_status cp2 = cp_flushing ->
         forall now, exists m3,
           on_cp_flush_done p0 now m2 = Ok m3 /\
           m_heap m3 !! p0 = None /\
           resolved_count (m_comp_promise cp0) (m_trace m3) = 1%nat)
    | None => resolved_count (m_comp_promise cp0) (m_trace m2) = 1%nat
    end.
Proof.
  intros Hinv%reachable_inv Hp Hst m2 Hs.
  destruct (inv_lookup_ok _ _ _ Hinv Hp) as (Hlt & _ & Hr & _).
  assert (Hf : flush_promise p0 (m_comp_promise cp0) m)
    by (unfold flush_promise; by rewrite Hp).
  assert (Hall : forall a b, rtc cp_step a b -> cp_inv a -> (p0 < m_next_addr a)%nat ->
            flush_promise p0 (m_comp_promise cp0) a ->
            cp_inv b /\ (p0 < m_next_addr b)%nat /\
            flush_promise p0 (m_comp_promise cp0) b).
  { intros a b Hab. induction Hab as [|x y z Hxy _ IH]; intros Hi Hl Hfp; [done|].
    destruct (flush_promise_step _ _ _ _ Hi Hl Hfp Hxy) as [Hfp' Hl'].
    apply IH; [|done|done]. by apply (post_inv _ _ (cp_step_post _ _ Hi Hxy)). }
  destruct (Hall _ _ Hs Hinv Hlt Hf) as (Hinv2 & Hlt2 & Hf2).
  unfold flush_promise in Hf2.
  destruct (m_heap m2 !! p0) as [cp2|] eqn:Hp2; [|done].
  destruct Hf2 as (Hq2 & Hst2 & Hr2).
  split; [done|]. split; [done|]. split; [done|].
  intros Hfl now.
  destruct (on_cp_flush_done_effects _ _ now _ Hinv2 Hp2 Hfl)
    as (m3 & post & Hd & Hp3 & _).
  exists m3. split; [done|]. split; [done|].
  assert (Hstep : cp_step m2 m3) by (by eapply step_flush_done).
  assert (Hf2' : flush_promise p0 (m_comp_promise cp0) m2).
  { unfold flush_promise. rewrite Hp2. done. }
  destruct (flush_promise_step _ _ _ _ Hinv2 Hlt2 Hf2' Hstep) as [Hf3 _].
  unfold flush_promise in Hf3. by rewrite Hp3 in Hf3.
Qed.

End Manager.

(** *** A concrete manager

    A debug build with two consumer slots, one of them registered; the
    context a consumer returns is the address of the new checkpoint. *)

Definition ex_magic : Z := 7.
Definition ex_version : Z := 1.
Definition ex_cb : CPCallbacks nat := mk_cb nat (fun _ new => new).

Definition state_of {A : Type} (r : result (A * CPManager nat))
    (otherwise : CPManager nat) : CPManager nat :=
  match r with
  | Ok (_, m) => m
  | Fatal _ => otherwise
  end.

(** First boot. *)
Definition ex_boot : CPManager nat :=
  start nat ex_magic ex_version 2 true (CPManager_ctor nat 2 10).

(** One consumer registers. *)
Definition ex_registered : CPManager nat :=
  match register_consumer nat 0 (Some ex_cb) ex_boot with
  | Ok m => m
  | Fatal _ => ex_boot
  end.

(** A producer enters the current checkpoint. *)
Definition ex_entered : CPManager nat :=
  state_of (cp_io_enter nat false ex_registered) ex_boot.

(** The timer triggers a flush: checkpoint 0 is prepared, its producer is
    still inside. *)
Definition ex_prepared : CPManager nat :=
  state_of (trigger_cp_flush nat false 2 false ex_entered) ex_boot.

(** The producer leaves: checkpoint 0 is flushing. *)
Definition ex_flushing : CPManager nat :=
  match cp_io_exit nat false 0 ex_prepared with
  | Ok m => m
  | Fatal _ => ex_boot
  end.

Definition ex_old_cp (m : CPManager nat) : CP nat :=
  match m_heap nat m !! 0%nat with
  | Some c => c
  | None => mk_cp nat cp_unknown 0 0 false 0 []
  end.

Lemma ex_registered_reachable : reachable nat false ex_magic ex_version 2 ex_registered.
Proof.
  exists ex_boot. split; [apply boot_first|].
  eapply rtc_l; [|apply rtc_refl].
  eapply step_register with (idx := 0%nat) (cb := Some ex_cb). vm_compute. reflexivity.
Qed.

Lemma reachable_step m m' :
  reachable nat false ex_magic ex_version 2 m ->
  cp_step nat false 2 m m' ->
  reachable nat false ex_magic ex_version 2 m'.
Proof.
  intros (m0 & Hb & Hs) Hstep. exists m0. split; [done|].
  eapply rtc_r; eauto.
Qed.

Lemma ex_entered_reachable : reachable nat false ex_magic ex_version 2 ex_entered.
Proof.
  eapply reachable_step; [apply ex_registered_reachable|].
  eapply step_io_enter with (o := Some 0%nat). vm_compute. reflexivity.
Qed.

Lemma ex_prepared_reachable : reachable nat false ex_magic ex_version 2 ex_prepared.
Proof.
  eapply reachable_step; [apply ex_entered_reachable|].
  eapply step_trigger with (force := false). vm_compute. reflexivity.
Qed.

Lemma ex_flushing_reachable : reachable nat false ex_magic ex_version 2 ex_flushing.
Proof.
  eapply reachable_step; [apply ex_prepared_reachable|].
  eapply step_io_exit with (p := 0%nat) (cp := ex_old_cp ex_prepared);
    [vm_compute; reflexivity | vm_compute; reflexivity | vm_compute; reflexivity].
Qed.

(** An interleaved run. Thread A calls [trigger_cp_flush(false)] on
    [ex_registered] and wins the compare-and-exchange; before A goes on,
    thread B forces a flush; A then takes its guard, marks checkpoint 0,
    allocates checkpoint 1, goes through the locked block and drops its
    guard, which starts the flush of checkpoint 0; thread C forces a flush
    while that flush is in progress. *)
Definition ex_cas : CPManager nat := (trigger_cas nat ex_registered).2.

Definition ex_forced_early : CPManager nat :=
  state_of (trigger_cp_flush nat false 2 true ex_cas) ex_boot.

Definition ex_guarded : CPManager nat :=
  state_of (CPGuard_ctor nat false ex_forced_early) ex_boot.

Definition ex_marked : CPManager nat :=
  match trigger_mark nat 0 ex_guarded with
  | Ok m => m
  | Fatal _ => ex_boot
  end.

Definition ex_allocated : CPManager nat := (new_CP nat 2 ex_marked).2.

Definition ex_locked : CPManager nat :=
  state_of (switchover_prepare nat 0 1 ex_allocated) ex_boot.

Definition ex_swapped : CPManager nat := switchover_swap nat 1 ex_locked.

Definition ex_switched : CPManager nat :=
  match CPGuard_dtor nat false (mk_guard (Some 0%nat) true) ex_swapped with
  | Ok m => m
  | Fatal _ => ex_boot
  end.

Definition ex_forced_late : CPManager nat :=
  state_of (trigger_cp_flush nat false 2 true ex_switched) ex_boot.

Lemma fine_reachable_steps m m' :
  fine_reachable nat false ex_magic ex_version 2 m ->
  rtc (fine_step nat false 2) m m' ->
  fine_reachable nat false ex_magic ex_version 2 m'.
Proof.
  intros (m0 & Hb & Hs) Hs'. exists m0. split; [done|]. by eapply rtc_trans.
Qed.

Lemma ex_cas_fine_reachable :
  fine_reachable nat false ex_magic ex_version 2 ex_cas.
Proof.
  eapply fine_reachable_steps;
    [apply reachable_fine_reachable, ex_registered_reachable|].
  apply rtc_once, fine_cas. vm_compute. reflexivity.
Qed.

Lemma ex_forced_early_fine_reachable :
  fine_reachable nat false ex_magic ex_version 2 ex_forced_early.
Proof.
  eapply fine_reachable_steps; [apply ex_cas_fine_reachable|].
  apply (proj1 (trigger_cp_flush_fine_run nat false 2 true (FromPromise 1%nat)
                  ex_cas ex_forced_early
                  (fine_reachable_inv _ _ _ _ _ _ ex_cas_fine_reachable)
                  ltac:(vm_compute; reflexivity))).
Qed.

Lemma ex_allocated_fine_reachable :
  fine_reachable nat false ex_magic ex_version 2 ex_allocated.
Proof.
  eapply fine_reachable_steps; [apply ex_forced_early_fine_reachable|].
  eapply rtc_trans.
  { apply (proj1 (CPGuard_ctor_fine_run nat false 2 ex_forced_early
                    (mk_guard (Some 0%nat) true) ex_guarded
                    ltac:(vm_compute; reflexivity))). }
  eapply rtc_l; [apply (fine_mark nat false 2 0%nat ex_guarded ex_marked);
                 vm_compute; reflexivity|].
  apply rtc_once. apply (fine_new nat false 2 ex_marked).
Qed.

Lemma ex_switched_fine_reachable :
  fine_reachable nat false ex_magic ex_version 2 ex_switched.
Proof.
  eapply fine_reachable_steps; [apply ex_allocated_fine_reachable|].
  eapply rtc_l; [apply (fine_prepare nat false 2 0%nat 1%nat (Ready true)
                          ex_allocated ex_locked); vm_compute; reflexivity|].
  eapply rtc_l; [apply (fine_swap nat false 2 1%nat ex_locked)|].
  fold ex_swapped.
  apply (proj1 (CPGuard_dtor_fine_run nat false 2 (mk_guard (Some 0%nat) true)
                  ex_swapped ex_switched
                  ltac:(intros p [= <-]; eexists;
                        split; [vm_compute; reflexivity|simpl; lia])
                  ltac:(vm_compute; reflexivity))).
Qed.

Lemma ex_forced_late_fine_reachable :
  fine_reachable nat false ex_magic ex_version 2 ex_forced_late.
Proof.
  eapply fine_reachable_steps; [apply ex_switched_fine_reachable|].
  apply (proj1 (trigger_cp_flush_fine_run nat false 2 true (FromPromise 3%nat)
                  ex_switched ex_forced_late
                  (fine_reachable_inv _ _ _ _ _ _ ex_switched_fine_reachable)
                  ltac:(vm_compute; reflexivity))).
Qed.

(** The theorems above at these states. *)




(** C3 as the specification words it fails: checkpoint 0 is in
    [cp_flush_prepare] with one entry, and [cp_ref], in a debug build,
    returns normally and leaves it with two. *)
Lemma cp_ref_enters_prepared_checkpoint :
  reachable nat false ex_magic ex_version 2 ex_prepared /\
  m_heap nat ex_prepared !! 0%nat = Some (ex_old_cp ex_prepared) /\
  m_cp_status nat (ex_old_cp ex_prepared) = cp_flush_prepare /\
  m_enter_cnt nat (ex_old_cp ex_prepared) = 1 /\
  exists m',
    cp_ref nat false 0 ex_prepared = Ok m' /\
    is_Some (m_heap nat m' !! 0%nat) /\
    m_cp_status nat (ex_old_cp m') = cp_flush_prepare /\
    m_enter_cnt nat (ex_old_cp m') = 2.
Proof.
  split; [apply ex_prepared_reachable|].
  split; [vm_compute; reflexivity|]. split; [vm_compute; reflexivity|].
  split; [vm_compute; reflexivity|].
  eexists. split; [vm_compute; reflexivity|].
  split; [vm_compute; by eexists|]. split; vm_compute; reflexivity.
Qed.

Lemma cp_io_enter_enters_current_only_witness :
  fine_reachable nat false ex_magic ex_version 2 ex_allocated /\
  m_cur_cp nat ex_allocated = Some 0%nat /\
  m_cp_status nat (ex_old_cp ex_allocated) = cp_trigger /\
  cp_io_enter nat false ex_allocated
  = Ok (Some 0%nat,
        upd_cp nat 0 (set_enter_cnt nat (m_enter_cnt nat (ex_old_cp ex_allocated) + 1))
               ex_allocated) /\
  exists cp',
    m_cur_cp nat ex_locked = Some 0%nat /\
    m_heap nat ex_locked !! 0%nat = Some cp' /\
    m_cp_status nat cp' = cp_flush_prepare /\
    cp_io_enter nat false ex_locked
    = Ok (Some 0%nat,
          upd_cp nat 0 (set_enter_cnt nat (m_enter_cnt nat (ex_old_cp ex_allocated) + 1))
                 ex_locked).
Proof.
  split; [apply ex_allocated_fine_reachable|]. split; [reflexivity|].
  split; [reflexivity|].
  destruct (cp_io_enter_enters_current_only nat false
              ex_allocated 0%nat (ex_old_cp ex_allocated) eq_refl eq_refl)
    as (H1 & _ & _ & _ & _ & H5).
  split; [apply H1; right; left; reflexivity|].
  destruct (H5 1%nat (Ready true) ex_locked) as (cp' & Hc & Hp & Hst & _ & He & _).
  - discriminate.
  - vm_compute. reflexivity.
  - exists cp'. split; [exact Hc|]. split; [exact Hp|]. split; [exact Hst|exact He].
Defined.

Lemma trigger_cp_flush_switchover_witness :
  reachable nat false ex_magic ex_version 2 ex_entered /\
  m_in_flush_phase nat ex_entered = false /\
  is_Ok (trigger_cp_flush nat false 2 false ex_entered).
Proof.
  split; [apply ex_entered_reachable|]. split; [reflexivity|].
  destruct (trigger_cp_flush_switchover nat false ex_magic ex_version 2 false
              ex_entered ex_entered_reachable eq_refl)
    as (cur & cur_cp & new & fut & g & mc & new_cp & old_cp
        & _ & _ & _ & _ & _ & H & _).
  exact H.
Defined.

Lemma on_cp_flush_done_persists_frontier_witness :
  reachable nat false ex_magic ex_version 2 ex_flushing /\
  m_heap nat ex_flushing !! 0%nat = Some (ex_old_cp ex_flushing) /\
  m_cp_status nat (ex_old_cp ex_flushing) = cp_flushing /\
  exists m',
    on_cp_flush_done nat false 2 0 5 ex_flushing = Ok m' /\
    m_cp_id nat (ex_old_cp ex_flushing) = m_last_flushed_cp (m_sb nat ex_flushing) + 1.
Proof.
  assert (H1 : m_heap nat ex_flushing !! 0%nat = Some (ex_old_cp ex_flushing))
    by (vm_compute; reflexivity).
  assert (H2 : m_cp_status nat (ex_old_cp ex_flushing) = cp_flushing)
    by (vm_compute; reflexivity).
  split; [apply ex_flushing_reachable|]. split; [exact H1|]. split; [exact H2|].
  destruct (on_cp_flush_done_persists_frontier nat false ex_magic ex_version 2
              ex_flushing 0%nat (ex_old_cp ex_flushing) 5
              ex_flushing_reachable H1 H2)
    as (m' & post & Hd & _ & _ & _ & Hid & _).
  exists m'. split; [exact Hd|exact Hid].
Defined.

(** The watchdog at a stuck checkpoint: checkpoint 0 has been flushing for
    twenty timer intervals and the only consumer reports 50 percent; the
    tick does nothing. *)
Definition ex_stuck : CPManager nat :=
  set_wd nat (mk_wd (Some 0%nat) 50 0 10) ex_flushing.

Lemma cp_watchdog_timer_silent_when_stuck :
  m_cp_status nat (ex_old_cp ex_stuck) = cp_flushing /\
  cp_watchdog_timer nat (fun _ => 50) (20 * 10 * 1000) ex_stuck = Ok ([], ex_stuck) /\
  watchdog_check nat (fun _ => 50) (20 * 10 * 1000) ex_stuck = Ok ([WdLogInfo], ex_stuck) /\
  watchdog_check nat (fun _ => 50) (2 * 10 * 1000) ex_stuck
  = Ok ([WdLogInfo; WdRepairSlowCp 0], ex_stuck) /\
  watchdog_check nat (fun _ => 100) (2 * 10 * 1000) ex_stuck = Fatal REL_ASSERT.
Proof. repeat split; vm_compute; reflexivity. Qed.

(** The flush of checkpoint 0 completes; and a shutdown that begins while
    checkpoint 0 is flushing, followed by the completion of that flush. *)
Definition ex_done : CPManager nat :=
  match on_cp_flush_done nat false 2 0 5 ex_flushing with
  | Ok m => m
  | Fatal _ => ex_boot
  end.



Lemma ex_done_reachable : reachable nat false ex_magic ex_version 2 ex_done.
Proof.
  eapply reachable_step; [apply ex_flushing_reachable|].
  eapply step_flush_done with (p := 0%nat) (cp := ex_old_cp ex_flushing) (now := 5);
    [vm_compute; reflexivity | vm_compute; reflexivity | vm_compute; reflexivity].
Qed.

Lemma promise_fulfilled_at_most_once_witness :
  resolved_count (m_comp_promise nat (ex_old_cp ex_flushing)) (m_trace nat ex_done) = 1%nat /\
  (resolved_count (m_comp_promise nat (ex_old_cp ex_flushing)) (m_trace nat ex_done)
   <= 1)%nat.
Proof.
  split; [vm_compute; reflexivity|].
  apply (promise_fulfilled_at_most_once nat false ex_magic ex_version 2 ex_done
           (m_comp_promise nat (ex_old_cp ex_flushing)) ex_done_reachable).
Defined.

Lemma checkpoints_under_interleaving_witness :
  fine_reachable nat false ex_magic ex_version 2 ex_forced_late /\
  (forall q, (resolved_count q (m_trace nat ex_forced_late) <= 1)%nat) /\
  m_comp_promise nat (ex_old_cp ex_forced_late) <> 3%nat.
Proof.
  split; [apply ex_forced_late_fine_reachable|].
  destruct (checkpoints_under_interleaving nat false ex_magic ex_version 2
              ex_forced_late ex_forced_late_fine_reachable) as (_ & H2 & H3 & _).
  split; [exact H3|].
  apply (H2 0%nat 1%nat (ex_old_cp ex_forced_late)
            (mk_cp nat cp_io_ready 0 3 true 2 [Some 1%nat; None])).
  - vm_compute. reflexivity.
  - vm_compute. reflexivity.
  - discriminate.
Defined.


Lemma cp_guard_enter_exit_witness :
  exists g m1,
    CPGuard_ctor nat false ex_entered = Ok (g, m1) /\
    CPGuard_dtor nat false g m1 = Ok ex_entered.
Proof.
  destruct (cp_guard_enter_exit nat false ex_magic ex_version 2 ex_entered
              ex_entered_reachable) as (g & m1 & c & cp & cp1 & H1 & _ & _ & _ & _ & _ & H2).
  exists g, m1. split; [exact H1|exact H2].
Defined.

Lemma trigger_cp_flush_when_idle_witness :
  exists fut m' old,
    trigger_cp_flush nat false 2 false ex_registered = Ok (fut, m') /\
    m_heap nat m' !! 0%nat = Some old /\
    m_cp_status nat old = cp_flushing.
Proof.
  destruct (trigger_cp_flush_when_idle nat false ex_magic ex_version 2 false
              ex_registered 0%nat (ex_old_cp ex_registered)
              ex_registered_reachable eq_refl eq_refl eq_refl)
    as (fut & m' & old & H1 & H2 & _ & H3 & _).
  exists fut, m', old. split; [exact H1|]. split; [exact H2|exact H3].
Defined.


Lemma flush_promise_fulfilled_on_completion_witness :
  resolved_count (m_comp_promise nat (ex_old_cp ex_prepared)) (m_trace nat ex_done)
  = 1%nat.
Proof.
  assert (Hs : rtc (cp_step nat false 2) ex_prepared ex_done).
  { eapply rtc_l; [|apply rtc_once].
    - eapply step_io_exit with (p := 0%nat) (cp := ex_old_cp ex_prepared);
        [vm_compute; reflexivity | vm_compute; reflexivity | vm_compute; reflexivity].
    - eapply step_flush_done with (p := 0%nat) (cp := ex_old_cp ex_flushing) (now := 5);
        [vm_compute; reflexivity | vm_compute; reflexivity | vm_compute; reflexivity]. }
  exact (flush_promise_fulfilled_on_completion nat false ex_magic ex_version 2
           ex_prepared 0%nat (ex_old_cp ex_prepared) ex_prepared_reachable
           eq_refl (or_introl eq_refl) ex_done Hs).
Defined.

End Checkpoint.

(** ** Device manager *)

Module DeviceMgr.

(** *** Library types the device manager is written with *)


(** [sisl::sparse_vector]: a vector whose [operator[]] first grows it with
    empty slots up to the index. [None] is a null pointer. *)
Definition sv_fill {A : Type} (i : nat) (v : list (option A)) : list (option A) :=
  v ++ replicate (S i - length v) None.

Definition sv_get {A : Type} (v : list (option A)) (i : nat)
  : list (option A) * option A :=
  (sv_fill i v, mjoin (sv_fill i v !! i)).

Definition sv_set {A : Type} (v : list (option A)) (i : nat) (x : option A)
  : list (option A) :=
  <[i := x]> (sv_fill i v).

(** [sisl::Bitset] of [cap] bits, as the set of the bits that are set.
    [get_next_reset_bit(0)] is the first clear bit, [npos] ([None]) when all
    are set. *)
Fixpoint first_reset_bit (bm : gset nat) (from n : nat) : option nat :=
  match n with
  | O => None
  | S n' => if bool_decide (from ∈ bm) then first_reset_bit bm (S from) n'
            else Some from
  end.

Definition get_next_reset_bit (cap : nat) (bm : gset nat) : option nat :=
  first_reset_bit bm 0 cap.

Definition set_bit (i : nat) (bm : gset nat) : gset nat := {[ i ]} ∪ bm.

(** Modelled from the spec: [sisl::round_up] is not among the sources; the
    design document has it round its first argument up to the nearest
    multiple of the second. Both are [uint64_t]; a zero multiple divides by
    zero. *)
Definition round_up (num_to_round multiple : Z) : result Z :=
  if multiple =? 0 then Fatal DIV_BY_ZERO
  else Ok (wrap64 (wrap64 (num_to_round + multiple - 1) / multiple * multiple)).

(** *** Data *)

Inductive HSDevType : Type := Data | Fast.

#[global] Instance HSDevType_eq_dec : EqDecision HSDevType.
Proof. solve_decision. Defined.

Inductive vdev_multi_pdev_opts_t : Type :=
  | ALL_PDEV_STRIPED
  | ALL_PDEV_MIRRORED
  | SINGLE_FIRST_PDEV
  | SINGLE_ANY_PDEV.

#[global] Instance vdev_multi_pdev_opts_eq_dec : EqDecision vdev_multi_pdev_opts_t.
Proof. solve_decision. Defined.

Record dev_info : Type := mk_dev_info {
  dev_name : string;
  dev_type : HSDevType;
  dev_size : Z
}.

Record first_block_header : Type := mk_fb_hdr {
  version : Z;
  gen_number : Z;
  num_pdevs : Z;
  system_uuid : Z
}.

Record pdev_info_header : Type := mk_pdev_hdr {
  pdev_id : nat;
  pdev_system_uuid : Z
}.

Record first_block : Type := mk_first_block {
  hdr : first_block_header;
  this_pdev_hdr : pdev_info_header
}.

Record vdev_info : Type := mk_vdev_info {
  vdev_size : Z;
  vdev_id : nat;
  num_mirrors : Z;
  blk_size : Z;
  num_primary_chunks : Z;
  slot_allocated : bool;
  vi_dev_type : HSDevType;
  vi_pdev_choice : vdev_multi_pdev_opts_t;
  vi_name : string;
  checksum : Z
}.

Definition set_checksum (c : Z) (v : vdev_info) : vdev_info :=
  let '(mk_vdev_info a b c0 d e f g h i _) := v in mk_vdev_info a b c0 d e f g h i c.

Record Chunk : Type := mk_chunk {
  chunk_id : nat;
  chunk_vdev_id : nat;
  chunk_pdev_id : nat;
  chunk_size : Z
}.

(** What is stored on one device: its first block, the slots of the vdev
    super block and the chunk records in use. *)
Record device_image : Type := mk_image {
  img_first_block : first_block;
  img_vdev_slots : list vdev_info;
  img_chunks : list Chunk
}.

(** An open device: its description, its header, what it stores, its number
    of streams, and the chunks it holds in memory. *)
Record PhysicalDev : Type := mk_pdev {
  pd_info : dev_info;
  pd_hdr : pdev_info_header;
  pd_image : device_image;
  num_streams : Z;
  pd_chunks : list Chunk
}.

(** A virtual device as the manager's callback builds it: the vdev record
    and the chunks added to it so far. *)
Record VirtualDev : Type := mk_vdev {
  vd_info : vdev_info;
  vd_chunks : list Chunk
}.

Definition add_chunk (c : Chunk) (v : VirtualDev) : VirtualDev :=
  mk_vdev (vd_info v) (vd_chunks v ++ [c]).

Record vdev_parameters : Type := mk_vparam {
  vp_name : string;
  vp_vdev_size : Z;
  vp_num_chunks : Z;
  vp_blk_size : Z;
  vp_dev_type : HSDevType;
  vp_multi_pdev_opts : vdev_multi_pdev_opts_t
}.

Inductive log_event : Type :=
  | WarnDanglingChunk (chunk vdev : nat).

(** The manager. A [PhysicalDev*] is the index of the device in
    [m_all_pdevs]; [m_pdevs_by_type] is an ordered map with the two keys
    [Data] and [Fast]. *)
Record DeviceManager : Type := mk_dm {
  m_dev_infos : list dev_info;
  m_first_blk_hdr : first_block_header;
  m_pdevs_data : option (list nat);
  m_pdevs_fast : option (list nat);
  m_all_pdevs : list (option PhysicalDev);
  m_vdevs : list (option VirtualDev);
  m_chunks : list (option Chunk);
  m_vdev_id_bm : gset nat;
  m_chunk_id_bm : gset nat;
  m_log : list log_event
}.

Definition set_pdevs_data (x : option (list nat)) (dm : DeviceManager) :=
  let '(mk_dm a b _ d e f g h i j) := dm in mk_dm a b x d e f g h i j.
Definition set_pdevs_fast (x : option (list nat)) (dm : DeviceManager) :=
  let '(mk_dm a b c _ e f g h i j) := dm in mk_dm a b c x e f g h i j.
Definition set_all_pdevs (x : list (option PhysicalDev)) (dm : DeviceManager) :=
  let '(mk_dm a b c d _ f g h i j) := dm in mk_dm a b c d x f g h i j.
Definition set_vdevs (x : list (option VirtualDev)) (dm : DeviceManager) :=
  let '(mk_dm a b c d e _ g h i j) := dm in mk_dm a b c d e x g h i j.
Definition set_chunks (x : list (option Chunk)) (dm : DeviceManager) :=
  let '(mk_dm a b c d e f _ h i j) := dm in mk_dm a b c d e f x h i j.
Definition set_vdev_id_bm (x : gset nat) (dm : DeviceManager) :=
  let '(mk_dm a b c d e f g _ i j) := dm in mk_dm a b c d e f g x i j.
Definition set_chunk_id_bm (x : gset nat) (dm : DeviceManager) :=
  let '(mk_dm a b c d e f g h _ j) := dm in mk_dm a b c d e f g h x j.
Definition log (e : log_event) (dm : DeviceManager) :=
  let '(mk_dm a b c d e0 f g h i j) := dm in mk_dm a b c d e0 f g h i (j ++ [e]).

Definition pdevs_find (t : HSDevType) (dm : DeviceManager) : option (list nat) :=
  match t with
  | Data => m_pdevs_data dm
  | Fast => m_pdevs_fast dm
  end.

Definition pdevs_store (t : HSDevType) (l : list nat) (dm : DeviceManager)
  : DeviceManager :=
  match t with
  | Data => set_pdevs_data (Some l) dm
  | Fast => set_pdevs_fast (Some l) dm
  end.

(** Dereference of a [PhysicalDev*]. *)
Definition get_pdev (i : nat) (dm : DeviceManager) : result PhysicalDev :=
  match mjoin (m_all_pdevs dm !! i) with
  | Some p => Ok p
  | None => Fatal NULL_DEREF
  end.

Fixpoint get_pdevs (ids : list nat) (dm : DeviceManager) : result (list PhysicalDev) :=
  match ids with
  | [] => Ok []
  | i :: ids' => p ← get_pdev i dm; ps ← get_pdevs ids' dm; Ok (p :: ps)
  end.

Section Manager.

(** Constants of [first_block_header] and [hs_super_blk], the CRC of a vdev
    record (taken over the record with its checksum field zeroed) and
    [hs_super_blk::max_chunks_in_pdev]: their definitions are not in this
    file of the sources. *)
Variable CURRENT_SUPERBLOCK_VERSION : Z.
Variable MAX_VDEVS_IN_SYSTEM : nat.
Variable MAX_CHUNKS_IN_SYSTEM : nat.
Variable crc16_t10dif : vdev_info -> Z.
Variable max_chunks_in_pdev : dev_info -> Z.

(** What the devices presented to the manager store, and the number of
    streams each drive reports. *)
Variable read_device : string -> device_image.
Variable drive_streams : string -> Z.

(** [PhysicalDev(dinfo, flags, pinfo)]. *)
Definition PhysicalDev_ctor (d : dev_info) (pinfo : pdev_info_header) : PhysicalDev :=
  mk_pdev d pinfo (read_device (dev_name d)) (drive_streams (dev_name d)) [].

(** *** [load_vdevs] *)

(** The loop of [read_vdev_infos] over the slots of the vdev super block. *)
Fixpoint read_vdev_slots (slots : list vdev_info) : result (list vdev_info) :=
  match slots with
  | [] => Ok []
  | vinfo :: slots' =>
      vinfo' ← (if bool_decide (checksum vinfo <> 0) then
                  let expected_crc := checksum vinfo in
                  let crc := crc16_t10dif (set_checksum 0 vinfo) in
                  if bool_decide (crc = expected_crc)
                  then Ok (set_checksum crc vinfo)
                  else Fatal REL_ASSERT
                else Ok vinfo);
      rest ← read_vdev_slots slots';
      Ok (if slot_allocated vinfo' then vinfo' :: rest else rest)
  end.

(** [read_vdev_infos(pdevs)] reads the first device of the list only. *)
Definition read_vdev_infos (pdevs : list nat) (dm : DeviceManager)
  : result (list vdev_info) :=
  match pdevs with
  | [] => Fatal NULL_DEREF
  | p0 :: _ =>
      pdev ← get_pdev p0 dm;
      read_vdev_slots (take MAX_VDEVS_IN_SYSTEM (img_vdev_slots (pd_image pdev)))
  end.

(** [m_vdev_create_cb(vinfo, load_existing)]: the upper layer builds the
    virtual device from its record; it has no chunks yet. *)
Definition vdev_create_cb (vinfo : vdev_info) (load_existing : bool) : VirtualDev :=
  mk_vdev vinfo [].

Fixpoint register_vdevs (vinfos : list vdev_info) (dm : DeviceManager) : DeviceManager :=
  match vinfos with
  | [] => dm
  | vinfo :: rest =>
      let dm1 := set_vdev_id_bm (set_bit (vdev_id vinfo) (m_vdev_id_bm dm)) dm in
      let dm2 := set_vdevs (sv_set (m_vdevs dm1) (vdev_id vinfo)
                              (Some (vdev_create_cb vinfo true))) dm1 in
      register_vdevs rest dm2
  end.

(** The first loop of [load_vdevs], over the entries of [m_pdevs_by_type]. *)
Definition load_vdev_infos (dm : DeviceManager) : result DeviceManager :=
  dm1 ← match m_pdevs_data dm with
        | Some pdevs => vs ← read_vdev_infos pdevs dm; Ok (register_vdevs vs dm)
        | None => Ok dm
        end;
  match m_pdevs_fast dm1 with
  | Some pdevs => vs ← read_vdev_infos pdevs dm1; Ok (register_vdevs vs dm1)
  | None => Ok dm1
  end.

(** The callback [load_vdevs] hands to [load_chunks]. *)
Definition chunk_found (chunk : Chunk) (dm : DeviceManager) : bool * DeviceManager :=
  let '(vdevs, v) := sv_get (m_vdevs dm) (chunk_vdev_id chunk) in
  let dm1 := set_vdevs vdevs dm in
  match v with
  | None => (false, log (WarnDanglingChunk (chunk_id chunk) (chunk_vdev_id chunk)) dm1)
  | Some vdev =>
      let dm2 := set_chunk_id_bm (set_bit (chunk_id chunk) (m_chunk_id_bm dm1)) dm1 in
      let dm3 := set_chunks (sv_set (m_chunks dm2) (chunk_id chunk) (Some chunk)) dm2 in
      (true, set_vdevs (sv_set (m_vdevs dm3) (chunk_vdev_id chunk)
                          (Some (add_chunk chunk vdev))) dm3)
  end.

(** Modelled from the spec: [PhysicalDev::load_chunks] is not among the
    sources. It reads the chunk records the device stores, calls the
    callback on each and keeps the chunk when the callback says so. *)
Fixpoint load_chunks (chunks kept : list Chunk) (dm : DeviceManager)
  : list Chunk * DeviceManager :=
  match chunks with
  | [] => (kept, dm)
  | c :: chunks' =>
      let '(keep, dm1) := chunk_found c dm in
      load_chunks chunks' (if keep then kept ++ [c] else kept) dm1
  end.

(** The loop over [m_all_pdevs], from slot [i] on. *)
Fixpoint load_all_chunks (pdevs : list (option PhysicalDev)) (i : nat)
    (dm : DeviceManager) : result DeviceManager :=
  match pdevs with
  | [] => Ok dm
  | None :: _ => Fatal NULL_DEREF
  | Some pdev :: pdevs' =>
      let '(kept, dm1) := load_chunks (img_chunks (pd_image pdev)) (pd_chunks pdev) dm in
      let pdev' := mk_pdev (pd_info pdev) (pd_hdr pdev) (pd_image pdev)
                           (num_streams pdev) kept in
      load_all_chunks pdevs' (S i)
        (set_all_pdevs (<[i := Some pdev']> (m_all_pdevs dm1)) dm1)
  end.

Definition load_vdevs (dm : DeviceManager) : result DeviceManager :=
  dm1 ← load_vdev_infos dm;
  if bool_decide (length (m_vdevs dm1) <> 0%nat)
  then load_all_chunks (m_all_pdevs dm1) 0 dm1
  else Ok dm1.

(** *** [load_devices] *)

(** One round of the loop over [m_dev_infos]. *)
Definition open_device (d : dev_info) (dm : DeviceManager) : result DeviceManager :=
  let fblk := img_first_block (read_device (dev_name d)) in
  let pinfo := this_pdev_hdr fblk in
  if bool_decide (pdev_system_uuid pinfo = system_uuid (m_first_blk_hdr dm)) then
    let pdev := PhysicalDev_ctor d pinfo in
    let l := default [] (pdevs_find (dev_type d) dm) in
    let dm1 := pdevs_store (dev_type d) (l ++ [pdev_id pinfo]) dm in
    Ok (set_all_pdevs (sv_set (m_all_pdevs dm1) (pdev_id pinfo) (Some pdev)) dm1)
  else Fatal REL_ASSERT.

Fixpoint open_devices (ds : list dev_info) (dm : DeviceManager) : result DeviceManager :=
  match ds with
  | [] => Ok dm
  | d :: ds' => dm1 ← open_device d dm; open_devices ds' dm1
  end.

Definition load_devices (dm : DeviceManager) : result DeviceManager :=
  if bool_decide (version (m_first_blk_hdr dm) = CURRENT_SUPERBLOCK_VERSION) then
    if bool_decide (num_pdevs (m_first_blk_hdr dm) = Z.of_nat (length (m_dev_infos dm)))
    then
      dm1 ← open_devices (m_dev_infos dm) dm;
      load_vdevs dm1
    else Fatal REL_ASSERT
  else Fatal REL_ASSERT.

(** *** [create_vdev] *)

(** The tier asked for, else the data tier; with neither, the end iterator
    is dereferenced. *)
Definition pdevs_by_type_internal (dtype : HSDevType) (dm : DeviceManager)
  : result (list nat) :=
  match pdevs_find dtype dm with
  | Some l => Ok l
  | None => match pdevs_find Data dm with
            | Some l => Ok l
            | None => Fatal NULL_DEREF
            end
  end.

(** [std::accumulate] from [0u] over the streams of the devices. *)
Definition total_streams (pdevs : list PhysicalDev) : Z :=
  fold_left (fun r a => wrap32 (r + num_streams a)) pdevs 0.

(** The [uint32_t] sum of [max_chunks_in_pdev] over all devices. *)
Definition max_num_chunks (dm : DeviceManager) : Z :=
  fold_left (fun r d => wrap32 (r + max_chunks_in_pdev d)) (m_dev_infos dm) 0.

Definition set_num_chunks (n : Z) (v : vdev_parameters) : vdev_parameters :=
  let '(mk_vparam a b _ d e f) := v in mk_vparam a b n d e f.
Definition set_vdev_size (n : Z) (v : vdev_parameters) : vdev_parameters :=
  let '(mk_vparam a _ c d e f) := v in mk_vparam a n c d e f.

(** The part of [create_vdev] between the choice of the devices and the
    record: it settles the number of chunks, the devices kept, the size of
    the vdev and the size of a chunk. [num_chunks] and [blk_size] are
    [uint32_t], [vdev_size] is [uint64_t]. *)
Definition adjust_vdev_params (vparam : vdev_parameters) (pdevs : list nat)
    (dm : DeviceManager) : result (vdev_parameters * list nat * Z) :=
  '(num_chunks, pdevs1) ←
    match vp_multi_pdev_opts vparam with
    | ALL_PDEV_STRIPED =>
        ps ← get_pdevs pdevs dm;
        n ← round_up (vp_num_chunks vparam) (total_streams ps);
        Ok (wrap32 n, pdevs)
    | ALL_PDEV_MIRRORED =>
        match pdevs with
        | [] => Fatal NULL_DEREF
        | p0 :: _ =>
            pdev0 ← get_pdev p0 dm;
            n ← round_up (vp_num_chunks vparam) (num_streams pdev0);
            Ok (wrap32 (wrap64 (n * Z.of_nat (length pdevs))), pdevs)
        end
    | SINGLE_FIRST_PDEV => Ok (vp_num_chunks vparam, take 1 pdevs)
    | SINGLE_ANY_PDEV => Ok (vp_num_chunks vparam, take 1 pdevs)
    end;
  let num_chunks := Z.min num_chunks (max_num_chunks dm) in
  vdev_size ← round_up (vp_vdev_size vparam) (wrap32 (num_chunks * vp_blk_size vparam));
  if num_chunks =? 0 then Fatal DIV_BY_ZERO
  else
    let chunk_size := wrap32 (vdev_size / num_chunks) in
    Ok (set_vdev_size vdev_size (set_num_chunks num_chunks vparam), pdevs1, chunk_size).

(** Modelled from the spec: [vdev_info::compute_checksum] is not among the
    sources; the record is written with a checksum, and [read_vdev_infos]
    checks the CRC of the record taken with a zero checksum field. *)
Definition compute_checksum (v : vdev_info) : vdev_info :=
  set_checksum (crc16_t10dif (set_checksum 0 v)) v.

Definition populate_vdev_info (vparam : vdev_parameters) (vdev_id : nat)
    (pdevs : list nat) : vdev_info :=
  compute_checksum
    (mk_vdev_info
       (vp_vdev_size vparam)
       vdev_id
       (if decide (vp_multi_pdev_opts vparam = ALL_PDEV_MIRRORED)
        then Z.of_nat (length pdevs) else 0)
       (vp_blk_size vparam)
       (if decide (vp_multi_pdev_opts vparam = ALL_PDEV_STRIPED)
        then Z.of_nat (length pdevs) else 1)
       true
       (vp_dev_type vparam)
       (vp_multi_pdev_opts vparam)
       (vp_name vparam)
       0).

(** The inner loop: one chunk id after the other from the bitmap. *)
Fixpoint alloc_chunk_ids (n : nat) (dm : DeviceManager)
  : result (list nat * DeviceManager) :=
  match n with
  | O => Ok ([], dm)
  | S n' =>
      match get_next_reset_bit MAX_CHUNKS_IN_SYSTEM (m_chunk_id_bm dm) with
      | None => Fatal OUT_OF_RANGE
      | Some chunk_id =>
          let dm1 := set_chunk_id_bm (set_bit chunk_id (m_chunk_id_bm dm)) dm in
          '(chunk_ids, dm2) ← alloc_chunk_ids n' dm1;
          Ok (chunk_id :: chunk_ids, dm2)
      end
  end.

(** Modelled from the spec: [PhysicalDev::create_chunks] is not among the
    sources. It writes one chunk record of the given size per id on the
    device and returns the chunks. *)
Definition create_chunks (p : nat) (pdev : PhysicalDev) (chunk_ids : list nat)
    (vdev_id : nat) (size : Z) : list Chunk * PhysicalDev :=
  let chunks := map (fun id => mk_chunk id vdev_id p size) chunk_ids in
  let img := pd_image pdev in
  (chunks,
   mk_pdev (pd_info pdev) (pd_hdr pdev)
           (mk_image (img_first_block img) (img_vdev_slots img)
                     (img_chunks img ++ chunks))
           (num_streams pdev) (pd_chunks pdev ++ chunks)).

(** [vdev->add_chunk(chunk, true); m_chunks[chunk->chunk_id()] = chunk]. The
    vdev is the object [m_vdevs[vdev_id]] points to as well. *)
Definition add_fresh_chunk (vdev_id : nat) (st : VirtualDev * DeviceManager)
    (c : Chunk) : VirtualDev * DeviceManager :=
  let vdev' := add_chunk c st.1 in
  let dm1 := set_vdevs (sv_set (m_vdevs st.2) vdev_id (Some vdev')) st.2 in
  (vdev', set_chunks (sv_set (m_chunks dm1) (chunk_id c) (Some c)) dm1).

(** The loop over the devices kept: [count] chunks on each. *)
Fixpoint create_vdev_chunks (pdevs : list nat) (count : nat) (vdev_id : nat)
    (chunk_size : Z) (vdev : VirtualDev) (dm : DeviceManager)
  : result (VirtualDev * DeviceManager) :=
  match pdevs with
  | [] => Ok (vdev, dm)
  | p :: pdevs' =>
      '(chunk_ids, dm1) ← alloc_chunk_ids count dm;
      pdev ← get_pdev p dm1;
      let r := create_chunks p pdev chunk_ids vdev_id chunk_size in
      let dm2 := set_all_pdevs (<[p := Some r.2]> (m_all_pdevs dm1)) dm1 in
      let st := fold_left (add_fresh_chunk vdev_id) r.1 (vdev, dm2) in
      create_vdev_chunks pdevs' count vdev_id chunk_size st.1 st.2
  end.

(** Modelled from the spec: [PhysicalDev::write_super_block] is not among
    the sources; at the offset of slot [vdev_id] it stores the record in
    that slot of the vdev super block. *)
Definition write_vdev_info (vinfo : vdev_info) (vdev_id : nat) (pdev : PhysicalDev)
  : PhysicalDev :=
  let img := pd_image pdev in
  mk_pdev (pd_info pdev) (pd_hdr pdev)
          (mk_image (img_first_block img) (<[vdev_id := vinfo]> (img_vdev_slots img))
                    (img_chunks img))
          (num_streams pdev) (pd_chunks pdev).

Fixpoint write_vdev_infos (pdevs : list nat) (vinfo : vdev_info) (vdev_id : nat)
    (dm : DeviceManager) : result DeviceManager :=
  match pdevs with
  | [] => Ok dm
  | p :: pdevs' =>
      pdev ← get_pdev p dm;
      write_vdev_infos pdevs' vinfo vdev_id
        (set_all_pdevs (<[p := Some (write_vdev_info vinfo vdev_id pdev)]>
                          (m_all_pdevs dm)) dm)
  end.

Definition create_vdev (vparam : vdev_parameters) (dm : DeviceManager)
  : result (VirtualDev * DeviceManager) :=
  match get_next_reset_bit MAX_VDEVS_IN_SYSTEM (m_vdev_id_bm dm) with
  | None => Fatal OUT_OF_RANGE
  | Some vdev_id =>
      let dm1 := set_vdev_id_bm (set_bit vdev_id (m_vdev_id_bm dm)) dm in
      pdevs ← pdevs_by_type_internal (vp_dev_type vparam) dm1;
      if bool_decide (length pdevs = 0%nat) then Fatal REL_ASSERT
      else
        '(vparam1, pdevs1, chunk_size) ← adjust_vdev_params vparam pdevs dm1;
        _ ← match pdevs1 with
            | [] => Fatal NULL_DEREF
            | p0 :: _ => get_pdev p0 dm1
            end;
        let vinfo := populate_vdev_info vparam1 vdev_id pdevs1 in
        let vdev := vdev_create_cb vinfo false in
        let dm2 := set_vdevs (sv_set (m_vdevs dm1) vdev_id (Some vdev)) dm1 in
        let count := Z.to_nat (vp_num_chunks vparam1 / Z.of_nat (length pdevs1)) in
        '(vdev1, dm3) ← create_vdev_chunks pdevs1 count vdev_id chunk_size vdev dm2;
        dm4 ← write_vdev_infos pdevs1 vinfo vdev_id dm3;
        Ok (vdev1, dm4)
  end.

(** *** What the chunk callback does *)

Definition vdev_at (dm : DeviceManager) (v : nat) : option VirtualDev :=
  mjoin (m_vdevs dm !! v).

Definition has_vdev (dm : DeviceManager) (v : nat) : bool :=
  match vdev_at dm v with Some _ => true | None => false end.

Definition vdev_chunks (dm : DeviceManager) (v : nat) : list Chunk :=
  match vdev_at dm v with Some vd => vd_chunks vd | None => [] end.

Definition chunk_at (dm : DeviceManager) (i : nat) : option Chunk :=
  mjoin (m_chunks dm !! i).

(** The chunk records all open devices store, in the order [load_vdevs]
    meets them. *)
Definition stored_chunks (dm : DeviceManager) : list Chunk :=
  concat (map (fun p => match p with
                        | Some pdev => img_chunks (pd_image pdev)
                        | None => []
                        end) (m_all_pdevs dm)).

(** [dm'] is [dm0] after the callback ran on the chunks [cs]. *)
Record loaded_from (dm0 : DeviceManager) (cs : list Chunk) (dm' : DeviceManager)
  : Prop := mk_loaded_from {
  lf_has_vdev : forall v, has_vdev dm' v = has_vdev dm0 v;
  lf_vdev_chunks : forall v c,
      c ∈ vdev_chunks dm' v <->
      c ∈ vdev_chunks dm0 v \/ (c ∈ cs /\ chunk_vdev_id c = v /\ has_vdev dm0 v = true);
  lf_bitmap : forall i,
      i ∈ m_chunk_id_bm dm' <->
      i ∈ m_chunk_id_bm dm0 \/
      exists c, c ∈ cs /\ chunk_id c = i /\ has_vdev dm0 (chunk_vdev_id c) = true;
  lf_chunks : forall i,
      chunk_at dm' i = chunk_at dm0 i \/
      exists c, c ∈ cs /\ chunk_id c = i /\ has_vdev dm0 (chunk_vdev_id c) = true /\
                chunk_at dm' i = Some c;
  lf_chunks_owned : forall c,
      c ∈ cs -> has_vdev dm0 (chunk_vdev_id c) = true ->
      exists c', chunk_at dm' (chunk_id c) = Some c' /\ chunk_id c' = chunk_id c;
  lf_log : forall e,
      e ∈ m_log dm' <->
      e ∈ m_log dm0 \/
      exists c, c ∈ cs /\ has_vdev dm0 (chunk_vdev_id c) = false /\
                e = WarnDanglingChunk (chunk_id c) (chunk_vdev_id c);
  lf_vdev_id_bm : m_vdev_id_bm dm' = m_vdev_id_bm dm0
}.

Lemma mjoin_sv_fill {A : Type} (v : list (option A)) i j :
  mjoin (sv_fill i v !! j) = mjoin (v !! j).
Proof.
  unfold sv_fill. destruct (decide (j < length v)%nat) as [Hlt|Hge].
  - by rewrite lookup_app_l.
  - rewrite lookup_app_r by lia. rewrite (lookup_ge_None_2 v j) by lia. simpl.
    destruct (replicate _ _ !! _) as [o|] eqn:E; [|done].
    apply lookup_replicate in E as [-> _]. done.
Qed.

Lemma length_sv_fill {A : Type} (v : list (option A)) i :
  (i < length (sv_fill i v))%nat.
Proof. unfold sv_fill. rewrite length_app, length_replicate. lia. Qed.

Lemma mjoin_sv_set {A : Type} (v : list (option A)) i j x :
  mjoin (sv_set v i x !! j) = if decide (i = j) then x else mjoin (v !! j).
Proof.
  unfold sv_set. destruct (decide (i = j)) as [->|Hne].
  - rewrite list_lookup_insert_eq; [done|apply length_sv_fill].
  - rewrite list_lookup_insert_ne by done. apply mjoin_sv_fill.
Qed.

Lemma loaded_from_nil dm : loaded_from dm [] dm.
Proof.
  constructor; try done.
  - intros v c. split; [by left|]. intros [?|(H%elem_of_nil & _)]; done.
  - intros i. split; [by left|]. intros [?|(c & H%elem_of_nil & _)]; done.
  - intros i. by left.
  - intros c H%elem_of_nil. done.
  - intros e. split; [by left|]. intros [?|(c & H%elem_of_nil & _)]; done.
Qed.

Lemma chunk_found_keep c dm :
  (chunk_found c dm).1 = has_vdev dm (chunk_vdev_id c).
Proof.
  unfold chunk_found, has_vdev, vdev_at, sv_get.
  rewrite mjoin_sv_fill. by destruct (mjoin _).
Qed.

Lemma loaded_from_step dm0 cs dm c :
  loaded_from dm0 cs dm ->
  loaded_from dm0 (cs ++ [c]) (chunk_found c dm).2.
Proof.
  intros [H1 H2 H3 H4 H4' H5 H6].
  pose proof (H1 (chunk_vdev_id c)) as Hc.
  unfold chunk_found, sv_get.
  unfold has_vdev, vdev_at in Hc.
  rewrite <- (mjoin_sv_fill _ (chunk_vdev_id c)) in Hc.
  destruct dm as [a b c0 d e f g h i j]; simpl in *.
  destruct (mjoin (sv_fill (chunk_vdev_id c) f !! chunk_vdev_id c)) as [vd|] eqn:E;
    simpl.
  - assert (Hown : has_vdev dm0 (chunk_vdev_id c) = true).
    { unfold has_vdev, vdev_at. by destruct (mjoin (m_vdevs dm0 !! _)). }
    constructor; simpl; try done.
    + intros v. rewrite <- H1. unfold has_vdev, vdev_at; simpl.
      rewrite mjoin_sv_set, mjoin_sv_fill. destruct (decide _) as [<-|]; [|done].
      rewrite mjoin_sv_fill in E. by rewrite E.
    + intros v x. specialize (H2 v x). unfold vdev_chunks, vdev_at in *; simpl in *.
      rewrite mjoin_sv_set, mjoin_sv_fill. rewrite mjoin_sv_fill in E.
      destruct (decide _) as [<-|Hne]; simpl.
      * rewrite E in H2. rewrite elem_of_app, H2, elem_of_app, !list_elem_of_singleton.
        split.
        -- intros [[?|(?&?&?)]| ->]; [by left|right; split; [by left|done]|].
           right. split; [by right|done].
        -- intros [?|([?| ->]&?&?)]; [by left;left|left; right; done|by right].
      * rewrite H2, elem_of_app, list_elem_of_singleton. split.
        -- intros [?|(?&?&?)]; [by left|right; split; [by left|done]].
        -- intros [?|([?| ->]&?&?)]; [by left|right; done|done].
    + intros k. unfold set_bit. rewrite elem_of_union, elem_of_singleton, H3. split.
      * intros [->|[?|(x&?&?&?)]]; [right; exists c|by left|right; exists x].
        -- rewrite elem_of_app, list_elem_of_singleton. split; [by right|done].
        -- rewrite elem_of_app. split; [by left|done].
      * intros [?|(x&[?| ->%list_elem_of_singleton]%elem_of_app&?&?)];
          [right; by left|right; right; by exists x|by left].
    + intros k. unfold chunk_at; simpl. rewrite mjoin_sv_set.
      destruct (decide _) as [<-|Hne].
      * right. exists c. rewrite elem_of_app, list_elem_of_singleton.
        split; [by right|done].
      * destruct (H4 k) as [?|(x&?&?&?&?)]; [by left|right; exists x].
        rewrite elem_of_app. split; [by left|done].
    + intros x [Hx| ->%list_elem_of_singleton]%elem_of_app Ho.
      * unfold chunk_at; simpl. rewrite mjoin_sv_set.
        destruct (decide _) as [Heq|Hne]; [by exists c|]. by apply H4'.
      * unfold chunk_at; simpl. rewrite mjoin_sv_set.
        destruct (decide _) as [Heq|Hne]; [by exists c|done].
    + intros ev. rewrite H5. split.
      * intros [?|(x&?&?&?)]; [by left|right; exists x].
        rewrite elem_of_app. split; [by left|done].
      * intros [?|(x&[?| ->%list_elem_of_singleton]%elem_of_app&?&?)];
          [by left|right; by exists x|congruence].
  - assert (Hown : has_vdev dm0 (chunk_vdev_id c) = false).
    { unfold has_vdev, vdev_at. by destruct (mjoin (m_vdevs dm0 !! _)). }
    constructor; simpl; try done.
    + intros v. rewrite <- H1. unfold has_vdev, vdev_at; simpl.
      by rewrite mjoin_sv_fill.
    + intros v x. specialize (H2 v x). unfold vdev_chunks, vdev_at in *; simpl in *.
      rewrite mjoin_sv_fill, H2, elem_of_app, list_elem_of_singleton. split.
      * intros [?|(?&?&?)]; [by left|right; split; [by left|done]].
      * intros [?|([?| ->]&?&?)]; [by left|right; done|congruence].
    + intros k. rewrite H3. split.
      * intros [?|(x&?&?&?)]; [by left|right; exists x].
        rewrite elem_of_app. split; [by left|done].
      * intros [?|(x&[?| ->%list_elem_of_singleton]%elem_of_app&?&?)];
          [by left|right; by exists x|congruence].
    + intros k. unfold chunk_at in *; simpl in *.
      destruct (H4 k) as [?|(x&?&?&?&?)]; [by left|right; exists x].
      rewrite elem_of_app. split; [by left|done].
    + intros x [Hx| ->%list_elem_of_singleton]%elem_of_app Ho; [|congruence].
      by apply H4'.
    + intros ev. rewrite elem_of_app, list_elem_of_singleton, H5. split.
      * intros [[?|(x&?&?&?)]| ->]; [by left|right; exists x|right; exists c].
        -- rewrite elem_of_app. split; [by left|done].
        -- rewrite elem_of_app, list_elem_of_singleton. split; [by right|done].
      * intros [?|(x&[?| ->%list_elem_of_singleton]%elem_of_app&?&?)];
          [by left; left|left; right; by exists x|by right].
Qed.

Lemma loaded_from_set_all_pdevs dm0 cs dm x :
  loaded_from dm0 cs dm -> loaded_from dm0 cs (set_all_pdevs x dm).
Proof. intros [H1 H2 H3 H4 H4' H5 H6]. destruct dm. by constructor. Qed.

Lemma load_chunks_loaded chunks : forall dm0 seen kept dm,
  loaded_from dm0 seen dm ->
  loaded_from dm0 (seen ++ chunks) (load_chunks chunks kept dm).2.
Proof.
  induction chunks as [|c chunks IH]; intros dm0 seen kept dm H; simpl.
  - by rewrite app_nil_r.
  - destruct (chunk_found c dm) as [keep dm1] eqn:E.
    replace (seen ++ c :: chunks) with ((seen ++ [c]) ++ chunks)
      by (by rewrite <- app_assoc).
    apply IH. replace dm1 with (chunk_found c dm).2 by (by rewrite E).
    by apply loaded_from_step.
Qed.

Definition chunks_on (p : option PhysicalDev) : list Chunk :=
  match p with
  | Some pdev => img_chunks (pd_image pdev)
  | None => []
  end.

Lemma load_all_chunks_loaded pdevs : forall i dm0 seen dm,
  loaded_from dm0 seen dm ->
  Forall is_Some pdevs ->
  exists dm', load_all_chunks pdevs i dm = Ok dm' /\
              loaded_from dm0 (seen ++ concat (map chunks_on pdevs)) dm'.
Proof.
  induction pdevs as [|p pdevs IH]; intros i dm0 seen dm H Hall; simpl.
  - exists dm. by rewrite app_nil_r.
  - apply Forall_cons in Hall as [[pdev ->] Hall]. simpl.
    pose proof (load_chunks_loaded (img_chunks (pd_image pdev)) dm0 seen
                  (pd_chunks pdev) dm H) as Hl.
    destruct (load_chunks _ _ dm) as [kept dm1]. simpl in Hl.
    rewrite app_assoc. apply IH; [|done].
    by apply loaded_from_set_all_pdevs.
Qed.

(** The vdev records give virtual devices without chunks, and leave the
    chunk bitmap, the chunk table, the log and the devices alone. *)
Record vdevs_registered (dm dm1 : DeviceManager) : Prop := mk_vdevs_registered {
  vr_chunks : forall v, vdev_chunks dm v = [] -> vdev_chunks dm1 v = [];
  vr_chunk_bm : m_chunk_id_bm dm1 = m_chunk_id_bm dm;
  vr_chunk_tbl : m_chunks dm1 = m_chunks dm;
  vr_log : m_log dm1 = m_log dm;
  vr_pdevs : m_all_pdevs dm1 = m_all_pdevs dm;
  vr_data : m_pdevs_data dm1 = m_pdevs_data dm;
  vr_fast : m_pdevs_fast dm1 = m_pdevs_fast dm;
  vr_size : (length (m_vdevs dm) <= length (m_vdevs dm1))%nat
}.

Lemma vdevs_registered_refl dm : vdevs_registered dm dm.
Proof. by constructor. Qed.

Lemma vdevs_registered_trans dm dm1 dm2 :
  vdevs_registered dm dm1 -> vdevs_registered dm1 dm2 -> vdevs_registered dm dm2.
Proof.
  intros [] []. constructor; try congruence; [auto|lia].
Qed.

Lemma register_vdevs_registered vs : forall dm,
  vdevs_registered dm (register_vdevs vs dm).
Proof.
  induction vs as [|v vs IH]; intros dm; simpl; [apply vdevs_registered_refl|].
  eapply vdevs_registered_trans; [|apply IH].
  destruct dm as [a b c d e f g h i j]; constructor; simpl; try done.
  - intros w. unfold vdev_chunks, vdev_at; simpl. rewrite mjoin_sv_set.
    by destruct (decide _).
  - unfold sv_set, sv_fill. rewrite length_insert, length_app. lia.
Qed.

Lemma load_vdev_infos_registered dm dm1 :
  load_vdev_infos dm = Ok dm1 -> vdevs_registered dm dm1.
Proof.
  unfold load_vdev_infos. intros H.
  destruct (m_pdevs_data dm) as [l|]; simpl in H.
  - destruct (read_vdev_infos l dm) as [vs|] eqn:E; simpl in H; [|done].
    destruct (m_pdevs_fast (register_vdevs vs dm)) as [l'|]; simpl in H.
    + destruct (read_vdev_infos l' _) as [vs'|]; simpl in H; [|done].
      injection H as <-.
      eapply vdevs_registered_trans; apply register_vdevs_registered.
    + injection H as <-. apply register_vdevs_registered.
  - destruct (m_pdevs_fast dm) as [l'|]; simpl in H.
    + destruct (read_vdev_infos l' _) as [vs'|]; simpl in H; [|done].
      injection H as <-. apply register_vdevs_registered.
    + injection H as <-. apply vdevs_registered_refl.
Qed.

Lemma stored_chunks_concat dm :
  stored_chunks dm = concat (map chunks_on (m_all_pdevs dm)).
Proof. done. Qed.

(** C9 (amended). On a manager that holds no virtual device, no chunk mark
    and no log line yet, once the vdev records are read, [load_vdevs]
    succeeds when no vdev was loaded, whatever the device table holds, and
    when a vdev was loaded and every slot of the device table holds a
    device; and for every
    chunk record [c] stored on a device: when the vdev [c] names was loaded,
    [c] is added to that vdev, its id is marked in the chunk bitmap and
    the chunk table holds a chunk of that id; when the vdev [c] names was
    not loaded, [c] is in no vdev, its id is marked only if a chunk of a
    loaded vdev carries the same id, and the warning about [c] is logged
    exactly when at least one vdev slot exists: with no vdev at all the
    chunk records are not read and nothing is logged. *)
Theorem load_vdevs_excludes_dangling_chunks (dm dm1 : DeviceManager) :
  m_vdevs dm = [] ->
  m_chunk_id_bm dm = ∅ ->
  m_log dm = [] ->
  load_vdev_infos dm = Ok dm1 ->
  (m_vdevs dm1 <> [] -> Forall is_Some (m_all_pdevs dm)) ->
  exists dm',
    load_vdevs dm = Ok dm' /\
    (forall v, has_vdev dm' v = has_vdev dm1 v) /\
    forall c, c ∈ stored_chunks dm ->
      if has_vdev dm1 (chunk_vdev_id c) then
        c ∈ vdev_chunks dm' (chunk_vdev_id c) /\
        chunk_id c ∈ m_chunk_id_bm dm' /\
        exists c', chunk_at dm' (chunk_id c) = Some c' /\ chunk_id c' = chunk_id c
      else
        (forall v, c ∉ vdev_chunks dm' v) /\
        (chunk_id c ∈ m_chunk_id_bm dm' ->
         exists c', c' ∈ stored_chunks dm /\ chunk_id c' = chunk_id c /\
                    has_vdev dm1 (chunk_vdev_id c') = true) /\
        (WarnDanglingChunk (chunk_id c) (chunk_vdev_id c) ∈ m_log dm' <->
         m_vdevs dm1 <> []).
Proof.
  intros Hv Hbm Hlog Hinfos Hall.
  pose proof (load_vdev_infos_registered _ _ Hinfos) as [R1 R2 R3 R4 R5 R6 R7 R8].
  assert (Hempty : forall v, vdev_chunks dm1 v = []).
  { intros v. apply R1. unfold vdev_chunks, vdev_at. rewrite Hv.
    by rewrite lookup_nil. }
  unfold load_vdevs. rewrite Hinfos. simpl.
  case_bool_decide as Hlen.
  - destruct (load_all_chunks_loaded (m_all_pdevs dm1) 0 dm1 [] dm1
                (loaded_from_nil dm1)) as (dm' & -> & [L1 L2 L3 L4 L5 L6 L7]).
    { rewrite R5. apply Hall. intros E. by rewrite E in Hlen. }
    simpl in *. rewrite R5, <- stored_chunks_concat in *.
    exists dm'. split; [done|]. split; [done|]. intros c Hc.
    destruct (has_vdev dm1 (chunk_vdev_id c)) eqn:Hown.
    + split; [apply L2; by right|]. split; [apply L3; right; by exists c|].
      by apply L5.
    + split; [|split].
      * intros v [Hin|(_ & <- & Hin)]%L2; [|congruence].
        rewrite Hempty in Hin. by apply elem_of_nil in Hin.
      * intros [Hin|(c' & ? & ? & ?)]%L3; [|by exists c'].
        rewrite R2, Hbm in Hin. set_solver.
      * split; [intros _ E; by rewrite E in Hlen|]. intros _.
        apply L6. right. by exists c.
  - exists dm1. split; [done|]. split; [done|]. intros c Hc.
    assert (Hnil : m_vdevs dm1 = []).
    { destruct (m_vdevs dm1); [done|]. exfalso. simpl in Hlen. lia. }
    assert (Hown : has_vdev dm1 (chunk_vdev_id c) = false).
    { unfold has_vdev, vdev_at. by rewrite Hnil, lookup_nil. }
    rewrite Hown. split; [|split].
    + intros v. rewrite Hempty. apply not_elem_of_nil.
    + rewrite R2, Hbm. set_solver.
    + rewrite R4, Hlog. split; [by intros ?%elem_of_nil|done].
Qed.

(** *** What [load_devices] does *)

Definition dev_hdr (d : dev_info) : pdev_info_header :=
  this_pdev_hdr (img_first_block (read_device (dev_name d))).

Definition dev_uuid (d : dev_info) : Z := pdev_system_uuid (dev_hdr d).

Definition dev_pdev_id (d : dev_info) : nat := pdev_id (dev_hdr d).

(** Device [d] is open: the slot of its id holds a device of that id, and
    the list of its tier holds the id. *)
Definition opened (d : dev_info) (dm : DeviceManager) : Prop :=
  exists pdev l,
    get_pdev (dev_pdev_id d) dm = Ok pdev /\
    pdev_id (pd_hdr pdev) = dev_pdev_id d /\
    pdevs_find (dev_type d) dm = Some l /\
    dev_pdev_id d ∈ l.

(** Every tier present has a first device, and that device is there. *)
Definition tiers_wf (dm : DeviceManager) : Prop :=
  forall t l, pdevs_find t dm = Some l ->
    exists p0 l', l = p0 :: l' /\ is_Some (mjoin (m_all_pdevs dm !! p0)).

(** A vdev record passes the check of [read_vdev_infos]. *)
Definition crc_ok (v : vdev_info) : bool :=
  bool_decide (checksum v = 0) ||
  bool_decide (crc16_t10dif (set_checksum 0 v) = checksum v).



Lemma open_device_uuid_ok d dm :
  dev_uuid d = system_uuid (m_first_blk_hdr dm) ->
  exists dm1, open_device d dm = Ok dm1 /\
    m_first_blk_hdr dm1 = m_first_blk_hdr dm /\
    opened d dm1 /\
    (forall d', opened d' dm -> opened d' dm1) /\
    (tiers_wf dm -> tiers_wf dm1).
Proof.
  intros Hu. unfold open_device. fold (dev_hdr d). fold (dev_uuid d).
  rewrite bool_decide_eq_true_2 by done.
  eexists. split; [reflexivity|].
  fold (dev_pdev_id d).
  destruct dm as [a b c e f g h i j k]. unfold opened, tiers_wf, get_pdev.
  destruct (dev_type d) eqn:Ht; simpl; (split; [done|]); (split; [|split]).
  - exists (PhysicalDev_ctor d (dev_hdr d)), (default [] c ++ [dev_pdev_id d]).
    rewrite mjoin_sv_set, decide_True by done.
    repeat split; try done. rewrite elem_of_app, list_elem_of_singleton. by right.
  - intros d' (pdev & l & H1 & H2 & H3 & H4). simpl in *.
    rewrite mjoin_sv_set. destruct (decide _) as [Heq|Hne].
    + exists (PhysicalDev_ctor d (dev_hdr d)).
      destruct (dev_type d'); simpl in *.
      * exists (default [] c ++ [dev_pdev_id d]). rewrite H3. simpl.
        repeat split; try done. rewrite elem_of_app. by left.
      * exists l. repeat split; try done.
    + exists pdev. destruct (dev_type d'); simpl in *.
      * exists (default [] c ++ [dev_pdev_id d]). rewrite H3. simpl.
        repeat split; try done. rewrite elem_of_app. by left.
      * exists l. repeat split; try done.
  - intros Hwf t l Hl. destruct t; simpl in *.
    + injection Hl as <-. destruct c as [lc|]; simpl.
      * destruct (Hwf Data lc eq_refl) as (p0 & l' & -> & Hs). simpl in *.
        exists p0, (l' ++ [dev_pdev_id d]). split; [done|].
        rewrite mjoin_sv_set. by destruct (decide _).
      * exists (dev_pdev_id d), []. split; [done|].
        by rewrite mjoin_sv_set, decide_True.
    + destruct (Hwf Fast l Hl) as (p0 & l' & -> & Hs). simpl in *.
      exists p0, l'. split; [done|].
      rewrite mjoin_sv_set. by destruct (decide _).
  - exists (PhysicalDev_ctor d (dev_hdr d)), (default [] e ++ [dev_pdev_id d]).
    rewrite mjoin_sv_set, decide_True by done.
    repeat split; try done. rewrite elem_of_app, list_elem_of_singleton. by right.
  - intros d' (pdev & l & H1 & H2 & H3 & H4). simpl in *.
    rewrite mjoin_sv_set. destruct (decide _) as [Heq|Hne].
    + exists (PhysicalDev_ctor d (dev_hdr d)).
      destruct (dev_type d'); simpl in *.
      * exists l. repeat split; try done.
      * exists (default [] e ++ [dev_pdev_id d]). rewrite H3. simpl.
        repeat split; try done. rewrite elem_of_app. by left.
    + exists pdev. destruct (dev_type d'); simpl in *.
      * exists l. repeat split; try done.
      * exists (default [] e ++ [dev_pdev_id d]). rewrite H3. simpl.
        repeat split; try done. rewrite elem_of_app. by left.
  - intros Hwf t l Hl. destruct t; simpl in *.
    + destruct (Hwf Data l Hl) as (p0 & l' & -> & Hs). simpl in *.
      exists p0, l'. split; [done|].
      rewrite mjoin_sv_set. by destruct (decide _).
    + injection Hl as <-. destruct e as [le|]; simpl.
      * destruct (Hwf Fast le eq_refl) as (p0 & l' & -> & Hs). simpl in *.
        exists p0, (l' ++ [dev_pdev_id d]). split; [done|].
        rewrite mjoin_sv_set. by destruct (decide _).
      * exists (dev_pdev_id d), []. split; [done|].
        by rewrite mjoin_sv_set, decide_True.
Qed.

Lemma open_devices_uuid_ok ds : forall dm,
  (forall d, d ∈ ds -> dev_uuid d = system_uuid (m_first_blk_hdr dm)) ->
  exists dm1, open_devices ds dm = Ok dm1 /\
    m_first_blk_hdr dm1 = m_first_blk_hdr dm /\
    (forall d, d ∈ ds -> opened d dm1) /\
    (forall d', opened d' dm -> opened d' dm1) /\
    (tiers_wf dm -> tiers_wf dm1).
Proof.
  induction ds as [|d ds IH]; intros dm Hall; simpl.
  - exists dm. repeat split; try done. by intros d ?%elem_of_nil.
  - destruct (open_device_uuid_ok d dm) as (dm1 & -> & Hh & Ho & Hk & Hw).
    { apply Hall. by left. }
    simpl. destruct (IH dm1) as (dm2 & -> & Hh2 & Ho2 & Hk2 & Hw2).
    { intros d' Hd'. rewrite Hh. apply Hall. by right. }
    exists dm2. split; [done|]. split; [congruence|]. split; [|split].
    + intros d' [->|Hd']%elem_of_cons; [by apply Hk2|by apply Ho2].
    + intros d' Hd'. by apply Hk2, Hk.
    + intros Hwf. by apply Hw2, Hw.
Qed.










(** *** What [create_vdev] does *)

(** [n] rounded up to a multiple of [m], over the integers. *)
Definition ceil_to (n m : Z) : Z := (n + m - 1) / m * m.

Lemma ceil_to_spec n m :
  0 < m -> (m | ceil_to n m) /\ n <= ceil_to n m < n + m.
Proof.
  intros Hm. unfold ceil_to. split.
  - exists ((n + m - 1) / m). lia.
  - pose proof (Z.div_mod (n + m - 1) m ltac:(lia)) as Hdm.
    pose proof (Z.mod_pos_bound (n + m - 1) m Hm) as Hb. nia.
Qed.

Lemma round_up_exact n m :
  0 <= n -> 0 < m -> n + m <= 2 ^ 64 -> round_up n m = Ok (ceil_to n m).
Proof.
  intros Hn Hm Hb. unfold round_up, wrap64.
  destruct (Z.eqb_spec m 0) as [->|_]; [lia|].
  rewrite (Z.mod_small (n + m - 1)) by lia.
  pose proof (ceil_to_spec n m Hm) as [_ Hc]. unfold ceil_to in *.
  by rewrite Z.mod_small by lia.
Qed.

Lemma first_reset_bit_None bm n : forall from,
  first_reset_bit bm from n = None ->
  forall i, (from <= i < from + n)%nat -> i ∈ bm.
Proof.
  induction n as [|n IH]; intros from H i Hi; simpl in H; [lia|].
  case_bool_decide as Hin; [|done].
  destruct (decide (i = from)) as [->|Hne]; [done|].
  apply (IH (S from)); [done|lia].
Qed.

Lemma first_reset_bit_Some bm n : forall from i,
  first_reset_bit bm from n = Some i -> i ∉ bm.
Proof.
  induction n as [|n IH]; intros from i H; simpl in H; [done|].
  case_bool_decide as Hin; [by apply (IH (S from))|]. congruence.
Qed.

Lemma get_next_reset_bit_free cap bm :
  (size bm < cap)%nat -> exists i, get_next_reset_bit cap bm = Some i /\ i ∉ bm.
Proof.
  intros Hsz. unfold get_next_reset_bit.
  destruct (first_reset_bit bm 0 cap) as [i|] eqn:E.
  - exists i. split; [done|]. by eapply first_reset_bit_Some.
  - exfalso. assert (Hsub : set_seq (C:=gset nat) 0 cap ⊆ bm).
    { intros i [_ Hi]%elem_of_set_seq.
      apply (first_reset_bit_None bm cap 0%nat E). lia. }
    apply subseteq_size in Hsub. rewrite size_set_seq in Hsub. lia.
Qed.

Lemma size_set_bit i bm : i ∉ bm -> size (set_bit i bm) = S (size bm).
Proof.
  intros Hi. unfold set_bit. rewrite size_union by set_solver.
  by rewrite size_singleton.
Qed.

(** The device a [PhysicalDev*] points to is there. *)
Definition present (dm : DeviceManager) (p : nat) : Prop :=
  is_Some (mjoin (m_all_pdevs dm !! p)).

Lemma present_insert (l : list (option PhysicalDev)) p q x :
  is_Some (mjoin (l !! q)) -> is_Some (mjoin (<[p := Some x]> l !! q)).
Proof.
  intros Hq. destruct (decide (p = q)) as [->|Hne].
  - destruct (l !! q) as [o|] eqn:E; [|by destruct Hq].
    rewrite list_lookup_insert_eq by (by eapply lookup_lt_Some). by eexists.
  - by rewrite list_lookup_insert_ne.
Qed.

Lemma alloc_chunk_ids_ok k : forall dm,
  (size (m_chunk_id_bm dm) + k <= MAX_CHUNKS_IN_SYSTEM)%nat ->
  exists ids dm',
    alloc_chunk_ids k dm = Ok (ids, dm') /\
    length ids = k /\
    size (m_chunk_id_bm dm') = (size (m_chunk_id_bm dm) + k)%nat /\
    m_all_pdevs dm' = m_all_pdevs dm.
Proof.
  induction k as [|k IH]; intros dm Hsz; simpl.
  - exists [], dm. repeat split; try done; lia.
  - destruct (get_next_reset_bit_free MAX_CHUNKS_IN_SYSTEM (m_chunk_id_bm dm))
      as (i & -> & Hi); [lia|].
    destruct (IH (set_chunk_id_bm (set_bit i (m_chunk_id_bm dm)) dm))
      as (ids & dm' & -> & Hl & Hs & Hp).
    { destruct dm; simpl in *. rewrite size_set_bit by done. lia. }
    simpl. exists (i :: ids), dm'. split; [done|]. split; [simpl; lia|].
    destruct dm; simpl in *. rewrite size_set_bit in Hs by done.
    split; [lia|done].
Qed.

Lemma fold_add_fresh_chunk vid cs : forall vdev dm,
  vd_info (fold_left (add_fresh_chunk vid) cs (vdev, dm)).1 = vd_info vdev /\
  vd_chunks (fold_left (add_fresh_chunk vid) cs (vdev, dm)).1 = vd_chunks vdev ++ cs /\
  m_all_pdevs (fold_left (add_fresh_chunk vid) cs (vdev, dm)).2 = m_all_pdevs dm /\
  m_chunk_id_bm (fold_left (add_fresh_chunk vid) cs (vdev, dm)).2 = m_chunk_id_bm dm.
Proof.
  induction cs as [|c cs IH]; intros vdev dm; simpl.
  - by rewrite app_nil_r.
  - unfold add_fresh_chunk at 2 4 6 8. simpl.
    destruct (IH (add_chunk c vdev)
                (set_chunks (sv_set (m_chunks (set_vdevs (sv_set (m_vdevs dm) vid
                   (Some (add_chunk c vdev))) dm)) (chunk_id c) (Some c))
                   (set_vdevs (sv_set (m_vdevs dm) vid (Some (add_chunk c vdev))) dm)))
      as (I1 & I2 & I3 & I4).
    rewrite I1, I2, I3, I4. destruct dm; simpl.
    by rewrite <- app_assoc.
Qed.

(** The chunks [create_vdev] makes on device [p]. *)
Definition group_ok (count : nat) (vid : nat) (csize : Z) (p : nat) (g : list Chunk)
  : Prop :=
  length g = count /\
  Forall (fun c => chunk_pdev_id c = p /\ chunk_vdev_id c = vid /\ chunk_size c = csize) g.

Lemma create_vdev_chunks_ok count vid csize pdevs : forall vdev dm,
  Forall (present dm) pdevs ->
  (size (m_chunk_id_bm dm) + length pdevs * count <= MAX_CHUNKS_IN_SYSTEM)%nat ->
  exists vdev' dm' groups,
    create_vdev_chunks pdevs count vid csize vdev dm = Ok (vdev', dm') /\
    vd_info vdev' = vd_info vdev /\
    vd_chunks vdev' = vd_chunks vdev ++ concat groups /\
    Forall2 (group_ok count vid csize) pdevs groups /\
    (forall q, present dm q -> present dm' q).
Proof.
  induction pdevs as [|p pdevs IH]; intros vdev dm Hpr Hsz; simpl.
  - exists vdev, dm, []. simpl. rewrite app_nil_r. repeat split; try done.
  - apply Forall_cons in Hpr as [Hp Hpr]. simpl in Hsz.
    destruct (alloc_chunk_ids_ok count dm) as (ids & dm1 & -> & Hl & Hs & Ha);
      [lia|].
    simpl. unfold get_pdev. unfold present in Hp. rewrite Ha.
    destruct (mjoin (m_all_pdevs dm !! p)) as [pdev|] eqn:Ep; [|by destruct Hp].
    simpl.
    set (chunks := map (fun id => mk_chunk id vid p csize) ids).
    set (pdev' := mk_pdev _ _ _ _ _).
    set (dm2 := set_all_pdevs _ dm1).
    destruct (fold_add_fresh_chunk vid chunks vdev dm2) as (F1 & F2 & F3 & F4).
    destruct (IH (fold_left (add_fresh_chunk vid) chunks (vdev, dm2)).1
                 (fold_left (add_fresh_chunk vid) chunks (vdev, dm2)).2)
      as (vdev' & dm' & groups & -> & G1 & G2 & G3 & G4).
    { eapply Forall_impl; [exact Hpr|]. intros q Hq. unfold present.
      rewrite F3. subst dm2. destruct dm1; simpl in *. subst.
      by apply present_insert. }
    { rewrite F4. subst dm2. destruct dm1; simpl in *. lia. }
    exists vdev', dm', (chunks :: groups). split; [done|].
    split; [congruence|]. split; [|split].
    + rewrite G2, F2. simpl. by rewrite app_assoc.
    + constructor; [|done]. split.
      * subst chunks. by rewrite length_map.
      * subst chunks. apply Forall_forall. intros c (id & -> & _)%list_elem_of_fmap.
        done.
    + intros q Hq. apply G4. unfold present. rewrite F3. subst dm2.
      destruct dm1; simpl in *. subst. by apply present_insert.
Qed.

Lemma write_vdev_infos_ok vinfo vid pdevs : forall dm,
  Forall (present dm) pdevs ->
  exists dm', write_vdev_infos pdevs vinfo vid dm = Ok dm'.
Proof.
  induction pdevs as [|p pdevs IH]; intros dm Hpr; simpl; [by eexists|].
  apply Forall_cons in Hpr as [Hp Hpr]. unfold get_pdev. unfold present in Hp.
  destruct (mjoin (m_all_pdevs dm !! p)) as [pdev|] eqn:Ep; [|by destruct Hp].
  simpl. apply IH. eapply Forall_impl; [exact Hpr|]. intros q Hq.
  unfold present. destruct dm; simpl in *. by apply present_insert.
Qed.

(** The number of chunks the placement policy asks for, the devices it
    keeps, and the numbers [create_vdev] settles on, over the integers. *)
Definition policy_chunks (opts : vdev_multi_pdev_opts_t) (num : Z)
    (ps : list PhysicalDev) : Z :=
  match opts with
  | ALL_PDEV_STRIPED => ceil_to num (total_streams ps)
  | ALL_PDEV_MIRRORED =>
      match ps with
      | p0 :: _ => ceil_to num (num_streams p0) * Z.of_nat (length ps)
      | [] => 0
      end
  | _ => num
  end.

Definition chosen_pdevs (opts : vdev_multi_pdev_opts_t) (ids : list nat) : list nat :=
  match opts with
  | ALL_PDEV_STRIPED | ALL_PDEV_MIRRORED => ids
  | _ => take 1 ids
  end.

Definition streams_positive (opts : vdev_multi_pdev_opts_t) (ps : list PhysicalDev)
  : Prop :=
  match opts with
  | ALL_PDEV_STRIPED => 0 < total_streams ps
  | ALL_PDEV_MIRRORED =>
      match ps with
      | p0 :: _ => 0 < num_streams p0
      | [] => False
      end
  | _ => True
  end.

Definition adjusted_chunks (vparam : vdev_parameters) (ps : list PhysicalDev)
    (dm : DeviceManager) : Z :=
  Z.min (policy_chunks (vp_multi_pdev_opts vparam) (vp_num_chunks vparam) ps)
        (max_num_chunks dm).

Definition adjusted_size (vparam : vdev_parameters) (ps : list PhysicalDev)
    (dm : DeviceManager) : Z :=
  ceil_to (vp_vdev_size vparam) (adjusted_chunks vparam ps dm * vp_blk_size vparam).

Definition adjusted_chunk_size (vparam : vdev_parameters) (ps : list PhysicalDev)
    (dm : DeviceManager) : Z :=
  adjusted_size vparam ps dm / adjusted_chunks vparam ps dm.

Definition chunks_per_pdev (vparam : vdev_parameters) (ids : list nat)
    (ps : list PhysicalDev) (dm : DeviceManager) : nat :=
  Z.to_nat (adjusted_chunks vparam ps dm /
            Z.of_nat (length (chosen_pdevs (vp_multi_pdev_opts vparam) ids))).

Lemma get_pdevs_ext ids dm dm' :
  m_all_pdevs dm' = m_all_pdevs dm -> get_pdevs ids dm' = get_pdevs ids dm.
Proof.
  intros H. induction ids as [|i ids IH]; simpl; [done|].
  unfold get_pdev. by rewrite H, IH.
Qed.

Lemma get_pdevs_present ids : forall dm ps,
  get_pdevs ids dm = Ok ps -> Forall (present dm) ids /\ length ps = length ids.
Proof.
  induction ids as [|i ids IH]; intros dm ps H; simpl in H.
  - injection H as <-. split; [constructor|done].
  - unfold get_pdev in H.
    destruct (mjoin (m_all_pdevs dm !! i)) as [pdev|] eqn:E; simpl in H; [|done].
    destruct (get_pdevs ids dm) as [ps'|] eqn:E'; simpl in H; [|done].
    injection H as <-. destruct (IH dm ps' E') as [Hpr Hl].
    split; [|simpl; lia]. constructor; [|done]. unfold present. by rewrite E.
Qed.

Lemma wrap32_small x : 0 <= x < 2 ^ 32 -> wrap32 x = x.
Proof. intros H. unfold wrap32. by apply Z.mod_small. Qed.

Lemma wrap64_small x : 0 <= x < 2 ^ 64 -> wrap64 x = x.
Proof. intros H. unfold wrap64. by apply Z.mod_small. Qed.

Lemma total_streams_bound ps : 0 <= total_streams ps < 2 ^ 32.
Proof.
  unfold total_streams.
  assert (forall acc, 0 <= acc < 2 ^ 32 ->
            0 <= fold_left (fun r a => wrap32 (r + num_streams a)) ps acc < 2 ^ 32)
    as H; [|apply H; lia].
  induction ps as [|p ps IH]; intros acc Ha; simpl; [done|].
  apply IH. unfold wrap32. apply Z.mod_pos_bound. lia.
Qed.

Lemma policy_chunks_ge opts num ps :
  0 < num -> streams_positive opts ps -> ps <> [] ->
  num <= policy_chunks opts num ps.
Proof.
  intros Hn Hs Hps. destruct opts; simpl in *; try lia.
  - apply ceil_to_spec, Hs.
  - destruct ps as [|p0 ps']; [done|].
    pose proof (ceil_to_spec num (num_streams p0) Hs) as [_ Hc].
    simpl length. nia.
Qed.

Lemma adjust_vdev_params_spec vparam ids ps dm :
  ids <> [] ->
  get_pdevs ids dm = Ok ps ->
  0 < vp_num_chunks vparam ->
  0 < vp_blk_size vparam ->
  0 <= vp_vdev_size vparam ->
  streams_positive (vp_multi_pdev_opts vparam) ps ->
  0 < max_num_chunks dm ->
  policy_chunks (vp_multi_pdev_opts vparam) (vp_num_chunks vparam) ps < 2 ^ 32 ->
  adjusted_chunks vparam ps dm * vp_blk_size vparam < 2 ^ 32 ->
  vp_vdev_size vparam + adjusted_chunks vparam ps dm * vp_blk_size vparam <= 2 ^ 64 ->
  adjusted_chunk_size vparam ps dm < 2 ^ 32 ->
  adjust_vdev_params vparam ids dm =
    Ok (set_vdev_size (adjusted_size vparam ps dm)
          (set_num_chunks (adjusted_chunks vparam ps dm) vparam),
        chosen_pdevs (vp_multi_pdev_opts vparam) ids,
        adjusted_chunk_size vparam ps dm).
Proof.
  intros Hids Hps Hn Hb Hs Hst HM Hpol Hnb Hsz Hcs.
  destruct (get_pdevs_present _ _ _ Hps) as [_ Hlen].
  assert (Hne : ps <> []) by (destruct ps, ids; simpl in *; congruence).
  pose proof (policy_chunks_ge _ _ _ Hn Hst Hne) as Hge.
  assert (Hfirst :
    match vp_multi_pdev_opts vparam with
    | ALL_PDEV_STRIPED =>
        ps0 ← get_pdevs ids dm;
        n ← round_up (vp_num_chunks vparam) (total_streams ps0);
        Ok (wrap32 n, ids)
    | ALL_PDEV_MIRRORED =>
        match ids with
        | [] => Fatal NULL_DEREF
        | p0 :: _ =>
            pdev0 ← get_pdev p0 dm;
            n ← round_up (vp_num_chunks vparam) (num_streams pdev0);
            Ok (wrap32 (wrap64 (n * Z.of_nat (length ids))), ids)
        end
    | SINGLE_FIRST_PDEV => Ok (vp_num_chunks vparam, take 1 ids)
    | SINGLE_ANY_PDEV => Ok (vp_num_chunks vparam, take 1 ids)
    end = Ok (policy_chunks (vp_multi_pdev_opts vparam) (vp_num_chunks vparam) ps,
              chosen_pdevs (vp_multi_pdev_opts vparam) ids)).
  { destruct (vp_multi_pdev_opts vparam); simpl in *; try done.
    - rewrite Hps. simpl. pose proof (total_streams_bound ps) as Ht.
      rewrite round_up_exact by lia. simpl. by rewrite wrap32_small by lia.
    - destruct ids as [|p0 ids']; [done|]. simpl in Hps.
      destruct (get_pdev p0 dm) as [pdev0|]; simpl in *; [|done].
      destruct (get_pdevs ids' dm) as [ps'|]; simpl in *; [|done].
      injection Hps as <-.
      pose proof (ceil_to_spec (vp_num_chunks vparam) (num_streams pdev0) Hst)
        as [[k Hk] Hc].
      assert (Hk1 : 1 <= k) by nia.
      assert (Hl : Z.of_nat (S (length ps')) = Z.of_nat (S (length ids'))).
      { simpl in Hlen. lia. }
      assert (Hs0 : num_streams pdev0 < 2 ^ 32).
      { simpl length in Hpol. nia. }
      rewrite round_up_exact by lia. simpl. simpl length in Hpol.
      rewrite <- Hl. rewrite wrap64_small by nia. by rewrite wrap32_small by nia. }
  unfold adjust_vdev_params. rewrite Hfirst. simpl.
  fold (adjusted_chunks vparam ps dm).
  assert (Hpos : 0 < adjusted_chunks vparam ps dm).
  { unfold adjusted_chunks. lia. }
  rewrite wrap32_small by nia.
  rewrite round_up_exact by nia. simpl.
  fold (adjusted_size vparam ps dm).
  destruct (Z.eqb_spec (adjusted_chunks vparam ps dm) 0) as [E|_]; [lia|].
  fold (adjusted_chunk_size vparam ps dm).
  rewrite wrap32_small; [done|]. split; [|done].
  unfold adjusted_chunk_size. apply Z.div_pos; [|done].
  unfold adjusted_size.
  pose proof (ceil_to_spec (vp_vdev_size vparam)
                (adjusted_chunks vparam ps dm * vp_blk_size vparam)) as [_ Hc];
    [nia|lia].
Qed.

(** C8 (amended). When a vdev id and enough chunk ids are free, the devices
    of the tier are there with positive stream counts, the request is
    positive and nothing overflows its machine type, [create_vdev] returns a
    vdev such that: the number of chunks of the placement policy is at least
    the number asked for (striped: the next multiple of the total stream
    count of the devices; mirrored: the next multiple of the first device's
    stream count, times the number of devices; single device: the number
    asked for), and the number [create_vdev] settles on is that number
    capped at the sum of the devices' maximal chunk counts; the size of the
    vdev is the size asked for rounded up to the next multiple of that
    number of chunks times the block size, and equals the number of chunks
    times the chunk size; on each device kept, the number of chunks divided
    by the number of devices kept chunks of that size are created, and they
    are the chunks of the vdev. *)
Theorem create_vdev_adjusts_parameters
    (vparam : vdev_parameters) (dm : DeviceManager) (new_id : nat)
    (ids : list nat) (ps : list PhysicalDev) :
  get_next_reset_bit MAX_VDEVS_IN_SYSTEM (m_vdev_id_bm dm) = Some new_id ->
  pdevs_by_type_internal (vp_dev_type vparam) dm = Ok ids ->
  ids <> [] ->
  get_pdevs ids dm = Ok ps ->
  0 < vp_num_chunks vparam ->
  0 < vp_blk_size vparam ->
  0 <= vp_vdev_size vparam ->
  streams_positive (vp_multi_pdev_opts vparam) ps ->
  0 < max_num_chunks dm ->
  policy_chunks (vp_multi_pdev_opts vparam) (vp_num_chunks vparam) ps < 2 ^ 32 ->
  adjusted_chunks vparam ps dm * vp_blk_size vparam < 2 ^ 32 ->
  vp_vdev_size vparam + adjusted_chunks vparam ps dm * vp_blk_size vparam <= 2 ^ 64 ->
  adjusted_chunk_size vparam ps dm < 2 ^ 32 ->
  (size (m_chunk_id_bm dm) +
   length (chosen_pdevs (vp_multi_pdev_opts vparam) ids) *
   chunks_per_pdev vparam ids ps dm <= MAX_CHUNKS_IN_SYSTEM)%nat ->
  exists vdev dm' groups,
    create_vdev vparam dm = Ok (vdev, dm') /\
    vp_num_chunks vparam <=
      policy_chunks (vp_multi_pdev_opts vparam) (vp_num_chunks vparam) ps /\
    (vp_multi_pdev_opts vparam = ALL_PDEV_STRIPED ->
     (total_streams ps |
      policy_chunks (vp_multi_pdev_opts vparam) (vp_num_chunks vparam) ps) /\
     policy_chunks (vp_multi_pdev_opts vparam) (vp_num_chunks vparam) ps <
       vp_num_chunks vparam + total_streams ps) /\
    (vp_multi_pdev_opts vparam = ALL_PDEV_MIRRORED ->
     exists p0 r, head ps = Some p0 /\ (num_streams p0 | r) /\
                  vp_num_chunks vparam <= r < vp_num_chunks vparam + num_streams p0 /\
                  policy_chunks (vp_multi_pdev_opts vparam) (vp_num_chunks vparam) ps =
                    r * Z.of_nat (length ps)) /\
    adjusted_chunks vparam ps dm =
      Z.min (policy_chunks (vp_multi_pdev_opts vparam) (vp_num_chunks vparam) ps)
            (max_num_chunks dm) /\
    vdev_size (vd_info vdev) = adjusted_size vparam ps dm /\
    vdev_id (vd_info vdev) = new_id /\
    vp_vdev_size vparam <= adjusted_size vparam ps dm <
      vp_vdev_size vparam + adjusted_chunks vparam ps dm * vp_blk_size vparam /\
    (adjusted_chunks vparam ps dm * vp_blk_size vparam | adjusted_size vparam ps dm) /\
    adjusted_size vparam ps dm =
      adjusted_chunks vparam ps dm * adjusted_chunk_size vparam ps dm /\
    vd_chunks vdev = concat groups /\
    Forall2 (group_ok (chunks_per_pdev vparam ids ps dm) new_id
                      (adjusted_chunk_size vparam ps dm))
            (chosen_pdevs (vp_multi_pdev_opts vparam) ids) groups.
Proof.
  intros Hid Hids Hne Hps Hn Hb Hs Hst HM Hpol Hnb Hsz Hcs Hfree.
  destruct (get_pdevs_present _ _ _ Hps) as [Hpr Hlen].
  assert (Hpsne : ps <> []) by (destruct ps, ids; simpl in *; congruence).
  pose proof (policy_chunks_ge _ _ _ Hn Hst Hpsne) as Hge.
  assert (Hpos : 0 < adjusted_chunks vparam ps dm).
  { unfold adjusted_chunks. lia. }
  pose proof (ceil_to_spec (vp_vdev_size vparam)
                (adjusted_chunks vparam ps dm * vp_blk_size vparam)
                ltac:(nia)) as [Hdiv Hbound].
  fold (adjusted_size vparam ps dm) in Hdiv, Hbound.
  set (dm1 := set_vdev_id_bm (set_bit new_id (m_vdev_id_bm dm)) dm).
  assert (Hall1 : m_all_pdevs dm1 = m_all_pdevs dm) by (by destruct dm).
  assert (Hadj : adjust_vdev_params vparam ids dm1 =
    Ok (set_vdev_size (adjusted_size vparam ps dm)
          (set_num_chunks (adjusted_chunks vparam ps dm) vparam),
        chosen_pdevs (vp_multi_pdev_opts vparam) ids,
        adjusted_chunk_size vparam ps dm)).
  { replace (adjusted_size vparam ps dm) with (adjusted_size vparam ps dm1)
      by (by destruct dm).
    replace (adjusted_chunks vparam ps dm) with (adjusted_chunks vparam ps dm1)
      by (by destruct dm).
    replace (adjusted_chunk_size vparam ps dm) with (adjusted_chunk_size vparam ps dm1)
      by (by destruct dm).
    apply adjust_vdev_params_spec; try done.
    - by rewrite (get_pdevs_ext ids dm dm1).
    - by destruct dm.
    - by destruct dm.
    - by destruct dm.
    - by destruct dm. }
  assert (Hchosen : Forall (present dm1) (chosen_pdevs (vp_multi_pdev_opts vparam) ids)).
  { assert (Forall (present dm1) ids) as Hp1.
    { eapply Forall_impl; [exact Hpr|]. intros q. unfold present. by rewrite Hall1. }
    destruct (vp_multi_pdev_opts vparam); simpl; try done; by apply Forall_take. }
  assert (Hcne : chosen_pdevs (vp_multi_pdev_opts vparam) ids <> []).
  { destruct (vp_multi_pdev_opts vparam), ids; simpl; done. }
  set (vparam1 := set_vdev_size (adjusted_size vparam ps dm)
                    (set_num_chunks (adjusted_chunks vparam ps dm) vparam)) in *.
  set (chosen := chosen_pdevs (vp_multi_pdev_opts vparam) ids) in *.
  set (vinfo := populate_vdev_info vparam1 new_id chosen).
  set (dm2 := set_vdevs (sv_set (m_vdevs dm1) new_id
                           (Some (vdev_create_cb vinfo false))) dm1).
  destruct (create_vdev_chunks_ok (chunks_per_pdev vparam ids ps dm) new_id
              (adjusted_chunk_size vparam ps dm) chosen
              (vdev_create_cb vinfo false) dm2)
    as (vdev & dm3 & groups & Hcr & Hinfo & Hchunks & Hgroups & Hkeep).
  { eapply Forall_impl; [exact Hchosen|]. intros q. unfold present.
    subst dm2. by destruct dm1. }
  { subst dm2 dm1. destruct dm; simpl in *. exact Hfree. }
  destruct (write_vdev_infos_ok vinfo new_id chosen dm3) as (dm4 & Hwr).
  { eapply Forall_impl; [exact Hchosen|]. intros q Hq. apply Hkeep.
    unfold present. subst dm2. by destruct dm1. }
  exists vdev, dm4, groups. split.
  { unfold create_vdev. rewrite Hid. fold dm1.
    replace (pdevs_by_type_internal (vp_dev_type vparam) dm1) with (Ok (A:=list nat) ids)
      by (rewrite <- Hids; by destruct dm, (vp_dev_type vparam)).
    simpl. rewrite bool_decide_eq_false_2 by (by destruct ids).
    rewrite Hadj. simpl.
    assert (Hfirst : exists pdev0,
              match chosen with
              | [] => Fatal NULL_DEREF
              | p0 :: _ => get_pdev p0 dm1
              end = Ok pdev0).
    { destruct chosen as [|p0 ?]; [done|].
      apply Forall_cons in Hchosen as [[pdev0 Hp0] _].
      exists pdev0. unfold get_pdev. by rewrite Hp0. }
    destruct Hfirst as (pdev0 & ->). simpl.
    fold vinfo. fold dm2.
    replace (Z.to_nat (vp_num_chunks vparam1 / Z.of_nat (length chosen)))
      with (chunks_per_pdev vparam ids ps dm)
      by (subst vparam1; by destruct vparam).
    rewrite Hcr. simpl. by rewrite Hwr. }
  split; [done|]. split.
  { intros E. rewrite E in *. simpl in *.
    pose proof (ceil_to_spec (vp_num_chunks vparam) (total_streams ps) Hst) as [? ?].
    split; [done|lia]. }
  split.
  { intros E. rewrite E in *. simpl in *. destruct ps as [|p0 ps']; [done|].
    pose proof (ceil_to_spec (vp_num_chunks vparam) (num_streams p0) Hst) as [? ?].
    exists p0, (ceil_to (vp_num_chunks vparam) (num_streams p0)). done. }
  split; [done|]. split.
  { rewrite Hinfo. subst vinfo vparam1. by destruct vparam. }
  split.
  { rewrite Hinfo. subst vinfo vparam1. by destruct vparam. }
  split; [done|]. split; [done|]. split.
  { unfold adjusted_chunk_size. destruct Hdiv as [k Hk]. rewrite Hk.
    replace (k * (adjusted_chunks vparam ps dm * vp_blk_size vparam))
      with (k * vp_blk_size vparam * adjusted_chunks vparam ps dm) by lia.
    rewrite Z.div_mul by lia. lia. }
  split; [by rewrite Hchunks|done].
Qed.

(** *** Reading the vdev records *)

Lemma set_checksum_same v : set_checksum (checksum v) v = v.
Proof. by destruct v. Qed.

Lemma read_vdev_slots_exact slots :
  forallb crc_ok slots = true ->
  read_vdev_slots slots = Ok (List.filter slot_allocated slots).
Proof.
  induction slots as [|v slots IH]; simpl; [done|].
  intros [Hv Hs]%andb_prop. rewrite (IH Hs). unfold crc_ok in Hv.
  destruct (decide (checksum v = 0)) as [Hz|Hz].
  - rewrite (bool_decide_eq_false_2 (checksum v <> 0)) by tauto. done.
  - rewrite (bool_decide_eq_true_2 (checksum v <> 0)) by done.
    rewrite (bool_decide_eq_false_2 (checksum v = 0)) in Hv by done.
    simpl in Hv. rewrite Hv. apply bool_decide_eq_true_1 in Hv.
    rewrite Hv, set_checksum_same. done.
Qed.

(** [read_vdev_infos] looks at the first device of the list only, and at no
    more than [MAX_VDEVS_IN_SYSTEM] of its slots. When every record read
    passes the CRC check, it returns the allocated records among them, each
    as it is stored (the checksum field it zeroes for the check is put
    back), in slot order. *)
Theorem read_vdev_infos_returns_allocated_records
    (p0 : nat) (others : list nat) (dm : DeviceManager) (pdev : PhysicalDev) :
  get_pdev p0 dm = Ok pdev ->
  forallb crc_ok (take MAX_VDEVS_IN_SYSTEM (img_vdev_slots (pd_image pdev))) = true ->
  read_vdev_infos (p0 :: others) dm =
    Ok (List.filter slot_allocated
          (take MAX_VDEVS_IN_SYSTEM (img_vdev_slots (pd_image pdev)))).
Proof.
  intros Hp Hcrc. unfold read_vdev_infos. rewrite Hp. simpl.
  by apply read_vdev_slots_exact.
Qed.

(** *** The tiers after the devices are opened *)

Lemma open_device_tiers d dm dm1 t :
  open_device d dm = Ok dm1 ->
  pdevs_find t dm1 =
    if decide (dev_type d = t)
    then Some (default [] (pdevs_find t dm) ++ [dev_pdev_id d])
    else pdevs_find t dm.
Proof.
  unfold open_device. fold (dev_hdr d). fold (dev_pdev_id d).
  case_bool_decide; [|done]. intros [= <-].
  destruct dm, (dev_type d), t; simpl; done.
Qed.

(** [load_devices] files the devices by tier in the order they are
    presented: after the loop the list of a tier is what it was, followed
    by the ids of the devices of that tier in that order, and a tier none of
    whose devices was presented is not created. *)
Theorem open_devices_files_by_tier (devs : list dev_info) (dm dm1 : DeviceManager)
    (t : HSDevType) :
  open_devices devs dm = Ok dm1 ->
  default [] (pdevs_find t dm1) =
    default [] (pdevs_find t dm)
    ++ map dev_pdev_id (List.filter (fun d => bool_decide (dev_type d = t)) devs) /\
  (pdevs_find t dm = None ->
   List.filter (fun d => bool_decide (dev_type d = t)) devs = [] ->
   pdevs_find t dm1 = None) /\
  (List.filter (fun d => bool_decide (dev_type d = t)) devs <> [] ->
   is_Some (pdevs_find t dm1)).
Proof.
  revert dm. induction devs as [|d devs IH]; intros dm; simpl.
  - intros [= <-]. rewrite app_nil_r. done.
  - destruct (open_device d dm) as [dm0|] eqn:Hd; simpl; [|done].
    intros Hrest. destruct (IH dm0 Hrest) as (I1 & I2 & I3).
    pose proof (open_device_tiers d dm dm0 t Hd) as Ht.
    destruct (decide (dev_type d = t)) as [Heq|Hne].
    + rewrite (bool_decide_eq_true_2 _ Heq). simpl.
      rewrite I1, Ht. simpl. rewrite <- app_assoc. split; [done|].
      split; [done|]. intros _.
      destruct (pdevs_find t dm1) as [l|]; [by eexists|]. exfalso.
      rewrite Ht in I1. simpl in I1. symmetry in I1.
      apply app_eq_nil in I1 as [I1 _]. apply app_eq_nil in I1 as [_ I1]. done.
    + rewrite (bool_decide_eq_false_2 _ Hne). rewrite I1, Ht.
      split; [done|]. split; [|done]. intros Hn Hf. apply I2; [|done].
      by rewrite Ht.
Qed.

(** *** The ids [create_vdev] hands out *)

Lemma first_reset_bit_least bm n : forall from i,
  first_reset_bit bm from n = Some i ->
  (from <= i < from + n)%nat /\ (i ∉ bm) /\
  forall j, (from <= j < i)%nat -> j ∈ bm.
Proof.
  induction n as [|n IH]; intros from i H; simpl in H; [done|].
  case_bool_decide as Hin.
  - destruct (IH (S from) i H) as (Hr & Hni & Hl).
    split; [lia|]. split; [done|]. intros j Hj.
    destruct (decide (j = from)) as [->|Hne]; [done|]. apply Hl. lia.
  - injection H as <-. split; [lia|]. split; [done|]. intros j Hj. lia.
Qed.

Lemma first_reset_bit_full bm n : forall from,
  (forall i, (from <= i < from + n)%nat -> i ∈ bm) ->
  first_reset_bit bm from n = None.
Proof.
  induction n as [|n IH]; intros from H; simpl; [done|].
  rewrite bool_decide_eq_true_2 by (apply H; lia).
  apply IH. intros i Hi. apply H. lia.
Qed.

Lemma alloc_chunk_ids_fresh k : forall dm ids dm',
  alloc_chunk_ids k dm = Ok (ids, dm') ->
  length ids = k /\
  NoDup ids /\
  (forall i, i ∈ ids -> (i ∉ m_chunk_id_bm dm) /\ (i < MAX_CHUNKS_IN_SYSTEM)%nat) /\
  m_chunk_id_bm dm' = list_to_set ids ∪ m_chunk_id_bm dm /\
  m_all_pdevs dm' = m_all_pdevs dm /\
  m_vdevs dm' = m_vdevs dm /\
  m_chunks dm' = m_chunks dm /\
  m_vdev_id_bm dm' = m_vdev_id_bm dm.
Proof.
  induction k as [|k IH]; intros dm ids dm' H; simpl in H.
  - injection H as <- <-. split; [done|]. split; [constructor|].
    split; [by intros i ?%elem_of_nil|]. simpl.
    split; [by rewrite (left_id_L ∅ (∪))|done].
  - destruct (get_next_reset_bit _ _) as [i|] eqn:Ei; [|done].
    destruct (alloc_chunk_ids k _) as [[ids1 dm1]|] eqn:Ea; simpl in H; [|done].
    injection H as <- <-.
    destruct (IH _ _ _ Ea) as (I1 & I2 & I3 & I4 & I5 & I6 & I7 & I8).
    destruct (first_reset_bit_least _ _ _ _ Ei) as (Hr & Hni & _).
    assert (Hbm : m_chunk_id_bm (set_chunk_id_bm (set_bit i (m_chunk_id_bm dm)) dm)
                  = {[ i ]} ∪ m_chunk_id_bm dm) by (by destruct dm).
    rewrite Hbm in I3, I4.
    split; [simpl; lia|]. split.
    { constructor; [|done]. intros Hin. destruct (I3 i Hin) as [Hn _].
      apply Hn. apply elem_of_union_l. by apply elem_of_singleton. }
    split.
    { intros j [->|Hj]%elem_of_cons; [split; [done|lia]|].
      destruct (I3 j Hj) as [Hn Hlt]. split; [|done].
      intros Hjb. apply Hn. by apply elem_of_union_r. }
    split.
    { rewrite I4. apply set_eq. intros x.
      rewrite !elem_of_union, !elem_of_list_to_set, elem_of_cons, elem_of_singleton.
      tauto. }
    destruct dm; simpl in *. done.
Qed.

Lemma fold_add_fresh_chunk_tables vid cs : forall vdev dm,
  NoDup (chunk_id <$> cs) ->
  (forall c, c ∈ cs ->
     chunk_at (fold_left (add_fresh_chunk vid) cs (vdev, dm)).2 (chunk_id c) = Some c) /\
  (forall i, i ∉ (chunk_id <$> cs) ->
     chunk_at (fold_left (add_fresh_chunk vid) cs (vdev, dm)).2 i = chunk_at dm i) /\
  (forall v, v <> vid ->
     vdev_at (fold_left (add_fresh_chunk vid) cs (vdev, dm)).2 v = vdev_at dm v) /\
  (vdev_at dm vid = Some vdev ->
   vdev_at (fold_left (add_fresh_chunk vid) cs (vdev, dm)).2 vid
   = Some (fold_left (add_fresh_chunk vid) cs (vdev, dm)).1) /\
  m_vdev_id_bm (fold_left (add_fresh_chunk vid) cs (vdev, dm)).2 = m_vdev_id_bm dm.
Proof.
  induction cs as [|c cs IH]; intros vdev dm Hnd; simpl.
  - split; [by intros c ?%elem_of_nil|]. done.
  - apply NoDup_cons in Hnd as [Hc Hnd].
    set (st1 := add_fresh_chunk vid (vdev, dm) c).
    destruct (IH st1.1 st1.2 Hnd) as (I1 & I2 & I3 & I4 & I5).
    replace (st1.1, st1.2) with st1 in * by (by destruct st1).
    assert (Hat : forall i, chunk_at st1.2 i
                  = if decide (chunk_id c = i) then Some c else chunk_at dm i).
    { intros i. subst st1. unfold add_fresh_chunk, chunk_at. destruct dm; simpl.
      apply mjoin_sv_set. }
    assert (Hvat : forall v, vdev_at st1.2 v
                   = if decide (vid = v) then Some st1.1 else vdev_at dm v).
    { intros v. subst st1. unfold add_fresh_chunk, vdev_at. destruct dm; simpl.
      apply mjoin_sv_set. }
    split.
    { intros x [->|Hx]%elem_of_cons; [|by apply I1].
      rewrite I2 by done. rewrite Hat. by rewrite decide_True. }
    split.
    { intros i Hi. apply not_elem_of_cons in Hi as [Hi1 Hi2].
      rewrite I2 by done. rewrite Hat. by rewrite decide_False. }
    split.
    { intros v Hv. rewrite I3 by done. rewrite Hvat. by rewrite decide_False. }
    split.
    { intros _. apply I4. rewrite Hvat. by rewrite decide_True. }
    rewrite I5. subst st1. unfold add_fresh_chunk. by destruct dm.
Qed.

(** What the loop of [create_vdev] over the devices leaves behind. *)
Record chunks_created (vid : nat) (dm : DeviceManager) (vdev : VirtualDev)
    (dm' : DeviceManager) (vdev' : VirtualDev) (new : list Chunk) : Prop :=
  mk_chunks_created {
  cc_chunks : vd_chunks vdev' = vd_chunks vdev ++ new;
  cc_info : vd_info vdev' = vd_info vdev;
  cc_nodup : NoDup (chunk_id <$> new);
  cc_fresh : forall c, c ∈ new ->
      (chunk_id c ∉ m_chunk_id_bm dm) /\ (chunk_id c < MAX_CHUNKS_IN_SYSTEM)%nat /\
      chunk_vdev_id c = vid;
  cc_bm : m_chunk_id_bm dm' = list_to_set (chunk_id <$> new) ∪ m_chunk_id_bm dm;
  cc_vdev_bm : m_vdev_id_bm dm' = m_vdev_id_bm dm;
  cc_table : forall c, c ∈ new -> chunk_at dm' (chunk_id c) = Some c;
  cc_table_old : forall i, i ∉ (chunk_id <$> new) -> chunk_at dm' i = chunk_at dm i;
  cc_vdevs_old : forall v, v <> vid -> vdev_at dm' v = vdev_at dm v;
  cc_vdev : vdev_at dm vid = Some vdev -> vdev_at dm' vid = Some vdev'
}.

Lemma create_vdev_chunks_fresh count vid csize pdevs : forall vdev dm vdev' dm',
  create_vdev_chunks pdevs count vid csize vdev dm = Ok (vdev', dm') ->
  exists new, chunks_created vid dm vdev dm' vdev' new.
Proof.
  induction pdevs as [|p pdevs IH]; intros vdev dm vdev' dm' H; simpl in H.
  - injection H as <- <-. exists []. constructor; try done.
    + by rewrite app_nil_r.
    + constructor.
    + by intros c ?%elem_of_nil.
    + simpl. by rewrite (left_id_L ∅ (∪)).
    + by intros c ?%elem_of_nil.
  - destruct (alloc_chunk_ids count dm) as [[ids dm1]|] eqn:Ea; simpl in H; [|done].
    destruct (get_pdev p dm1) as [pdev|] eqn:Ep; simpl in H; [|done].
    destruct (alloc_chunk_ids_fresh _ _ _ _ Ea) as (A1 & A2 & A3 & A4 & A5 & A6 & A7 & A8).
    set (chunks := map (fun id => mk_chunk id vid p csize) ids) in *.
    set (dm2 := set_all_pdevs _ dm1) in *.
    assert (Hids : chunk_id <$> chunks = ids).
    { subst chunks. clear. induction ids as [|i ids IH]; simpl; [done|]. by f_equal. }
    assert (Hnd : NoDup (chunk_id <$> chunks)) by (by rewrite Hids).
    destruct (fold_add_fresh_chunk vid chunks vdev dm2) as (F1 & F2 & F3 & F4).
    destruct (fold_add_fresh_chunk_tables vid chunks vdev dm2 Hnd)
      as (T1 & T2 & T3 & T4 & T5).
    set (st := fold_left (add_fresh_chunk vid) chunks (vdev, dm2)) in *.
    destruct (IH _ _ _ _ H) as (new & [C1 C2 C3 C4 C5 C6 C7 C8 C9 C10]).
    assert (Hbm2 : m_chunk_id_bm st.2 = list_to_set ids ∪ m_chunk_id_bm dm).
    { rewrite F4. subst dm2. destruct dm1; simpl in *. done. }
    assert (Hat2 : forall i, chunk_at dm2 i = chunk_at dm i).
    { intros i. unfold chunk_at. subst dm2. destruct dm1; simpl in *. by rewrite A7. }
    assert (Hvat2 : forall v, vdev_at dm2 v = vdev_at dm v).
    { intros v. unfold vdev_at. subst dm2. destruct dm1; simpl in *. by rewrite A6. }
    exists (chunks ++ new). constructor.
    + rewrite C1, F2. by rewrite app_assoc.
    + congruence.
    + rewrite fmap_app. apply NoDup_app. split; [done|]. split; [|done].
      intros i Hi (c & -> & Hc)%list_elem_of_fmap.
      destruct (C4 c Hc) as (Hn & _). apply Hn. rewrite Hbm2. rewrite Hids in Hi.
      apply elem_of_union_l. by apply elem_of_list_to_set.
    + intros c [Hc|Hc]%elem_of_app.
      * assert (Hi : chunk_id c ∈ ids) by (rewrite <- Hids; by apply list_elem_of_fmap_2).
        destruct (A3 _ Hi) as [? ?]. split; [done|]. split; [done|].
        subst chunks. apply list_elem_of_fmap in Hc as (i & -> & _). done.
      * destruct (C4 c Hc) as (Hn & Hlt & Hv). split; [|done].
        rewrite Hbm2 in Hn. intros Hb. apply Hn. by apply elem_of_union_r.
    + rewrite C5, Hbm2, fmap_app, Hids. apply set_eq. intros x.
      rewrite !elem_of_union, !elem_of_list_to_set, elem_of_app. tauto.
    + rewrite C6, T5. subst dm2. destruct dm1; simpl in *. done.
    + intros c [Hc|Hc]%elem_of_app; [|by apply C7].
      rewrite C8; [by apply T1|].
      intros (c' & Heq & Hc')%list_elem_of_fmap.
      destruct (C4 c' Hc') as (Hn & _). apply Hn. rewrite Hbm2, <- Heq, <- Hids.
      apply elem_of_union_l, elem_of_list_to_set. by apply list_elem_of_fmap_2.
    + intros i Hi. rewrite fmap_app in Hi. apply not_elem_of_app in Hi as [Hi1 Hi2].
      rewrite C8 by done. rewrite T2 by done. apply Hat2.
    + intros v Hv. rewrite C9 by done. rewrite T3 by done. apply Hvat2.
    + intros Hv. apply C10. apply T4. by rewrite Hvat2.
Qed.

Lemma write_vdev_infos_tables vinfo vid pdevs : forall dm dm',
  write_vdev_infos pdevs vinfo vid dm = Ok dm' ->
  m_vdevs dm' = m_vdevs dm /\ m_chunks dm' = m_chunks dm /\
  m_vdev_id_bm dm' = m_vdev_id_bm dm /\ m_chunk_id_bm dm' = m_chunk_id_bm dm.
Proof.
  induction pdevs as [|p pdevs IH]; intros dm dm' H; simpl in H.
  - by injection H as <-.
  - destruct (get_pdev p dm) as [pdev|]; simpl in H; [|done].
    destruct (IH _ _ H) as (I1 & I2 & I3 & I4). by destruct dm.
Qed.

Lemma create_vdev_effects
    (vparam : vdev_parameters) (dm dm' : DeviceManager) (vdev : VirtualDev) :
  create_vdev vparam dm = Ok (vdev, dm') ->
  (vdev_id (vd_info vdev) ∉ m_vdev_id_bm dm) /\
  (vdev_id (vd_info vdev) < MAX_VDEVS_IN_SYSTEM)%nat /\
  (forall j, (j < vdev_id (vd_info vdev))%nat -> j ∈ m_vdev_id_bm dm) /\
  m_vdev_id_bm dm' = {[ vdev_id (vd_info vdev) ]} ∪ m_vdev_id_bm dm /\
  vdev_at dm' (vdev_id (vd_info vdev)) = Some vdev /\
  (forall v, v <> vdev_id (vd_info vdev) -> vdev_at dm' v = vdev_at dm v) /\
  NoDup (chunk_id <$> vd_chunks vdev) /\
  (forall c, c ∈ vd_chunks vdev ->
     (chunk_id c ∉ m_chunk_id_bm dm) /\
     (chunk_id c < MAX_CHUNKS_IN_SYSTEM)%nat /\
     chunk_vdev_id c = vdev_id (vd_info vdev) /\
     chunk_at dm' (chunk_id c) = Some c) /\
  m_chunk_id_bm dm' = list_to_set (chunk_id <$> vd_chunks vdev) ∪ m_chunk_id_bm dm /\
  (forall i, i ∉ (chunk_id <$> vd_chunks vdev) -> chunk_at dm' i = chunk_at dm i).
Proof.
  unfold create_vdev. intros H.
  destruct (get_next_reset_bit _ _) as [vid|] eqn:Ev; [|done].
  destruct (first_reset_bit_least _ _ _ _ Ev) as (Hr & Hni & Hleast).
  set (dm1 := set_vdev_id_bm _ dm) in *.
  destruct (pdevs_by_type_internal _ dm1) as [pdevs|]; simpl in H; [|done].
  case_bool_decide; [done|].
  destruct (adjust_vdev_params _ _ dm1) as [[[vparam1 pdevs1] csize]|];
    simpl in H; [|done].
  destruct (match pdevs1 with [] => _ | _ => _ end) as [pdev0|]; simpl in H; [|done].
  set (vinfo := populate_vdev_info vparam1 vid pdevs1) in *.
  set (dm2 := set_vdevs _ dm1) in *.
  destruct (create_vdev_chunks _ _ _ _ _ dm2) as [[vdev1 dm3]|] eqn:Ec;
    simpl in H; [|done].
  destruct (write_vdev_infos _ _ _ dm3) as [dm4|] eqn:Ew; simpl in H; [|done].
  injection H as <- <-.
  destruct (create_vdev_chunks_fresh _ _ _ _ _ _ _ _ Ec)
    as (new & [C1 C2 C3 C4 C5 C6 C7 C8 C9 C10]).
  destruct (write_vdev_infos_tables _ _ _ _ _ Ew) as (W1 & W2 & W3 & W4).
  assert (Hid : vdev_id (vd_info vdev1) = vid).
  { rewrite C2. simpl. subst vinfo. unfold populate_vdev_info, compute_checksum.
    done. }
  assert (Hvat : forall v, vdev_at dm2 v
                 = if decide (vid = v) then Some (vdev_create_cb vinfo false)
                   else vdev_at dm v).
  { intros v. subst dm2 dm1. unfold vdev_at. destruct dm; simpl. apply mjoin_sv_set. }
  assert (Hbm2 : m_chunk_id_bm dm2 = m_chunk_id_bm dm) by (subst dm2 dm1; by destruct dm).
  simpl in C1. rewrite Hid, C1.
  split; [done|]. split; [lia|]. split; [intros j Hj; apply Hleast; lia|].
  split; [rewrite W3, C6; subst dm2 dm1; by destruct dm|].
  split.
  { unfold vdev_at. rewrite W1. apply C10. rewrite Hvat. by rewrite decide_True. }
  split.
  { intros v Hv. unfold vdev_at at 1. rewrite W1.
    change (mjoin (m_vdevs dm3 !! v)) with (vdev_at dm3 v).
    rewrite C9 by done. rewrite Hvat. by rewrite decide_False. }
  split; [done|]. split.
  { intros c Hc. destruct (C4 c Hc) as (Hn & Hlt & Hv). rewrite Hbm2 in Hn.
    split; [done|]. split; [done|]. split; [done|].
    unfold chunk_at. rewrite W2. by apply C7. }
  split; [by rewrite W4, C5, Hbm2|].
  intros i Hi. unfold chunk_at at 1. rewrite W2.
  change (mjoin (m_chunks dm3 !! i)) with (chunk_at dm3 i).
  rewrite C8 by done. subst dm2 dm1. unfold chunk_at. by destruct dm.
Qed.


(** A vdev that [create_vdev] returns has the least vdev id that was free,
    and that id is now taken; the vdev is the one registered under its id,
    and the other vdevs are as before. Its chunks carry pairwise distinct
    ids that were all free before the call and are within the bitmap; after
    the call exactly these ids are marked in addition, and the chunk table
    holds each chunk under its id. *)
Theorem create_vdev_allocates_fresh_ids
    (vparam : vdev_parameters) (dm dm' : DeviceManager) (vdev : VirtualDev) :
  create_vdev vparam dm = Ok (vdev, dm') ->
  (vdev_id (vd_info vdev) ∉ m_vdev_id_bm dm) /\
  (vdev_id (vd_info vdev) < MAX_VDEVS_IN_SYSTEM)%nat /\
  (forall j, (j < vdev_id (vd_info vdev))%nat -> j ∈ m_vdev_id_bm dm) /\
  m_vdev_id_bm dm' = {[ vdev_id (vd_info vdev) ]} ∪ m_vdev_id_bm dm /\
  vdev_at dm' (vdev_id (vd_info vdev)) = Some vdev /\
  (forall v, v <> vdev_id (vd_info vdev) -> vdev_at dm' v = vdev_at dm v) /\
  NoDup (chunk_id <$> vd_chunks vdev) /\
  (forall c, c ∈ vd_chunks vdev ->
     (chunk_id c ∉ m_chunk_id_bm dm) /\
     (chunk_id c < MAX_CHUNKS_IN_SYSTEM)%nat /\
     chunk_vdev_id c = vdev_id (vd_info vdev) /\
     chunk_at dm' (chunk_id c) = Some c) /\
  m_chunk_id_bm dm' = list_to_set (chunk_id <$> vd_chunks vdev) ∪ m_chunk_id_bm dm.
Proof.
  intros H.
  destruct (create_vdev_effects _ _ _ _ H)
    as (H1 & H2 & H3 & H4 & H5 & H6 & H7 & H8 & H9 & _).
  repeat (split; [assumption|]). assumption.
Qed.

(** The bitmaps and the tables agree: a vdev id is marked exactly when a
    vdev is registered under it, and a chunk id exactly when the chunk table
    holds a chunk under it. *)
Definition tables_agree (dm : DeviceManager) : Prop :=
  (forall v, has_vdev dm v = true <-> v ∈ m_vdev_id_bm dm) /\
  (forall i, is_Some (chunk_at dm i) <-> i ∈ m_chunk_id_bm dm).

(** [create_vdev] keeps the bitmaps and the tables in agreement. *)
Theorem create_vdev_keeps_tables_in_agreement
    (vparam : vdev_parameters) (dm dm' : DeviceManager) (vdev : VirtualDev) :
  tables_agree dm ->
  create_vdev vparam dm = Ok (vdev, dm') ->
  tables_agree dm'.
Proof.
  intros [Hv Hc] H.
  destruct (create_vdev_effects _ _ _ _ H)
    as (H1 & H2 & H3 & H4 & H5 & H6 & H7 & H8 & H9 & H10).
  split.
  - intros v. rewrite H4, elem_of_union, elem_of_singleton. unfold has_vdev.
    destruct (decide (v = vdev_id (vd_info vdev))) as [->|Hne].
    + rewrite H5. split; [by left|done].
    + rewrite H6 by done. specialize (Hv v). unfold has_vdev in Hv.
      rewrite Hv. split; [by right|]. by intros [?|?].
  - intros i. rewrite H9, elem_of_union, elem_of_list_to_set.
    destruct (decide (i ∈ chunk_id <$> vd_chunks vdev)) as [Hin|Hout].
    + split; [by left|]. intros _.
      apply list_elem_of_fmap in Hin as (c & -> & Hcin).
      destruct (H8 c Hcin) as (_ & _ & _ & ->). by eexists.
    + rewrite H10 by done. rewrite Hc. split; [by right|]. by intros [?|?].
Qed.

Lemma register_vdevs_agree vs : forall dm,
  (forall v, has_vdev dm v = true <-> v ∈ m_vdev_id_bm dm) ->
  forall v, has_vdev (register_vdevs vs dm) v = true
            <-> v ∈ m_vdev_id_bm (register_vdevs vs dm).
Proof.
  induction vs as [|vi vs IH]; intros dm Hv; simpl; [done|].
  apply IH. intros v. destruct dm as [a b c d e f g h i j]; simpl.
  unfold has_vdev, vdev_at, set_bit; simpl.
  rewrite mjoin_sv_set, elem_of_union, elem_of_singleton.
  destruct (decide (vdev_id vi = v)) as [->|Hne].
  - split; [by left|done].
  - specialize (Hv v). unfold has_vdev, vdev_at in Hv. simpl in Hv. rewrite Hv.
    split; [by right|]. intros [?|?]; [congruence|done].
Qed.

Lemma load_all_chunks_all_there pdevs : forall i dm dm',
  load_all_chunks pdevs i dm = Ok dm' -> Forall is_Some pdevs.
Proof.
  induction pdevs as [|[pdev|] pdevs IH]; intros i dm dm' H; simpl in H.
  - constructor.
  - destruct (load_chunks _ _ dm) as [kept dm1]. constructor; [by eexists|].
    by eapply IH.
  - done.
Qed.

(** [load_vdevs] keeps the bitmaps and the tables in agreement: what it
    registers it marks, and it marks nothing else. *)
Theorem load_vdevs_keeps_tables_in_agreement (dm dm' : DeviceManager) :
  tables_agree dm ->
  load_vdevs dm = Ok dm' ->
  tables_agree dm'.
Proof.
  intros [Hv Hc]. unfold load_vdevs.
  destruct (load_vdev_infos dm) as [dm1|] eqn:Hinfos; simpl; [|done].
  pose proof (load_vdev_infos_registered _ _ Hinfos) as [_ R2 R3 _ _ _ _ _].
  assert (Hv1 : forall v, has_vdev dm1 v = true <-> v ∈ m_vdev_id_bm dm1).
  { revert Hinfos. unfold load_vdev_infos.
    destruct (m_pdevs_data dm) as [l|]; simpl.
    - destruct (read_vdev_infos l dm) as [vs|]; simpl; [|done].
      destruct (m_pdevs_fast (register_vdevs vs dm)) as [l'|]; simpl.
      + destruct (read_vdev_infos l' _) as [vs'|]; simpl; [|done].
        intros [= <-]. by apply register_vdevs_agree, register_vdevs_agree.
      + intros [= <-]. by apply register_vdevs_agree.
    - destruct (m_pdevs_fast dm) as [l'|]; simpl.
      + destruct (read_vdev_infos l' _) as [vs'|]; simpl; [|done].
        intros [= <-]. by apply register_vdevs_agree.
      + by intros [= <-]. }
  assert (Hc1 : forall i, is_Some (chunk_at dm1 i) <-> i ∈ m_chunk_id_bm dm1).
  { intros i. unfold chunk_at. rewrite R2, R3. apply Hc. }
  case_bool_decide as Hlen; [|by intros [= <-]].
  intros Hload.
  pose proof (load_all_chunks_all_there _ _ _ _ Hload) as Hall.
  destruct (load_all_chunks_loaded (m_all_pdevs dm1) 0 dm1 [] dm1
              (loaded_from_nil dm1) Hall) as (dm2 & Hload2 & [L1 L2 L3 L4 L5 L6 L7]).
  rewrite Hload in Hload2. injection Hload2 as <-.
  split.
  - intros v. rewrite L1, L7. apply Hv1.
  - intros i. rewrite L3. split.
    + intros Hsome. destruct (L4 i) as [Heq|(c & Hin & Hid & Hown & _)].
      * left. apply Hc1. by rewrite <- Heq.
      * right. by exists c.
    + intros [Hin|(c & Hin & <- & Hown)].
      * destruct (L4 i) as [Heq|(c & _ & _ & _ & Heq)].
        -- rewrite Heq. by apply Hc1.
        -- rewrite Heq. by eexists.
      * destruct (L5 c Hin Hown) as (c' & -> & _). by eexists.
Qed.

Lemma tables_agree_empty dm :
  m_vdevs dm = [] -> m_chunks dm = [] ->
  m_vdev_id_bm dm = ∅ -> m_chunk_id_bm dm = ∅ ->
  tables_agree dm.
Proof.
  intros H1 H2 H3 H4. split.
  - intros v. unfold has_vdev, vdev_at. rewrite H1, H3, lookup_nil. simpl.
    split; [done|]. by intros ?%elem_of_empty.
  - intros i. unfold chunk_at. rewrite H2, H4, lookup_nil. simpl.
    split; [by intros [? ?]|]. by intros ?%elem_of_empty.
Qed.

(** *** Where [create_vdev] puts the chunks *)

Lemma create_vdev_chunks_placement count vid csize pdevs : forall vdev dm vdev' dm',
  create_vdev_chunks pdevs count vid csize vdev dm = Ok (vdev', dm') ->
  forall c, c ∈ vd_chunks vdev' -> c ∈ vd_chunks vdev \/ chunk_pdev_id c ∈ pdevs.
Proof.
  induction pdevs as [|p pdevs IH]; intros vdev dm vdev' dm' H c Hc; simpl in H.
  - injection H as <- <-. by left.
  - destruct (alloc_chunk_ids count dm) as [[ids dm1]|]; simpl in H; [|done].
    destruct (get_pdev p dm1) as [pdev|]; simpl in H; [|done].
    set (chunks := map (fun id => mk_chunk id vid p csize) ids) in *.
    set (dm2 := set_all_pdevs _ dm1) in *.
    destruct (fold_add_fresh_chunk vid chunks vdev dm2) as (_ & F2 & _).
    destruct (IH _ _ _ _ H c Hc) as [Hold|Hin].
    + rewrite F2 in Hold. apply elem_of_app in Hold as [Hold|Hnew]; [by left|].
      right. subst chunks. apply list_elem_of_fmap in Hnew as (i & -> & _).
      simpl. by left.
    + right. by right.
Qed.

Lemma adjust_vdev_params_chosen vparam pdevs dm vparam1 pdevs1 csize :
  adjust_vdev_params vparam pdevs dm = Ok (vparam1, pdevs1, csize) ->
  pdevs1 = chosen_pdevs (vp_multi_pdev_opts vparam) pdevs.
Proof.
  unfold adjust_vdev_params, chosen_pdevs. intros H.
  destruct (vp_multi_pdev_opts vparam); simpl in H.
  - destruct (get_pdevs pdevs dm); simpl in H; [|done].
    destruct (round_up _ _); simpl in H; [|done].
    destruct (round_up _ _); simpl in H; [|done].
    destruct (_ =? 0); [done|]. by injection H as _ <- _.
  - destruct pdevs as [|p0 pdevs']; [done|].
    destruct (get_pdev p0 dm); simpl in H; [|done].
    destruct (round_up _ _); simpl in H; [|done].
    destruct (round_up _ _); simpl in H; [|done].
    destruct (_ =? 0); [done|]. by injection H as _ <- _.
  - destruct (round_up _ _); simpl in H; [|done].
    destruct (_ =? 0); [done|]. by injection H as _ <- _.
  - destruct (round_up _ _); simpl in H; [|done].
    destruct (_ =? 0); [done|]. by injection H as _ <- _.
Qed.

(** The chunks of a vdev that [create_vdev] returns lie on devices of the
    tier asked for, or of the data tier when the manager has no list for
    that tier, and on nothing else; with a single-device policy they all lie
    on the first device of that list. *)
Theorem create_vdev_places_chunks_on_tier
    (vparam : vdev_parameters) (dm dm' : DeviceManager) (vdev : VirtualDev) :
  create_vdev vparam dm = Ok (vdev, dm') ->
  exists ids,
    pdevs_find (match pdevs_find (vp_dev_type vparam) dm with
                | Some _ => vp_dev_type vparam
                | None => Data
                end) dm = Some ids /\
    ids <> [] /\
    (forall c, c ∈ vd_chunks vdev -> chunk_pdev_id c ∈ ids) /\
    ((vp_multi_pdev_opts vparam = SINGLE_FIRST_PDEV \/
      vp_multi_pdev_opts vparam = SINGLE_ANY_PDEV) ->
     forall c, c ∈ vd_chunks vdev -> Some (chunk_pdev_id c) = head ids).
Proof.
  unfold create_vdev. intros H.
  destruct (get_next_reset_bit _ _) as [vid|]; [|done].
  set (dm1 := set_vdev_id_bm _ dm) in *.
  assert (Hfind : forall t, pdevs_find t dm1 = pdevs_find t dm)
    by (intros []; subst dm1; by destruct dm).
  destruct (pdevs_by_type_internal _ dm1) as [pdevs|] eqn:Ep; simpl in H; [|done].
  case_bool_decide as Hlen; [done|].
  destruct (adjust_vdev_params _ _ dm1) as [[[vparam1 pdevs1] csize]|] eqn:Ea;
    simpl in H; [|done].
  apply adjust_vdev_params_chosen in Ea.
  destruct (match pdevs1 with [] => _ | _ => _ end) as [pdev0|]; simpl in H; [|done].
  destruct (create_vdev_chunks _ _ _ _ _ _) as [[vdev1 dm3]|] eqn:Ec;
    simpl in H; [|done].
  destruct (write_vdev_infos _ _ _ dm3) as [dm4|]; simpl in H; [|done].
  injection H as <- <-.
  pose proof (create_vdev_chunks_placement _ _ _ _ _ _ _ _ Ec) as Hplace.
  simpl in Hplace.
  exists pdevs. split.
  { unfold pdevs_by_type_internal in Ep. rewrite !Hfind in Ep.
    destruct (pdevs_find (vp_dev_type vparam) dm) as [l|] eqn:El.
    - rewrite El. congruence.
    - destruct (pdevs_find Data dm); congruence. }
  split; [by destruct pdevs|]. split.
  { intros c Hc. destruct (Hplace c Hc) as [Hnil|Hin]; [by apply elem_of_nil in Hnil|].
    subst pdevs1. unfold chosen_pdevs in Hin.
    destruct (vp_multi_pdev_opts vparam); try done;
      by apply (subseteq_take 1 pdevs). }
  intros Hsingle c Hc.
  destruct (Hplace c Hc) as [Hnil|Hin]; [by apply elem_of_nil in Hnil|].
  subst pdevs1. unfold chosen_pdevs in Hin.
  destruct pdevs as [|p0 pdevs']; [done|].
  destruct Hsingle as [E|E]; rewrite E in Hin; simpl in Hin;
    apply list_elem_of_singleton in Hin; by rewrite Hin.
Qed.

(** *** What a call that throws leaves behind *)

(** [create_vdev] changes the manager as it goes, and a throw undoes
    nothing. The functions below give the manager as the call leaves it,
    whether it returns or stops: they follow [alloc_chunk_ids],
    [create_vdev_chunks], [write_vdev_infos] and [create_vdev] step by step
    and keep the state reached where those stop. *)
Fixpoint alloc_chunk_ids_leaves (n : nat) (dm : DeviceManager) : DeviceManager :=
  match n with
  | O => dm
  | S n' =>
      match get_next_reset_bit MAX_CHUNKS_IN_SYSTEM (m_chunk_id_bm dm) with
      | None => dm
      | Some chunk_id =>
          alloc_chunk_ids_leaves n'
            (set_chunk_id_bm (set_bit chunk_id (m_chunk_id_bm dm)) dm)
      end
  end.

Fixpoint create_vdev_chunks_leaves (pdevs : list nat) (count : nat) (vdev_id : nat)
    (chunk_size : Z) (vdev : VirtualDev) (dm : DeviceManager) : DeviceManager :=
  match pdevs with
  | [] => dm
  | p :: pdevs' =>
      match alloc_chunk_ids count dm with
      | Fatal _ => alloc_chunk_ids_leaves count dm
      | Ok (chunk_ids, dm1) =>
          match get_pdev p dm1 with
          | Fatal _ => dm1
          | Ok pdev =>
              let r := create_chunks p pdev chunk_ids vdev_id chunk_size in
              let dm2 := set_all_pdevs (<[p := Some r.2]> (m_all_pdevs dm1)) dm1 in
              let st := fold_left (add_fresh_chunk vdev_id) r.1 (vdev, dm2) in
              create_vdev_chunks_leaves pdevs' count vdev_id chunk_size st.1 st.2
          end
      end
  end.

Fixpoint write_vdev_infos_leaves (pdevs : list nat) (vinfo : vdev_info) (vdev_id : nat)
    (dm : DeviceManager) : DeviceManager :=
  match pdevs with
  | [] => dm
  | p :: pdevs' =>
      match get_pdev p dm with
      | Fatal _ => dm
      | Ok pdev =>
          write_vdev_infos_leaves pdevs' vinfo vdev_id
            (set_all_pdevs (<[p := Some (write_vdev_info vinfo vdev_id pdev)]>
                              (m_all_pdevs dm)) dm)
      end
  end.

Definition create_vdev_leaves (vparam : vdev_parameters) (dm : DeviceManager)
  : DeviceManager :=
  match get_next_reset_bit MAX_VDEVS_IN_SYSTEM (m_vdev_id_bm dm) with
  | None => dm
  | Some vdev_id =>
      let dm1 := set_vdev_id_bm (set_bit vdev_id (m_vdev_id_bm dm)) dm in
      match pdevs_by_type_internal (vp_dev_type vparam) dm1 with
      | Fatal _ => dm1
      | Ok pdevs =>
          if bool_decide (length pdevs = 0%nat) then dm1
          else
            match adjust_vdev_params vparam pdevs dm1 with
            | Fatal _ => dm1
            | Ok (vparam1, pdevs1, chunk_size) =>
                match (match pdevs1 with
                       | [] => Fatal NULL_DEREF
                       | p0 :: _ => get_pdev p0 dm1
                       end) with
                | Fatal _ => dm1
                | Ok _ =>
                    let vinfo := populate_vdev_info vparam1 vdev_id pdevs1 in
                    let vdev := vdev_create_cb vinfo false in
                    let dm2 := set_vdevs (sv_set (m_vdevs dm1) vdev_id (Some vdev)) dm1 in
                    let count :=
                      Z.to_nat (vp_num_chunks vparam1 / Z.of_nat (length pdevs1)) in
                    match create_vdev_chunks pdevs1 count vdev_id chunk_size vdev dm2 with
                    | Fatal _ =>
                        create_vdev_chunks_leaves pdevs1 count vdev_id chunk_size vdev dm2
                    | Ok (_, dm3) => write_vdev_infos_leaves pdevs1 vinfo vdev_id dm3
                    end
                end
            end
      end
  end.

(** The vdev records a device stores, when slot [i] of the device table
    holds one. *)
Definition stored_vdev_slots (dm : DeviceManager) (i : nat) : option (list vdev_info) :=
  (fun pdev => img_vdev_slots (pd_image pdev)) <$> mjoin (m_all_pdevs dm !! i).

(** A call that returns leaves the manager it returns. *)
Lemma write_vdev_infos_leaves_ok pdevs vinfo vid : forall dm dm',
  write_vdev_infos pdevs vinfo vid dm = Ok dm' ->
  write_vdev_infos_leaves pdevs vinfo vid dm = dm'.
Proof.
  induction pdevs as [|p pdevs IH]; intros dm dm' H; simpl in *.
  - by injection H.
  - destruct (get_pdev p dm) as [pdev|]; simpl in H; [|done]. by apply IH.
Qed.

Lemma create_vdev_leaves_ok (vparam : vdev_parameters) (dm dm' : DeviceManager)
    (vdev : VirtualDev) :
  create_vdev vparam dm = Ok (vdev, dm') -> create_vdev_leaves vparam dm = dm'.
Proof.
  unfold create_vdev, create_vdev_leaves. intros H.
  destruct (get_next_reset_bit _ _) as [vid|]; [|done].
  destruct (pdevs_by_type_internal _ _) as [pdevs|]; simpl in H; [|done].
  case_bool_decide; [done|].
  destruct (adjust_vdev_params _ _ _) as [[[vparam1 pdevs1] csize]|];
    simpl in H; [|done].
  destruct (match pdevs1 with [] => _ | _ => _ end) as [pdev0|]; simpl in H; [|done].
  destruct (create_vdev_chunks _ _ _ _ _ _) as [[vdev1 dm3]|]; simpl in H; [|done].
  destruct (write_vdev_infos _ _ _ dm3) as [dm4|] eqn:Ew; simpl in H; [|done].
  injection H as _ <-. by apply write_vdev_infos_leaves_ok.
Qed.

Lemma get_pdev_fatal i dm f : get_pdev i dm = Fatal f -> f = NULL_DEREF.
Proof. unfold get_pdev. destruct (mjoin _); [done|]. by intros [= <-]. Qed.

Lemma get_pdevs_fatal ids dm f : get_pdevs ids dm = Fatal f -> f = NULL_DEREF.
Proof.
  induction ids as [|i ids IH]; simpl; [done|].
  destruct (get_pdev i dm) as [pd|f'] eqn:E; simpl.
  - destruct (get_pdevs ids dm); simpl; [done|]. intros [= <-]. by apply IH.
  - intros [= <-]. by eapply get_pdev_fatal.
Qed.

Lemma round_up_fatal a b f : round_up a b = Fatal f -> f = DIV_BY_ZERO.
Proof. unfold round_up. destruct (b =? 0); [|done]. by intros [= <-]. Qed.

Lemma write_vdev_infos_fatal pdevs vinfo vid : forall dm f,
  write_vdev_infos pdevs vinfo vid dm = Fatal f -> f = NULL_DEREF.
Proof.
  induction pdevs as [|p ps IH]; intros dm f; simpl; [done|].
  destruct (get_pdev p dm) as [pd|f'] eqn:Eg; simpl; [apply IH|].
  intros [= <-]. by eapply get_pdev_fatal.
Qed.

(** Nothing in the adjustment of the parameters throws [std::out_of_range]. *)
Lemma adjust_vdev_params_fatal vparam pdevs dm f :
  adjust_vdev_params vparam pdevs dm = Fatal f -> f <> OUT_OF_RANGE.
Proof.
  unfold adjust_vdev_params. intros H.
  match type of H with
  | (?X ≫= ?K) = _ =>
      assert (HK : forall a, K a = Fatal f -> f <> OUT_OF_RANGE);
      [|destruct X as [a|f'] eqn:EX; simpl in H; [by apply (HK a)|]]
  end.
  - intros [n ps]. destruct (round_up _ _) as [sz|f'] eqn:Er; simpl.
    + destruct (_ =? 0); [|done]. by intros [= <-].
    + intros [= <-]. by rewrite (round_up_fatal _ _ _ Er).
  - injection H as <-. destruct (vp_multi_pdev_opts vparam); try done.
    + destruct (get_pdevs pdevs dm) as [ps|f2] eqn:Eg; simpl in EX.
      * destruct (round_up _ _) as [n|f3] eqn:Er; simpl in EX; [done|].
        injection EX as <-. by rewrite (round_up_fatal _ _ _ Er).
      * injection EX as <-. by rewrite (get_pdevs_fatal _ _ _ Eg).
    + destruct pdevs as [|p0 ?]; [by injection EX as <-|].
      destruct (get_pdev p0 dm) as [pd|f2] eqn:Eg; simpl in EX.
      * destruct (round_up _ _) as [n|f3] eqn:Er; simpl in EX; [done|].
        injection EX as <-. by rewrite (round_up_fatal _ _ _ Er).
      * injection EX as <-. by rewrite (get_pdev_fatal _ _ _ Eg).
Qed.

(** The inner loop stops only for want of a chunk id, and then every chunk
    id is taken. *)
Lemma alloc_chunk_ids_throws k : forall dm f,
  alloc_chunk_ids k dm = Fatal f ->
  f = OUT_OF_RANGE /\
  (forall i, (i < MAX_CHUNKS_IN_SYSTEM)%nat ->
     i ∈ m_chunk_id_bm (alloc_chunk_ids_leaves k dm)) /\
  m_all_pdevs (alloc_chunk_ids_leaves k dm) = m_all_pdevs dm /\
  m_vdevs (alloc_chunk_ids_leaves k dm) = m_vdevs dm /\
  m_vdev_id_bm (alloc_chunk_ids_leaves k dm) = m_vdev_id_bm dm.
Proof.
  induction k as [|k IH]; intros dm f H; simpl in *; [done|].
  destruct (get_next_reset_bit _ _) as [i|] eqn:Ei.
  - destruct (alloc_chunk_ids k _) as [[ids1 dm1]|f'] eqn:Ea; simpl in H; [done|].
    injection H as <-.
    destruct (IH _ _ Ea) as (I1 & I2 & I3 & I4 & I5).
    split; [done|]. split; [done|]. rewrite I3, I4, I5. by destruct dm.
  - injection H as <-. split; [done|]. split; [|done].
    intros i Hi. apply (first_reset_bit_None _ _ _ Ei). lia.
Qed.

Lemma fold_add_fresh_chunk_has_vdev vid cs : forall vdev dm,
  has_vdev dm vid = true ->
  has_vdev (fold_left (add_fresh_chunk vid) cs (vdev, dm)).2 vid = true.
Proof.
  induction cs as [|c cs IH]; intros vdev dm Hv; simpl; [done|].
  apply IH. unfold add_fresh_chunk, has_vdev, vdev_at. simpl.
  destruct dm; simpl. rewrite mjoin_sv_set. by destruct (decide (vid = vid)).
Qed.

Lemma stored_vdev_slots_create_chunks dm p pdev ids vid csize i :
  get_pdev p dm = Ok pdev ->
  stored_vdev_slots
    (set_all_pdevs (<[p := Some (create_chunks p pdev ids vid csize).2]>
                      (m_all_pdevs dm)) dm) i
  = stored_vdev_slots dm i.
Proof.
  unfold get_pdev, stored_vdev_slots. intros Hp.
  destruct (mjoin (m_all_pdevs dm !! p)) as [pd|] eqn:E; [|done].
  injection Hp as ->. destruct dm as [a b c d e f g h bm j]; simpl in *.
  destruct (decide (i = p)) as [->|Hne].
  - destruct (e !! p) as [o|] eqn:El; [|done].
    rewrite list_lookup_insert_eq by (by eapply lookup_lt_Some).
    simpl in *. by subst o.
  - by rewrite list_lookup_insert_ne.
Qed.

(** The loop over the devices, when it stops for want of a chunk id: every
    chunk id is taken, the vdev is still registered, and no vdev record was
    touched. *)
Lemma create_vdev_chunks_throws pdevs count vid csize : forall vdev dm,
  create_vdev_chunks pdevs count vid csize vdev dm = Fatal OUT_OF_RANGE ->
  (forall i, (i < MAX_CHUNKS_IN_SYSTEM)%nat ->
     i ∈ m_chunk_id_bm (create_vdev_chunks_leaves pdevs count vid csize vdev dm)) /\
  m_vdev_id_bm (create_vdev_chunks_leaves pdevs count vid csize vdev dm)
    = m_vdev_id_bm dm /\
  (has_vdev dm vid = true ->
   has_vdev (create_vdev_chunks_leaves pdevs count vid csize vdev dm) vid = true) /\
  (forall i, stored_vdev_slots (create_vdev_chunks_leaves pdevs count vid csize vdev dm) i
             = stored_vdev_slots dm i).
Proof.
  induction pdevs as [|p pdevs IH]; intros vdev dm H;
    cbn [create_vdev_chunks create_vdev_chunks_leaves] in *; [done|].
  destruct (alloc_chunk_ids count dm) as [[ids dm1]|f] eqn:Ea; simpl in H.
  - destruct (alloc_chunk_ids_fresh _ _ _ _ Ea) as (_ & _ & _ & _ & A1 & A2 & _ & A3).
    destruct (get_pdev p dm1) as [pdev|f] eqn:Ep; simpl in H;
      [|by rewrite (get_pdev_fatal _ _ _ Ep) in H].
    set (r := create_chunks p pdev ids vid csize) in *.
    set (dm2 := set_all_pdevs _ dm1) in *.
    destruct (fold_add_fresh_chunk_tables vid r.1 vdev dm2) as (_ & _ & _ & _ & F1);
      [subst r; simpl; rewrite <- list_fmap_compose; simpl;
       rewrite list_fmap_id;
       by destruct (alloc_chunk_ids_fresh _ _ _ _ Ea) as (_ & ? & _)|].
    destruct (fold_add_fresh_chunk vid r.1 vdev dm2) as (_ & _ & F2 & _).
    destruct (IH _ _ H) as (I1 & I2 & I3 & I4).
    change (map _ ids) with r.1 in I1, I2, I3, I4.
    split; [done|]. split; [|split].
    + rewrite I2, F1. subst dm2. rewrite <- A3. by destruct dm1.
    + intros Hv. apply I3. apply fold_add_fresh_chunk_has_vdev.
      subst dm2. unfold has_vdev, vdev_at in *. rewrite <- A2 in Hv. by destruct dm1.
    + intros i. rewrite I4. unfold stored_vdev_slots at 1. rewrite F2.
      fold (stored_vdev_slots dm2 i).
      transitivity (stored_vdev_slots dm1 i).
      * exact (stored_vdev_slots_create_chunks dm1 p pdev ids vid csize i Ep).
      * unfold stored_vdev_slots. by rewrite A1.
  - destruct (alloc_chunk_ids_throws _ _ _ Ea) as (_ & T1 & T2 & T3 & T4).
    split; [done|]. split; [done|]. split.
    + unfold has_vdev, vdev_at. by rewrite T3.
    + intros i. unfold stored_vdev_slots. by rewrite T2.
Qed.

(** With every vdev id taken, [create_vdev] throws [std::out_of_range],
    whatever is asked for, and leaves the manager as it found it. *)
Theorem create_vdev_without_free_vdev_id (vparam : vdev_parameters) (dm : DeviceManager) :
  (forall i, (i < MAX_VDEVS_IN_SYSTEM)%nat -> i ∈ m_vdev_id_bm dm) ->
  create_vdev vparam dm = Fatal OUT_OF_RANGE /\
  create_vdev_leaves vparam dm = dm.
Proof.
  intros Hfull. unfold create_vdev, create_vdev_leaves, get_next_reset_bit.
  rewrite first_reset_bit_full; [done|]. intros i Hi. apply Hfull. lia.
Qed.

(** When a vdev id is free and [create_vdev] throws [std::out_of_range] all
    the same, it ran out of chunk ids, and the throw leaves its work behind:
    the vdev id it took stays marked and the vdev stays registered under
    it, every chunk id is taken, and no device had a vdev record written. *)
Theorem create_vdev_out_of_chunk_ids
    (vparam : vdev_parameters) (dm : DeviceManager) (v : nat) :
  get_next_reset_bit MAX_VDEVS_IN_SYSTEM (m_vdev_id_bm dm) = Some v ->
  create_vdev vparam dm = Fatal OUT_OF_RANGE ->
  (v ∉ m_vdev_id_bm dm) /\
  m_vdev_id_bm (create_vdev_leaves vparam dm) = {[ v ]} ∪ m_vdev_id_bm dm /\
  has_vdev (create_vdev_leaves vparam dm) v = true /\
  (forall i, (i < MAX_CHUNKS_IN_SYSTEM)%nat ->
     i ∈ m_chunk_id_bm (create_vdev_leaves vparam dm)) /\
  (forall i, stored_vdev_slots (create_vdev_leaves vparam dm) i = stored_vdev_slots dm i).
Proof.
  unfold create_vdev, create_vdev_leaves. intros Ev H. rewrite Ev in *.
  split; [by eapply first_reset_bit_Some|].
  set (dm1 := set_vdev_id_bm _ dm) in *.
  destruct (pdevs_by_type_internal _ dm1) as [pdevs|f] eqn:Ep; simpl in H.
  2: { exfalso. unfold pdevs_by_type_internal in Ep.
       destruct (pdevs_find _ dm1); [done|]. destruct (pdevs_find Data dm1); [done|].
       congruence. }
  case_bool_decide; [done|].
  destruct (adjust_vdev_params _ _ dm1) as [[[vparam1 pdevs1] csize]|f] eqn:Eadj;
    simpl in H.
  2: { exfalso. injection H as ->. by apply adjust_vdev_params_fatal in Eadj. }
  destruct (match pdevs1 with [] => _ | _ => _ end) as [pdev0|f] eqn:E0; simpl in H.
  2: { exfalso. injection H as ->. destruct pdevs1 as [|p0 ?]; [done|].
       by apply get_pdev_fatal in E0. }
  set (vinfo := populate_vdev_info vparam1 v pdevs1) in *.
  set (dm2 := set_vdevs _ dm1) in *.
  destruct (create_vdev_chunks _ _ _ _ _ dm2) as [[vdev1 dm3]|f] eqn:Ec; simpl in H.
  { exfalso. destruct (write_vdev_infos _ _ _ dm3) as [dm4|f] eqn:Ew; simpl in H; [done|].
    injection H as ->. by apply write_vdev_infos_fatal in Ew. }
  injection H as ->.
  destruct (create_vdev_chunks_throws _ _ _ _ _ _ Ec) as (T1 & T2 & T3 & T4).
  split; [|split; [|split; [done|]]].
  - rewrite T2. subst dm2 dm1. by destruct dm.
  - apply T3. subst dm2. unfold has_vdev, vdev_at. destruct dm1; simpl.
    rewrite mjoin_sv_set. by destruct (decide (v = v)).
  - intros i. rewrite T4. subst dm2 dm1. by destruct dm.
Qed.

(** *** The constructor and [format_devices] *)

(** [first_block::is_valid] and [PhysicalDev::get_dev_size] are not in this
    file of the sources. *)
Variable fblk_valid : first_block -> bool.
Variable get_dev_size : string -> Z.

(** The loop of the constructor over the devices: [m_first_time_boot] and
    [m_first_blk_hdr] at its end. It leaves the loop at the first valid
    first block. *)
Fixpoint scan_first_blocks (devs : list dev_info) (first_blk_hdr : first_block_header)
  : bool * first_block_header :=
  match devs with
  | [] => (true, first_blk_hdr)
  | d :: devs' =>
      let fblk := img_first_block (read_device (dev_name d)) in
      if fblk_valid fblk then
        (false,
         if gen_number (hdr fblk) >? gen_number first_blk_hdr
         then hdr fblk else first_blk_hdr)
      else scan_first_blocks devs' first_blk_hdr
  end.

(** [DeviceManager(devs, vdev_create_cb)], without the open flags:
    [m_first_time_boot] and the manager. [blank_hdr] is the header as its
    default constructor leaves it. *)
Definition DeviceManager_ctor (devs : list dev_info) (blank_hdr : first_block_header)
  : bool * DeviceManager :=
  let r := scan_first_blocks devs blank_hdr in
  (r.1, mk_dm devs r.2 None None [] [] [] ∅ ∅ []).

Definition set_dev_infos (x : list dev_info) (dm : DeviceManager) :=
  let '(mk_dm _ b c d e f g h i j) := dm in mk_dm x b c d e f g h i j.
Definition set_first_blk_hdr (x : first_block_header) (dm : DeviceManager) :=
  let '(mk_dm a _ c d e f g h i j) := dm in mk_dm a x c d e f g h i j.

(** Modelled from the spec: [PhysicalDev::write_super_block] and
    [format_chunks] are not among the sources. The super block area is
    written from a zeroed buffer that holds the first block: the device then
    stores that first block, vdev slots that are all clear, and no chunk. *)
Definition formatted_image (h : first_block_header) (pinfo : pdev_info_header)
  : device_image :=
  mk_image (mk_first_block h pinfo)
           (replicate MAX_VDEVS_IN_SYSTEM
              (mk_vdev_info 0 0 0 0 0 false Data ALL_PDEV_STRIPED EmptyString 0))
           [].

(** The loop of [format_devices]; [cur_pdev_id] is [m_cur_pdev_id], which
    [populate_pdev_info] hands out and increments. The loop runs over
    [m_dev_infos] by reference and fills in a device size given as zero. *)
Fixpoint format_loop (devs : list dev_info) (cur_pdev_id : nat) (dm : DeviceManager)
  : list dev_info * nat * DeviceManager :=
  match devs with
  | [] => ([], cur_pdev_id, dm)
  | dinfo :: devs' =>
      let dinfo1 := if dev_size dinfo =? 0
                    then mk_dev_info (dev_name dinfo) (dev_type dinfo)
                                     (get_dev_size (dev_name dinfo))
                    else dinfo in
      let pinfo := mk_pdev_hdr cur_pdev_id (system_uuid (m_first_blk_hdr dm)) in
      let pdev := mk_pdev dinfo1 pinfo (formatted_image (m_first_blk_hdr dm) pinfo)
                          (drive_streams (dev_name dinfo1)) [] in
      let l := default [] (pdevs_find (dev_type dinfo1) dm) in
      let dm1 := pdevs_store (dev_type dinfo1) (l ++ [pdev_id pinfo]) dm in
      let dm2 := set_all_pdevs (sv_set (m_all_pdevs dm1) (pdev_id pinfo) (Some pdev)) dm1 in
      let r := format_loop devs' (S cur_pdev_id) dm2 in
      (dinfo1 :: r.1.1, r.1.2, r.2)
  end.

(** [format_devices()]; [uuid] is what [boost::uuids::random_generator]
    returns. *)
Definition format_devices (uuid : Z) (cur_pdev_id : nat) (dm : DeviceManager)
  : nat * DeviceManager :=
  let h := m_first_blk_hdr dm in
  let h1 := mk_fb_hdr CURRENT_SUPERBLOCK_VERSION (wrap64 (gen_number h + 1))
                      (wrap32 (Z.of_nat (length (m_dev_infos dm)))) uuid in
  let r := format_loop (m_dev_infos dm) cur_pdev_id (set_first_blk_hdr h1 dm) in
  (r.1.2, set_dev_infos r.1.1 r.2).

(** The first block of a device, as the constructor reads it. *)
Definition dev_first_block (d : dev_info) : first_block :=
  img_first_block (read_device (dev_name d)).

Lemma scan_first_blocks_skips pre : forall rest h,
  Forall (fun x => fblk_valid (dev_first_block x) = false) pre ->
  scan_first_blocks (pre ++ rest) h = scan_first_blocks rest h.
Proof.
  induction pre as [|x pre IH]; intros rest h Hpre; simpl; [done|].
  apply Forall_cons in Hpre as [Hx Hpre]. unfold dev_first_block in Hx.
  rewrite Hx. by apply IH.
Qed.

(** The constructor looks no further than the first device whose first
    block is valid: the header it keeps is that device's when its generation
    is above the blank header's, and the blank one otherwise, whatever the
    devices after it store, a higher generation included. With no valid
    first block it reports a first boot and keeps the blank header. *)
Theorem DeviceManager_ctor_stops_at_first_valid
    (pre post : list dev_info) (d : dev_info) (blank_hdr : first_block_header) :
  Forall (fun x => fblk_valid (dev_first_block x) = false) pre ->
  fblk_valid (dev_first_block d) = true ->
  DeviceManager_ctor (pre ++ d :: post) blank_hdr =
    (false,
     mk_dm (pre ++ d :: post)
           (if gen_number (hdr (dev_first_block d)) >? gen_number blank_hdr
            then hdr (dev_first_block d) else blank_hdr)
           None None [] [] [] ∅ ∅ []) /\
  DeviceManager_ctor pre blank_hdr =
    (true, mk_dm pre blank_hdr None None [] [] [] ∅ ∅ []).
Proof.
  intros Hpre Hd. unfold DeviceManager_ctor. split.
  - rewrite scan_first_blocks_skips by done. simpl.
    unfold dev_first_block in *. by rewrite Hd.
  - assert (E : scan_first_blocks pre blank_hdr = (true, blank_hdr)).
    { pose proof (scan_first_blocks_skips pre [] blank_hdr Hpre) as E.
      by rewrite app_nil_r in E. }
    by rewrite E.
Qed.

(** The description of a device once its size is known. *)
Definition sized (d : dev_info) : dev_info :=
  if dev_size d =? 0
  then mk_dev_info (dev_name d) (dev_type d) (get_dev_size (dev_name d))
  else d.

Lemma sv_set_at_end {A : Type} (v : list (option A)) (x : option A) :
  sv_set v (length v) x = v ++ [x].
Proof.
  unfold sv_set, sv_fill. replace (S (length v) - length v)%nat with 1%nat by lia.
  simpl. rewrite insert_app_r_alt by lia.
  by replace (length v - length v)%nat with 0%nat by lia.
Qed.

Lemma format_loop_spec devs : forall k dm,
  length (m_all_pdevs dm) = k ->
  (format_loop devs k dm).1.2 = (k + length devs)%nat /\
  (format_loop devs k dm).1.1 = map sized devs /\
  length (m_all_pdevs (format_loop devs k dm).2) = (k + length devs)%nat /\
  m_first_blk_hdr (format_loop devs k dm).2 = m_first_blk_hdr dm /\
  (forall i, (i < k)%nat ->
     m_all_pdevs (format_loop devs k dm).2 !! i = m_all_pdevs dm !! i) /\
  (forall i d, devs !! i = Some d ->
     m_all_pdevs (format_loop devs k dm).2 !! (k + i)%nat =
       Some (Some (mk_pdev (sized d)
                     (mk_pdev_hdr (k + i) (system_uuid (m_first_blk_hdr dm)))
                     (formatted_image (m_first_blk_hdr dm)
                        (mk_pdev_hdr (k + i) (system_uuid (m_first_blk_hdr dm))))
                     (drive_streams (dev_name d)) []))) /\
  (forall t j,
     j ∈ default [] (pdevs_find t (format_loop devs k dm).2) <->
     j ∈ default [] (pdevs_find t dm) \/
     exists i d, j = (k + i)%nat /\ devs !! i = Some d /\ dev_type d = t).
Proof.
  induction devs as [|d devs IH]; intros k dm Hk; simpl.
  - split; [lia|]. split; [done|]. split; [lia|]. split; [done|]. split; [done|].
    split; [done|]. intros t j. split; [by left|]. by intros [?|(i & x & _ & ? & _)].
  - fold (sized d).
    assert (Hname : dev_name (sized d) = dev_name d)
      by (unfold sized; by destruct (_ =? 0)).
    assert (Htype : dev_type (sized d) = dev_type d)
      by (unfold sized; by destruct (_ =? 0)).
    rewrite Hname, Htype.
    set (pinfo := mk_pdev_hdr k (system_uuid (m_first_blk_hdr dm))).
    set (pdev := mk_pdev (sized d) pinfo (formatted_image (m_first_blk_hdr dm) pinfo)
                         (drive_streams (dev_name d)) []).
    set (dm1 := pdevs_store (dev_type d)
                  (default [] (pdevs_find (dev_type d) dm) ++ [k]) dm).
    set (dm2 := set_all_pdevs (sv_set (m_all_pdevs dm1) k (Some pdev)) dm1).
    assert (Hall2 : m_all_pdevs dm2 = m_all_pdevs dm ++ [Some pdev]).
    { subst dm2 dm1. rewrite <- Hk.
      destruct dm, (dev_type d); simpl; apply sv_set_at_end. }
    assert (Hhdr2 : m_first_blk_hdr dm2 = m_first_blk_hdr dm)
      by (subst dm2 dm1; by destruct dm, (dev_type d)).
    assert (Htier2 : forall t, default [] (pdevs_find t dm2) =
              if decide (dev_type d = t)
              then default [] (pdevs_find t dm) ++ [k]
              else default [] (pdevs_find t dm)).
    { intros t. subst dm2 dm1. by destruct dm, (dev_type d), t. }
    destruct (IH (S k) dm2) as (I1 & I2 & I3 & I4 & I5 & I6 & I7).
    { rewrite Hall2, length_app. simpl. lia. }
    simpl. split; [lia|]. split; [by rewrite I2|]. split; [lia|].
    split; [congruence|]. split.
    { intros i Hi. rewrite I5 by lia. rewrite Hall2. apply lookup_app_l. lia. }
    split.
    { intros [|i] x Hx; simpl in Hx.
      - injection Hx as <-. rewrite Nat.add_0_r, I5 by lia. rewrite Hall2.
        rewrite lookup_app_r by lia. by replace (k - length (m_all_pdevs dm))%nat with 0%nat by lia.
      - replace (k + S i)%nat with (S k + i)%nat by lia.
        rewrite (I6 i x Hx), Hhdr2. done. }
    intros t j. rewrite I7, Htier2. split.
    + intros [Hj|(i & x & -> & Hx & Ht)].
      * destruct (decide (dev_type d = t)) as [Heq|Hne]; [|by left].
        apply elem_of_app in Hj as [Hj| ->%list_elem_of_singleton]; [by left|].
        right. exists 0%nat, d. split; [lia|done].
      * right. exists (S i), x. split; [lia|done].
    + intros [Hj|([|i] & x & -> & Hx & Ht)]; try (simpl in Hx).
      * left. destruct (decide _); [|done]. apply elem_of_app. by left.
      * injection Hx as <-. left. rewrite decide_True by done.
        apply elem_of_app. right. rewrite Nat.add_0_r. by apply list_elem_of_singleton.
      * right. exists i, x. split; [lia|done].
Qed.

Lemma format_devices_effects (uuid : Z) (dm : DeviceManager) :
  m_all_pdevs dm = [] ->
  m_pdevs_data dm = None ->
  m_pdevs_fast dm = None ->
  (format_devices uuid 0 dm).1 = length (m_dev_infos dm) /\
  m_first_blk_hdr (format_devices uuid 0 dm).2 =
    mk_fb_hdr CURRENT_SUPERBLOCK_VERSION
              (wrap64 (gen_number (m_first_blk_hdr dm) + 1))
              (wrap32 (Z.of_nat (length (m_dev_infos dm)))) uuid /\
  m_dev_infos (format_devices uuid 0 dm).2 = map sized (m_dev_infos dm) /\
  length (m_all_pdevs (format_devices uuid 0 dm).2) = length (m_dev_infos dm) /\
  Forall is_Some (m_all_pdevs (format_devices uuid 0 dm).2) /\
  (forall i d, m_dev_infos dm !! i = Some d ->
     exists pdev,
       get_pdev i (format_devices uuid 0 dm).2 = Ok pdev /\
       pd_hdr pdev = mk_pdev_hdr i uuid /\
       pd_info pdev = sized d /\
       img_first_block (pd_image pdev) =
         mk_first_block (m_first_blk_hdr (format_devices uuid 0 dm).2) (pd_hdr pdev)) /\
  (forall t j,
     j ∈ default [] (pdevs_find t (format_devices uuid 0 dm).2) <->
     exists d, m_dev_infos dm !! j = Some d /\ dev_type d = t).
Proof.
  intros Hall Hd Hf. unfold format_devices.
  set (h1 := mk_fb_hdr _ _ _ _).
  set (dm0 := set_first_blk_hdr h1 dm).
  assert (Hall0 : length (m_all_pdevs dm0) = 0%nat)
    by (subst dm0; destruct dm; simpl in *; by subst).
  assert (Hh0 : m_first_blk_hdr dm0 = h1) by (subst dm0; by destruct dm).
  assert (Ht0 : forall t, default [] (pdevs_find t dm0) = []).
  { intros t. subst dm0. destruct dm, t; simpl in *; by subst. }
  destruct (format_loop_spec (m_dev_infos dm) 0 dm0 Hall0)
    as (I1 & I2 & I3 & I4 & I5 & I6 & I7).
  set (r := format_loop (m_dev_infos dm) 0 dm0) in *.
  assert (Hset : forall x, m_all_pdevs (set_dev_infos x r.2) = m_all_pdevs r.2 /\
                           m_first_blk_hdr (set_dev_infos x r.2) = m_first_blk_hdr r.2 /\
                           m_dev_infos (set_dev_infos x r.2) = x /\
                           forall t, pdevs_find t (set_dev_infos x r.2) = pdevs_find t r.2).
  { intros x. destruct (r.2). repeat split; try done. }
  destruct (Hset r.1.1) as (S1 & S2 & S3 & S4).
  simpl. rewrite S1, S2, S3, I4, Hh0.
  split; [done|]. split; [done|]. split; [done|]. split; [done|]. split.
  { apply Forall_forall. intros o Ho.
    apply list_elem_of_lookup in Ho as [i Hi].
    pose proof (lookup_lt_Some _ _ _ Hi) as Hlt. rewrite I3 in Hlt. simpl in Hlt.
    destruct (lookup_lt_is_Some_2 (m_dev_infos dm) i Hlt) as [d Hdi].
    specialize (I6 i d Hdi). simpl in I6. rewrite I6 in Hi. injection Hi as <-.
    by eexists. }
  split.
  { intros i d Hdi. specialize (I6 i d Hdi). simpl in I6. rewrite Hh0 in I6.
    eexists. unfold get_pdev. rewrite S1, I6. simpl. done. }
  intros t j. rewrite S4, I7, Ht0. split.
  - intros [Hnil|(i & d & -> & Hdi & Ht)]; [by apply elem_of_nil in Hnil|].
    by exists d.
  - intros (d & Hdi & Ht). right. by exists j, d.
Qed.

(** [format_devices] on a manager that holds no device yet numbers the
    devices from zero in the order they were given: device [i] gets id [i],
    fills slot [i] of the device table, so that the table has no empty
    slot, and is filed under its tier; every device carries the new system
    UUID, which is the one of the header, and its first block holds that
    header; the header records the current version and the number of
    devices; a size given as zero is replaced by the size of the drive. *)
Theorem format_devices_numbers_devices (uuid : Z) (dm : DeviceManager) :
  m_all_pdevs dm = [] ->
  m_pdevs_data dm = None ->
  m_pdevs_fast dm = None ->
  (format_devices uuid 0 dm).1 = length (m_dev_infos dm) /\
  m_first_blk_hdr (format_devices uuid 0 dm).2 =
    mk_fb_hdr CURRENT_SUPERBLOCK_VERSION
              (wrap64 (gen_number (m_first_blk_hdr dm) + 1))
              (wrap32 (Z.of_nat (length (m_dev_infos dm)))) uuid /\
  m_dev_infos (format_devices uuid 0 dm).2 = map sized (m_dev_infos dm) /\
  length (m_all_pdevs (format_devices uuid 0 dm).2) = length (m_dev_infos dm) /\
  Forall is_Some (m_all_pdevs (format_devices uuid 0 dm).2) /\
  (forall i d, m_dev_infos dm !! i = Some d ->
     exists pdev,
       get_pdev i (format_devices uuid 0 dm).2 = Ok pdev /\
       pd_hdr pdev = mk_pdev_hdr i uuid /\
       pd_info pdev = sized d /\
       img_first_block (pd_image pdev) =
         mk_first_block (m_first_blk_hdr (format_devices uuid 0 dm).2) (pd_hdr pdev)) /\
  (forall t j,
     j ∈ default [] (pdevs_find t (format_devices uuid 0 dm).2) <->
     exists d, m_dev_infos dm !! j = Some d /\ dev_type d = t).
Proof. apply format_devices_effects. Qed.

(** *** A formatted system is loaded again *)

Lemma open_devices_table devs : forall dm dm1,
  open_devices devs dm = Ok dm1 ->
  (forall i d, devs !! i = Some d ->
     dev_pdev_id d = (length (m_all_pdevs dm) + i)%nat) ->
  m_all_pdevs dm1 =
    m_all_pdevs dm ++ map (fun d => Some (PhysicalDev_ctor d (dev_hdr d))) devs /\
  m_vdevs dm1 = m_vdevs dm /\
  m_first_blk_hdr dm1 = m_first_blk_hdr dm /\
  m_dev_infos dm1 = m_dev_infos dm.
Proof.
  induction devs as [|d devs IH]; intros dm dm1 H Hids; simpl in H.
  - injection H as <-. by rewrite app_nil_r.
  - destruct (open_device d dm) as [dm0|] eqn:Hd; simpl in H; [|done].
    assert (Hid : dev_pdev_id d = length (m_all_pdevs dm)).
    { rewrite (Hids 0%nat d eq_refl). lia. }
    assert (H0 : m_all_pdevs dm0 = m_all_pdevs dm ++ [Some (PhysicalDev_ctor d (dev_hdr d))]
                 /\ m_vdevs dm0 = m_vdevs dm
                 /\ m_first_blk_hdr dm0 = m_first_blk_hdr dm
                 /\ m_dev_infos dm0 = m_dev_infos dm).
    { revert Hd. unfold open_device. fold (dev_hdr d). fold (dev_pdev_id d).
      case_bool_decide; [|done]. intros [= <-]. rewrite Hid.
      destruct dm, (dev_type d); simpl; by rewrite sv_set_at_end. }
    destruct H0 as (A1 & A2 & A3 & A4).
    destruct (IH dm0 dm1 H) as (I1 & I2 & I3 & I4).
    { intros i x Hx. rewrite (Hids (S i) x Hx), A1, length_app. simpl. lia. }
    rewrite I1, I2, I3, I4, A1, A2, A3, A4. simpl. by rewrite <- app_assoc.
Qed.

(** A system that was formatted comes back: when every device stores what
    [format_devices] wrote on it and its first block is valid, a manager
    constructed over the same devices finds the header of the format (its
    generation being above the blank header's), does not report a first
    boot, and its [load_devices] passes the three checks, opens every
    device under the id of the format and returns with no vdev. *)
Theorem format_then_load_devices
    (uuid : Z) (dm0 : DeviceManager) (blank_hdr : first_block_header) :
  m_all_pdevs dm0 = [] ->
  m_pdevs_data dm0 = None ->
  m_pdevs_fast dm0 = None ->
  m_dev_infos dm0 <> [] ->
  Z.of_nat (length (m_dev_infos dm0)) < 2 ^ 32 ->
  gen_number blank_hdr < gen_number (m_first_blk_hdr (format_devices uuid 0 dm0).2) ->
  (forall i d, m_dev_infos dm0 !! i = Some d ->
     fblk_valid (dev_first_block d) = true /\
     read_device (dev_name d) =
       formatted_image (m_first_blk_hdr (format_devices uuid 0 dm0).2)
                       (mk_pdev_hdr i uuid)) ->
  (DeviceManager_ctor (m_dev_infos (format_devices uuid 0 dm0).2) blank_hdr).1 = false /\
  m_first_blk_hdr
    (DeviceManager_ctor (m_dev_infos (format_devices uuid 0 dm0).2) blank_hdr).2
  = m_first_blk_hdr (format_devices uuid 0 dm0).2 /\
  exists dm',
    load_devices
      (DeviceManager_ctor (m_dev_infos (format_devices uuid 0 dm0).2) blank_hdr).2
    = Ok dm' /\
    m_vdevs dm' = [] /\
    length (m_all_pdevs dm') = length (m_dev_infos dm0) /\
    forall i d, m_dev_infos dm0 !! i = Some d ->
      exists pdev, get_pdev i dm' = Ok pdev /\
                   pd_hdr pdev = mk_pdev_hdr i uuid /\
                   pd_info pdev = sized d.
Proof.
  intros Hall Hdata Hfast Hne Hn Hgen Hdisk.
  destruct (format_devices_effects uuid dm0 Hall Hdata Hfast)
    as (_ & Hh & Hinfos & _).
  set (H := m_first_blk_hdr (format_devices uuid 0 dm0).2) in *.
  rewrite Hinfos.
  assert (Hname : forall d, dev_name (sized d) = dev_name d)
    by (intros d; unfold sized; by destruct (_ =? 0)).
  assert (Hfb : forall i d, m_dev_infos dm0 !! i = Some d ->
            dev_first_block (sized d) = mk_first_block H (mk_pdev_hdr i uuid)).
  { intros i d Hd. unfold dev_first_block. rewrite Hname.
    destruct (Hdisk i d Hd) as [_ ->]. done. }
  assert (Hscan : scan_first_blocks (map sized (m_dev_infos dm0)) blank_hdr = (false, H)).
  { destruct (m_dev_infos dm0) as [|d devs] eqn:Edevs; [done|]. simpl.
    destruct (Hdisk 0%nat d eq_refl) as [Hv Hr].
    unfold dev_first_block in Hv. rewrite Hname, Hv, Hr. simpl.
    by rewrite (proj2 (Z.gtb_lt _ _) Hgen). }
  unfold DeviceManager_ctor. rewrite Hscan. simpl.
  split; [done|]. split; [done|].
  set (dmn := mk_dm (map sized (m_dev_infos dm0)) H None None [] [] [] ∅ ∅ []).
  assert (Huuid : forall d, d ∈ m_dev_infos dmn ->
            dev_uuid d = system_uuid (m_first_blk_hdr dmn)).
  { simpl. intros d' (d & -> & Hd)%list_elem_of_fmap.
    apply list_elem_of_lookup in Hd as [i Hi].
    unfold dev_uuid, dev_hdr. fold (dev_first_block (sized d)).
    rewrite (Hfb i d Hi). simpl. subst H. rewrite Hh. done. }
  destruct (open_devices_uuid_ok (m_dev_infos dmn) dmn Huuid)
    as (dm1 & Hopen & _ & _ & _ & Hwf).
  assert (Hwf1 : tiers_wf dm1) by (apply Hwf; by intros [] l).
  destruct (open_devices_table _ _ _ Hopen) as (T1 & T2 & T3 & T4).
  { simpl. intros i d' Hd'. apply list_lookup_fmap_Some in Hd' as (d & -> & Hd).
    unfold dev_pdev_id, dev_hdr. fold (dev_first_block (sized d)).
    by rewrite (Hfb i d Hd). }
  simpl in T1, T2.
  assert (Hslots : forall p pdev, get_pdev p dm1 = Ok pdev ->
            exists i d, m_dev_infos dm0 !! i = Some d /\ p = i /\
              pdev = PhysicalDev_ctor (sized d) (mk_pdev_hdr i uuid) /\
              pd_image pdev = formatted_image H (mk_pdev_hdr i uuid)).
  { intros p pdev. unfold get_pdev. rewrite T1.
    destruct (map _ _ !! p) as [o|] eqn:Ep; simpl; [|done].
    apply list_lookup_fmap_Some in Ep as (d' & -> & Hd').
    apply list_lookup_fmap_Some in Hd' as (d & -> & Hd).
    simpl. intros [= <-]. exists p, d. split; [done|]. split; [done|].
    unfold dev_hdr. fold (dev_first_block (sized d)). rewrite (Hfb p d Hd). simpl.
    split; [done|]. unfold PhysicalDev_ctor. simpl. rewrite Hname.
    by destruct (Hdisk p d Hd) as [_ ->]. }
  assert (Hread : forall l, tiers_wf dm1 -> forall t, pdevs_find t dm1 = Some l ->
            read_vdev_infos l dm1 = Ok []).
  { intros l _ t Hl. destruct (Hwf1 t l Hl) as (p0 & l' & -> & [pdev Hp]).
    assert (Hget : get_pdev p0 dm1 = Ok pdev) by (unfold get_pdev; by rewrite Hp).
    destruct (Hslots p0 pdev Hget) as (i & d & _ & _ & _ & Himg).
    unfold read_vdev_infos. rewrite Hget. simpl. rewrite Himg. simpl.
    rewrite take_replicate.
    set (k := (MAX_VDEVS_IN_SYSTEM `min` MAX_VDEVS_IN_SYSTEM)%nat). clearbody k.
    induction k as [|k IHk]; simpl; [done|]. by rewrite IHk. }
  assert (Hinfos1 : load_vdev_infos dm1 = Ok dm1).
  { unfold load_vdev_infos.
    destruct (m_pdevs_data dm1) as [l|] eqn:Ed; simpl.
    - rewrite (Hread l Hwf1 Data Ed). simpl.
      destruct (m_pdevs_fast dm1) as [l'|] eqn:Ef; simpl; [|done].
      by rewrite (Hread l' Hwf1 Fast Ef).
    - destruct (m_pdevs_fast dm1) as [l'|] eqn:Ef; simpl; [|done].
      by rewrite (Hread l' Hwf1 Fast Ef). }
  exists dm1. split.
  { unfold load_devices. simpl.
    rewrite bool_decide_eq_true_2 by (subst H; by rewrite Hh).
    rewrite bool_decide_eq_true_2.
    2: { subst H. rewrite Hh. simpl. rewrite length_map. unfold wrap32.
         apply Z.mod_small. lia. }
    change (map sized (m_dev_infos dm0)) with (m_dev_infos dmn).
    rewrite Hopen. simpl. unfold load_vdevs. rewrite Hinfos1. simpl.
    rewrite T2. simpl. done. }
  split; [done|]. split; [by rewrite T1, !length_map|].
  intros i d Hd. unfold get_pdev. rewrite T1.
  rewrite list_lookup_fmap, list_lookup_fmap, Hd. simpl.
  eexists. split; [reflexivity|]. simpl.
  unfold dev_hdr. fold (dev_first_block (sized d)). by rewrite (Hfb i d Hd).
Qed.

End Manager.

(** *** A small system

    One data drive per scenario, named after what it stores: [good] holds a
    vdev record of vdev 0 with a matching CRC, a chunk of vdev 0 and a chunk
    of vdev 5, which was never written; [bare] holds a chunk and no vdev
    record; [torn] holds a vdev record whose checksum does not match. *)

Definition ex_sb_version : Z := 1.
Definition ex_max_vdevs : nat := 4.
Definition ex_max_chunks : nat := 16.
Definition ex_crc (v : vdev_info) : Z := 7.
Definition ex_max_chunks_in_pdev (d : dev_info) : Z := 4.
Definition ex_streams (name : string) : Z := 3.

Definition ex_hdr : first_block_header := mk_fb_hdr 1 1 1 9.

Definition ex_vinfo (sum : Z) : vdev_info :=
  mk_vdev_info 12 0 0 1 1 true Data SINGLE_FIRST_PDEV "meta" sum.

Definition ex_image (slots : list vdev_info) (chunks : list Chunk) : device_image :=
  mk_image (mk_first_block ex_hdr (mk_pdev_hdr 0 9)) slots chunks.

Definition ex_read_device (name : string) : device_image :=
  if decide (name = "good"%string)
  then ex_image [ex_vinfo 7] [mk_chunk 0 0 0 12; mk_chunk 1 5 0 12]
  else if decide (name = "bare"%string)
  then ex_image [] [mk_chunk 0 0 0 12]
  else if decide (name = "torn"%string)
  then ex_image [ex_vinfo 5] []
  else ex_image [] [].

Definition ex_dev (name : string) : dev_info := mk_dev_info name Data 100.

(** The manager as constructed over one drive, and after the drive is
    opened. *)
Definition ex_dm (name : string) : DeviceManager :=
  mk_dm [ex_dev name] ex_hdr None None [] [] [] ∅ ∅ [].

Definition ex_opened (name : string) : DeviceManager :=
  mk_dm [ex_dev name] ex_hdr (Some [0%nat]) None
        [Some (PhysicalDev_ctor ex_read_device ex_streams (ex_dev name)
                 (mk_pdev_hdr 0 9))]
        [] [] ∅ ∅ [].

Lemma ex_opened_by_open_devices (name : string) :
  open_devices ex_read_device ex_streams [ex_dev name] (ex_dm name) =
  Ok (ex_opened name).
Proof.
  unfold open_devices, open_device, ex_dm, ex_opened, ex_read_device. simpl.
  repeat (destruct (decide _); simpl); reflexivity.
Qed.

Definition ex_vdevs_registered : DeviceManager :=
  match load_vdev_infos ex_max_vdevs ex_crc (ex_opened "good") with
  | Ok dm => dm
  | Fatal _ => ex_opened "good"
  end.



Lemma load_vdevs_excludes_dangling_chunks_witness :
  exists dm',
    load_vdevs ex_max_vdevs ex_crc (ex_opened "good") = Ok dm' /\
    mk_chunk 0 0 0 12 ∈ vdev_chunks dm' 0 /\
    (forall v, mk_chunk 1 5 0 12 ∉ vdev_chunks dm' v) /\
    WarnDanglingChunk 1 5 ∈ m_log dm'.
Proof.
  destruct (load_vdevs_excludes_dangling_chunks ex_max_vdevs ex_crc
              (ex_opened "good") ex_vdevs_registered eq_refl eq_refl eq_refl eq_refl)
    as (dm' & Hload & _ & Hc).
  - intros _. constructor; [by eexists|constructor].
  - exists dm'. split; [exact Hload|].
    pose proof (Hc (mk_chunk 0 0 0 12)) as H0.
    pose proof (Hc (mk_chunk 1 5 0 12)) as H1.
    change (has_vdev ex_vdevs_registered (chunk_vdev_id (mk_chunk 0 0 0 12)))
      with true in H0.
    change (has_vdev ex_vdevs_registered (chunk_vdev_id (mk_chunk 1 5 0 12)))
      with false in H1.
    destruct H0 as (H0 & _); [by left|].
    destruct H1 as (H1 & _ & H1'); [right; by left|].
    split; [exact H0|]. split; [exact H1|]. by apply H1'.
Defined.

(** C9 as the specification words it fails: the drive [bare] stores a
    chunk of vdev 0 and no vdev record; the load succeeds and logs
    nothing. *)
Lemma load_vdevs_silent_without_vdevs :
  stored_chunks (ex_opened "bare") = [mk_chunk 0 0 0 12] /\
  exists dm',
    load_vdevs ex_max_vdevs ex_crc (ex_opened "bare") = Ok dm' /\
    has_vdev dm' 0 = false /\
    m_chunk_id_bm dm' = ∅ /\
    m_log dm' = [].
Proof.
  split; [reflexivity|]. eexists. split; [reflexivity|].
  split; [reflexivity|]. split; reflexivity.
Qed.

(** Two data drives of three streams each, four chunks at most on each. *)
Definition ex_pdev (name : string) (id : nat) : PhysicalDev :=
  mk_pdev (ex_dev name) (mk_pdev_hdr id 9) (ex_image [] []) 3 [].

Definition ex_two : DeviceManager :=
  mk_dm [ex_dev "a"; ex_dev "b"] ex_hdr (Some [0%nat; 1%nat]) None
        [Some (ex_pdev "a" 0); Some (ex_pdev "b" 1)] [] [] ∅ ∅ [].

Definition ex_one : DeviceManager :=
  mk_dm [ex_dev "a"] ex_hdr (Some [0%nat]) None
        [Some (ex_pdev "a" 0)] [] [] ∅ ∅ [].

Definition ex_mirrored : vdev_parameters :=
  mk_vparam "data" 20 2 2 Data ALL_PDEV_MIRRORED.

Definition ex_striped : vdev_parameters :=
  mk_vparam "data" 10 5 1 Data ALL_PDEV_STRIPED.

Lemma create_vdev_adjusts_parameters_witness :
  exists vdev dm',
    create_vdev ex_max_vdevs ex_max_chunks ex_crc ex_max_chunks_in_pdev
                ex_mirrored ex_two = Ok (vdev, dm') /\
    vdev_size (vd_info vdev) = 24.
Proof.
  destruct (create_vdev_adjusts_parameters ex_max_vdevs ex_max_chunks ex_crc
              ex_max_chunks_in_pdev ex_mirrored ex_two 0%nat [0%nat; 1%nat]
              [ex_pdev "a" 0; ex_pdev "b" 1])
    as (vdev & dm' & groups & Hc & _ & _ & _ & _ & Hsz & _);
    try reflexivity; try (vm_compute; congruence); try (vm_compute; lia).
  exists vdev, dm'. split; [exact Hc|exact Hsz].
Defined.

(** C8 as the specification words it fails: one drive of three streams
    and four chunks at most; five chunks are asked for, striped. Rounded up
    they are six; four are created. *)
Lemma create_vdev_caps_chunk_count :
  vp_num_chunks ex_striped = 5 /\
  total_streams [ex_pdev "a" 0] = 3 /\
  (exists vparam' csize,
     adjust_vdev_params ex_max_chunks_in_pdev ex_striped [0%nat] ex_one =
       Ok (vparam', [0%nat], csize) /\
     vp_num_chunks vparam' = 4) /\
  exists vdev dm',
    create_vdev ex_max_vdevs ex_max_chunks ex_crc ex_max_chunks_in_pdev
                ex_striped ex_one = Ok (vdev, dm') /\
    length (vd_chunks vdev) = 4%nat.
Proof.
  split; [reflexivity|]. split; [reflexivity|]. split.
  - eexists _, _. split; reflexivity.
  - eexists _, _. split; [vm_compute; reflexivity|reflexivity].
Qed.

(** The theorems on the ids and the tables, at these systems. *)

Lemma read_vdev_infos_returns_allocated_records_witness :
  read_vdev_infos ex_max_vdevs ex_crc [0%nat] (ex_opened "good") = Ok [ex_vinfo 7].
Proof.
  exact (read_vdev_infos_returns_allocated_records ex_max_vdevs ex_crc 0%nat []
           (ex_opened "good")
           (PhysicalDev_ctor ex_read_device ex_streams (ex_dev "good") (mk_pdev_hdr 0 9))
           eq_refl eq_refl).
Defined.

Lemma open_devices_files_by_tier_witness :
  default [] (pdevs_find Data (ex_opened "good")) = [0%nat] /\
  pdevs_find Fast (ex_opened "good") = None.
Proof.
  destruct (open_devices_files_by_tier ex_read_device ex_streams [ex_dev "good"]
              (ex_dm "good") (ex_opened "good") Data
              (ex_opened_by_open_devices "good")) as (H1 & _ & _).
  destruct (open_devices_files_by_tier ex_read_device ex_streams [ex_dev "good"]
              (ex_dm "good") (ex_opened "good") Fast
              (ex_opened_by_open_devices "good")) as (_ & H2 & _).
  split; [exact H1|]. apply H2; reflexivity.
Defined.

(** The mirrored vdev created on the two drives. *)
Definition ex_created : VirtualDev * DeviceManager :=
  match create_vdev ex_max_vdevs ex_max_chunks ex_crc ex_max_chunks_in_pdev
                    ex_mirrored ex_two with
  | Ok r => r
  | Fatal _ => (mk_vdev (ex_vinfo 0) [], ex_two)
  end.

Lemma ex_created_by_create_vdev :
  create_vdev ex_max_vdevs ex_max_chunks ex_crc ex_max_chunks_in_pdev
              ex_mirrored ex_two = Ok (ex_created.1, ex_created.2).
Proof. vm_compute. reflexivity. Qed.

Lemma create_vdev_allocates_fresh_ids_witness :
  length (vd_chunks ex_created.1) = 6%nat /\
  NoDup (chunk_id <$> vd_chunks ex_created.1) /\
  vdev_at ex_created.2 (vdev_id (vd_info ex_created.1)) = Some ex_created.1.
Proof.
  split; [vm_compute; reflexivity|].
  destruct (create_vdev_allocates_fresh_ids ex_max_vdevs ex_max_chunks ex_crc
              ex_max_chunks_in_pdev ex_mirrored ex_two ex_created.2 ex_created.1
              ex_created_by_create_vdev)
    as (_ & _ & _ & _ & H5 & _ & H7 & _).
  split; [exact H7|exact H5].
Defined.

Lemma create_vdev_keeps_tables_in_agreement_witness :
  tables_agree ex_two /\ tables_agree ex_created.2.
Proof.
  assert (H : tables_agree ex_two) by (by apply tables_agree_empty).
  split; [exact H|].
  exact (create_vdev_keeps_tables_in_agreement ex_max_vdevs ex_max_chunks ex_crc
           ex_max_chunks_in_pdev ex_mirrored ex_two ex_created.2 ex_created.1
           H ex_created_by_create_vdev).
Defined.

Definition ex_loaded : DeviceManager :=
  match load_vdevs ex_max_vdevs ex_crc (ex_opened "good") with
  | Ok dm => dm
  | Fatal _ => ex_opened "good"
  end.

Lemma load_vdevs_keeps_tables_in_agreement_witness :
  has_vdev ex_loaded 0 = true /\ tables_agree ex_loaded.
Proof.
  split; [vm_compute; reflexivity|].
  apply (load_vdevs_keeps_tables_in_agreement ex_max_vdevs ex_crc
           (ex_opened "good") ex_loaded).
  - by apply tables_agree_empty.
  - vm_compute. reflexivity.
Defined.

(** The two drives with all four vdev ids taken. *)
Definition ex_full : DeviceManager :=
  set_vdev_id_bm (list_to_set [0; 1; 2; 3]%nat) ex_two.

Lemma create_vdev_without_free_vdev_id_witness :
  create_vdev ex_max_vdevs ex_max_chunks ex_crc ex_max_chunks_in_pdev
              ex_mirrored ex_full = Fatal OUT_OF_RANGE /\
  create_vdev_leaves ex_max_vdevs ex_max_chunks ex_crc ex_max_chunks_in_pdev
                     ex_mirrored ex_full = ex_full.
Proof.
  apply create_vdev_without_free_vdev_id.
  intros i Hi. apply elem_of_list_to_set.
  destruct i as [|[|[|[|i]]]]; [repeat constructor ..|].
  unfold ex_max_vdevs in Hi. lia.
Defined.

(** The two drives with fifteen of the sixteen chunk ids taken: the mirrored
    vdev needs three chunks on each. *)
Definition ex_few_chunk_ids : DeviceManager :=
  set_chunk_id_bm (list_to_set (seq 0 15)) ex_two.

Lemma create_vdev_out_of_chunk_ids_witness :
  create_vdev ex_max_vdevs ex_max_chunks ex_crc ex_max_chunks_in_pdev
              ex_mirrored ex_few_chunk_ids = Fatal OUT_OF_RANGE /\
  has_vdev (create_vdev_leaves ex_max_vdevs ex_max_chunks ex_crc ex_max_chunks_in_pdev
                               ex_mirrored ex_few_chunk_ids) 0 = true /\
  15%nat ∈ m_chunk_id_bm
             (create_vdev_leaves ex_max_vdevs ex_max_chunks ex_crc ex_max_chunks_in_pdev
                                 ex_mirrored ex_few_chunk_ids).
Proof.
  assert (H : create_vdev ex_max_vdevs ex_max_chunks ex_crc ex_max_chunks_in_pdev
                          ex_mirrored ex_few_chunk_ids = Fatal OUT_OF_RANGE)
    by (vm_compute; reflexivity).
  split; [exact H|].
  destruct (create_vdev_out_of_chunk_ids ex_max_vdevs ex_max_chunks ex_crc
              ex_max_chunks_in_pdev ex_mirrored ex_few_chunk_ids 0%nat)
    as (_ & _ & Hv & Hc & _); [vm_compute; reflexivity|exact H|].
  split; [exact Hv|]. apply Hc. unfold ex_max_chunks. lia.
Defined.

(** A vdev asked for on the fast tier of the two data drives. *)
Definition ex_fast_request : vdev_parameters :=
  mk_vparam "log" 20 2 2 Fast SINGLE_FIRST_PDEV.

Definition ex_created_fast : VirtualDev * DeviceManager :=
  match create_vdev ex_max_vdevs ex_max_chunks ex_crc ex_max_chunks_in_pdev
                    ex_fast_request ex_two with
  | Ok r => r
  | Fatal _ => (mk_vdev (ex_vinfo 0) [], ex_two)
  end.

Lemma ex_created_fast_by_create_vdev :
  create_vdev ex_max_vdevs ex_max_chunks ex_crc ex_max_chunks_in_pdev
              ex_fast_request ex_two = Ok (ex_created_fast.1, ex_created_fast.2).
Proof. vm_compute. reflexivity. Qed.

Lemma create_vdev_places_chunks_on_tier_witness :
  length (vd_chunks ex_created_fast.1) = 2%nat /\
  exists ids,
    pdevs_find Data ex_two = Some ids /\
    forall c, c ∈ vd_chunks ex_created_fast.1 -> Some (chunk_pdev_id c) = head ids.
Proof.
  split; [vm_compute; reflexivity|].
  destruct (create_vdev_places_chunks_on_tier ex_max_vdevs ex_max_chunks ex_crc
              ex_max_chunks_in_pdev ex_fast_request ex_two ex_created_fast.2
              ex_created_fast.1 ex_created_fast_by_create_vdev)
    as (ids & H1 & _ & _ & H4).
  exists ids. split; [exact H1|]. apply H4. left. reflexivity.
Defined.

(** Three drives: [raw] was never formatted, [old] carries generation 3 and
    [new] generation 5. *)
Definition ex_gen_read (name : string) : device_image :=
  if decide (name = "old"%string)
  then mk_image (mk_first_block (mk_fb_hdr 1 3 3 9) (mk_pdev_hdr 1 9)) [] []
  else if decide (name = "new"%string)
  then mk_image (mk_first_block (mk_fb_hdr 1 5 3 9) (mk_pdev_hdr 2 9)) [] []
  else mk_image (mk_first_block (mk_fb_hdr 0 0 0 0) (mk_pdev_hdr 0 0)) [] [].

Definition ex_gen_valid (fblk : first_block) : bool := 0 <? gen_number (hdr fblk).

Definition ex_blank_hdr : first_block_header := mk_fb_hdr 0 0 0 0.

Lemma DeviceManager_ctor_stops_at_first_valid_witness :
  gen_number
    (m_first_blk_hdr
       (DeviceManager_ctor ex_gen_read ex_gen_valid
          [ex_dev "raw"; ex_dev "old"; ex_dev "new"] ex_blank_hdr).2) = 3.
Proof.
  destruct (DeviceManager_ctor_stops_at_first_valid ex_gen_read ex_gen_valid
              [ex_dev "raw"] [ex_dev "new"] (ex_dev "old") ex_blank_hdr) as [H _].
  - constructor; [reflexivity|constructor].
  - reflexivity.
  - simpl app in H. rewrite H. reflexivity.
Defined.

(** Two drives to format, one of each tier; the first is given without its
    size. *)
Definition ex_get_dev_size (name : string) : Z := 500.

Definition ex_unformatted : DeviceManager :=
  mk_dm [mk_dev_info "a" Data 0; mk_dev_info "b" Fast 100] ex_blank_hdr
        None None [] [] [] ∅ ∅ [].

Definition ex_formatted : nat * DeviceManager :=
  format_devices ex_sb_version ex_max_vdevs ex_streams ex_get_dev_size 9 0
                 ex_unformatted.

Lemma format_devices_numbers_devices_witness :
  ex_formatted.1 = 2%nat /\
  Forall is_Some (m_all_pdevs ex_formatted.2) /\
  m_dev_infos ex_formatted.2 = [mk_dev_info "a" Data 500; mk_dev_info "b" Fast 100].
Proof.
  destruct (format_devices_numbers_devices ex_sb_version ex_max_vdevs ex_streams
              ex_get_dev_size 9 ex_unformatted eq_refl eq_refl eq_refl)
    as (H1 & _ & H3 & _ & H5 & _).
  split; [exact H1|]. split; [exact H5|exact H3].
Defined.

(** What the two drives store after the format. *)
Definition ex_formatted_read (name : string) : device_image :=
  formatted_image ex_max_vdevs (m_first_blk_hdr ex_formatted.2)
    (mk_pdev_hdr (if decide (name = "a"%string) then 0 else 1) 9).

Lemma format_then_load_devices_witness :
  exists dm',
    load_devices ex_sb_version ex_max_vdevs ex_crc ex_formatted_read ex_streams
      (DeviceManager_ctor ex_formatted_read (fun _ => true)
         (m_dev_infos ex_formatted.2) ex_blank_hdr).2 = Ok dm' /\
    m_vdevs dm' = [] /\
    length (m_all_pdevs dm') = 2%nat.
Proof.
  destruct (format_then_load_devices ex_sb_version ex_max_vdevs ex_crc
              ex_formatted_read ex_streams (fun _ => true) ex_get_dev_size 9
              ex_unformatted ex_blank_hdr eq_refl eq_refl eq_refl)
    as (_ & _ & dm' & H1 & H2 & H3 & _).
  - discriminate.
  - simpl. lia.
  - vm_compute. reflexivity.
  - intros [|[|i]] d Hd; simpl in Hd; [| |discriminate];
      injection Hd as <-; split; reflexivity.
  - exists dm'. split; [exact H1|]. split; [exact H2|exact H3].
Defined.

End DeviceMgr.

(** * The lookups of the first device manager ([src/device/device.h]) *)

Module LegacyDevice.

(** [UINT32_MAX]: the four invalid ids are this one number. *)
Definition UINT32_MAX : Z := 2 ^ 32 - 1.
Definition INVALID_PDEV_ID : Z := UINT32_MAX.
Definition INVALID_VDEV_ID : Z := UINT32_MAX.
Definition INVALID_CHUNK_ID : Z := UINT32_MAX.
Definition INVALID_DEV_ID : Z := UINT32_MAX.

Section Lookups.

Variable PhysicalDev : Type.
Variable PhysicalDevChunk : Type.

(** The two dense tables of the manager; [None] is an empty
    [std::unique_ptr]. *)
Record DeviceManager : Type := mk_legacy_dm {
  m_pdevs : list (option PhysicalDev);
  m_chunks : list (option PhysicalDevChunk)
}.

(** What a lookup does: the slots of the table it indexed, in order, and the
    pointer it returns ([None] is [nullptr]). *)
Record lookup_result (A : Type) : Type := mk_lookup {
  indexed : list Z;
  returned : option A
}.
Arguments mk_lookup {A} _ _.
Arguments indexed {A} _.
Arguments returned {A} _.

(** Modelled from the spec: [homeds::sparse_vector] is not among the
    sources; the tables are dense arrays indexed by id, and indexing a slot
    outside the array reads no object. *)
Definition at_index {A : Type} (v : list (option A)) (i : Z) : lookup_result A :=
  mk_lookup [i] (mjoin (v !! Z.to_nat i)).

Definition get_chunk (chunk_id : Z) (dm : DeviceManager) : lookup_result PhysicalDevChunk :=
  if chunk_id =? INVALID_CHUNK_ID then mk_lookup [] None
  else at_index (m_chunks dm) chunk_id.

Definition get_chunk_mutable (chunk_id : Z) (dm : DeviceManager)
  : lookup_result PhysicalDevChunk :=
  if chunk_id =? INVALID_CHUNK_ID then mk_lookup [] None
  else at_index (m_chunks dm) chunk_id.

Definition get_pdev (pdev_id : Z) (dm : DeviceManager) : lookup_result PhysicalDev :=
  if pdev_id =? INVALID_PDEV_ID then mk_lookup [] None
  else at_index (m_pdevs dm) pdev_id.

(** Any other id does index its table, at the slot of the id. *)
Lemma get_chunk_indexes_valid_id (chunk_id : Z) (dm : DeviceManager) :
  chunk_id <> INVALID_CHUNK_ID ->
  indexed (get_chunk chunk_id dm) = [chunk_id] /\
  indexed (get_chunk_mutable chunk_id dm) = [chunk_id] /\
  indexed (get_pdev chunk_id dm) = [chunk_id].
Proof.
  intros Hne. unfold get_chunk, get_chunk_mutable, get_pdev, INVALID_PDEV_ID.
  unfold INVALID_CHUNK_ID in *.
  destruct (Z.eqb_spec chunk_id UINT32_MAX); [done|]. done.
Qed.

(** C10. With the invalid chunk id, [get_chunk] and [get_chunk_mutable]
    return the null pointer and index no slot of the chunk table; with the
    invalid pdev id, [get_pdev] returns the null pointer and indexes no slot
    of the device table; this holds whatever the tables contain. *)
Theorem invalid_id_lookups_return_null (dm : DeviceManager) :
  get_chunk INVALID_CHUNK_ID dm = mk_lookup [] None /\
  get_chunk_mutable INVALID_CHUNK_ID dm = mk_lookup [] None /\
  get_pdev INVALID_PDEV_ID dm = mk_lookup [] None.
Proof.
  unfold get_chunk, get_chunk_mutable, get_pdev.
  rewrite !Z.eqb_refl. done.
Qed.

End Lookups.

(** *** The chunk list of a device

    A [PhysicalDevChunk] works on its [chunk_info_block]; the chunks of a
    device are linked through the ids stored there. The ids are
    [uint32_t]. *)

Record chunk_info_block : Type := mk_chunk_info {
  chunk_start_offset : Z;
  chunk_size : Z;
  chunk_id : Z;
  pdev_id : Z;
  vdev_id : Z;
  prev_chunk_id : Z;
  next_chunk_id : Z;
  primary_chunk_id : Z;
  slot_allocated : bool;
  is_sb_chunk : bool
}.

(** [get_chunk_id] returns [(uint16_t)m_chunk_info->chunk_id]. *)
Definition get_chunk_id (c : chunk_info_block) : Z := chunk_id c mod 2 ^ 16.

Definition set_next_chunk_id (next : Z) (c : chunk_info_block) : chunk_info_block :=
  let '(mk_chunk_info a b c0 d e f _ h i j) := c in mk_chunk_info a b c0 d e f next h i j.

Definition set_prev_chunk_id (prev : Z) (c : chunk_info_block) : chunk_info_block :=
  let '(mk_chunk_info a b c0 d e _ g h i j) := c in mk_chunk_info a b c0 d e prev g h i j.

Definition get_next_chunk_id (c : chunk_info_block) : Z := next_chunk_id c.
Definition get_prev_chunk_id (c : chunk_info_block) : Z := prev_chunk_id c.

(** [set_next_chunk(next_chunk)] and [set_prev_chunk(prev_chunk)]; [None] is
    a null pointer. *)
Definition set_next_chunk (next_chunk : option chunk_info_block) (c : chunk_info_block)
  : chunk_info_block :=
  set_next_chunk_id (match next_chunk with
                     | Some n => get_chunk_id n
                     | None => INVALID_CHUNK_ID
                     end) c.

Definition set_prev_chunk (prev_chunk : option chunk_info_block) (c : chunk_info_block)
  : chunk_info_block :=
  set_prev_chunk_id (match prev_chunk with
                     | Some n => get_chunk_id n
                     | None => INVALID_CHUNK_ID
                     end) c.

(** A link set to a chunk stores the low sixteen bits of that chunk's id:
    it is the id itself exactly when the id is below 65536, and it is never
    the invalid id. A link set to the null pointer stores the invalid id,
    for which [get_chunk] returns the null pointer without indexing the
    chunk table; a link set to a chunk makes [get_chunk] index the slot of
    the sixteen-bit id. *)
Theorem chunk_links_store_sixteen_bits (PhysicalDev : Type)
    (dm : DeviceManager PhysicalDev chunk_info_block) (c other : chunk_info_block) :
  0 <= chunk_id other < 2 ^ 32 ->
  get_next_chunk_id (set_next_chunk (Some other) c) = chunk_id other mod 2 ^ 16 /\
  get_prev_chunk_id (set_prev_chunk (Some other) c) = chunk_id other mod 2 ^ 16 /\
  (get_next_chunk_id (set_next_chunk (Some other) c) = chunk_id other
   <-> chunk_id other < 2 ^ 16) /\
  get_next_chunk_id (set_next_chunk (Some other) c) <> INVALID_CHUNK_ID /\
  get_prev_chunk_id (set_prev_chunk (Some other) c) <> INVALID_CHUNK_ID /\
  indexed _ (get_chunk PhysicalDev chunk_info_block
             (get_next_chunk_id (set_next_chunk (Some other) c)) dm)
    = [chunk_id other mod 2 ^ 16] /\
  get_chunk PhysicalDev chunk_info_block
    (get_next_chunk_id (set_next_chunk None c)) dm = mk_lookup _ [] None /\
  get_chunk PhysicalDev chunk_info_block
    (get_prev_chunk_id (set_prev_chunk None c)) dm = mk_lookup _ [] None.
Proof.
  intros Hid.
  assert (Hn : get_next_chunk_id (set_next_chunk (Some other) c)
               = chunk_id other mod 2 ^ 16) by (by destruct c).
  assert (Hp : get_prev_chunk_id (set_prev_chunk (Some other) c)
               = chunk_id other mod 2 ^ 16) by (by destruct c).
  assert (Hn0 : get_next_chunk_id (set_next_chunk None c) = INVALID_CHUNK_ID)
    by (by destruct c).
  assert (Hp0 : get_prev_chunk_id (set_prev_chunk None c) = INVALID_CHUNK_ID)
    by (by destruct c).
  pose proof (Z.mod_pos_bound (chunk_id other) (2 ^ 16) ltac:(lia)) as Hb.
  assert (Hinv : INVALID_CHUNK_ID = 2 ^ 32 - 1) by reflexivity.
  rewrite Hn, Hp, Hn0, Hp0.
  split; [done|]. split; [done|]. split.
  { split.
    - intros E. rewrite <- E. lia.
    - intros Hlt. apply Z.mod_small. lia. }
  split; [lia|]. split; [lia|]. split.
  { unfold get_chunk. destruct (Z.eqb_spec (chunk_id other mod 2 ^ 16) INVALID_CHUNK_ID);
      [lia|done]. }
  unfold get_chunk. by rewrite Z.eqb_refl.
Qed.

Lemma chunk_links_store_sixteen_bits_witness :
  get_next_chunk_id
    (set_next_chunk (Some (mk_chunk_info 0 0 65537 0 0 0 0 0 true false))
                    (mk_chunk_info 0 0 1 0 0 0 0 0 true false)) = 1.
Proof.
  destruct (chunk_links_store_sixteen_bits unit (mk_legacy_dm unit chunk_info_block [] [])
              (mk_chunk_info 0 0 1 0 0 0 0 0 true false)
              (mk_chunk_info 0 0 65537 0 0 0 0 0 true false)) as (H & _).
  - simpl. lia.
  - exact H.
Defined.

End LegacyDevice.
